(** * Bounding-box overlay renderer

    A shallow embedding of [src/data_viz/bounding-box.js]: the module state
    ([boundingBoxData], [svg], [currentFrame]), the part of the DOM the
    module reads and writes, d3's keyed data join, and the three operations
    [initializeBoundingBoxes], [loadBoundingBoxData] and
    [updateBoundingBoxes] together with [handleResize], the
    [dataFileChanged] listener and the [ResizeObserver] callback, and the
    sequences of events that drive them.

    The arithmetic of the source is written once against the interface
    [JSNumber] and read at two instances: IEEE-754 binary64 (what a JavaScript
    engine computes, [IEEE.binary64]) and exact rational arithmetic extended
    with the non-finite values ([Exact.exact]), where the algebraic laws of
    the transform are stated. *)

From Stdlib Require Import Floats ZArith QArith Qcanon Bool Lia Lqa.
From Stdlib Require Import DecimalString.
From stdpp Require Import gmap strings list.

(** ** JavaScript numbers *)

(** The operations the source applies to numbers.  [js_gt x y] is [x > y],
    [js_seq] is [===] on two numbers, [ToBoolean] is the truthiness test
    behind [!x], [isFinite] and [Math_min] are the globals of those names.
    The literals are the ones written in the source. *)
Class JSNumber (num : Type) := {
  lit_0 : num;
  lit_0_3 : num;
  lit_1 : num;
  lit_2 : num;
  lit_5 : num;
  lit_100 : num;
  NaN : num;
  js_add : num -> num -> num;
  js_sub : num -> num -> num;
  js_mul : num -> num -> num;
  js_div : num -> num -> num;
  js_gt : num -> num -> bool;
  js_seq : num -> num -> bool;
  Math_min : num -> num -> num;
  isFinite : num -> bool;
  ToBoolean : num -> bool
}.

Declare Scope js_scope.
Delimit Scope js_scope with js.
Infix "+" := js_add : js_scope.
Infix "-" := js_sub : js_scope.
Infix "*" := js_mul : js_scope.
Infix "/" := js_div : js_scope.
Infix ">" := js_gt : js_scope.
Infix "===" := js_seq (at level 70, no associativity) : js_scope.

(** *** IEEE-754 binary64 *)

Module IEEE.

(** [Math.min]: NaN if either argument is NaN, the smaller argument
    otherwise, with -0 below +0. *)
Definition min (x y : float) : float :=
  if (PrimFloat.is_nan x || PrimFloat.is_nan y)%bool then PrimFloat.nan
  else if PrimFloat.ltb x y then x
  else if PrimFloat.ltb y x then y
  else if PrimFloat.get_sign x then x else y.

(** [!x] is true exactly for +0, -0 and NaN. *)
Definition truthy (x : float) : bool :=
  negb (PrimFloat.is_zero x || PrimFloat.is_nan x).

#[global] Instance binary64 : JSNumber float := {|
  lit_0 := 0%float;
  lit_0_3 := 0x1.3333333333333p-2%float;
  lit_1 := 1%float;
  lit_2 := 2%float;
  lit_5 := 5%float;
  lit_100 := 100%float;
  NaN := PrimFloat.nan;
  js_add := PrimFloat.add;
  js_sub := PrimFloat.sub;
  js_mul := PrimFloat.mul;
  js_div := PrimFloat.div;
  js_gt := fun x y => PrimFloat.ltb y x;
  js_seq := PrimFloat.eqb;
  Math_min := min;
  isFinite := PrimFloat.is_finite;
  ToBoolean := truthy
|}.

End IEEE.

(** *** Exact arithmetic *)

Module Exact.

(** A rational, an infinity with its sign ([true] is negative), or NaN.
    Operations on two finite values are exact; the special cases follow
    IEEE-754 with a single, unsigned zero. *)
Inductive xnum : Type :=
| Fin (q : Qc)
| Inf (neg : bool)
| Nan.

Definition of_Q (q : Q) : xnum := Fin (Q2Qc q).

Definition is_neg (q : Qc) : bool :=
  match (q ?= 0)%Qc with Lt => true | _ => false end.

Definition is_0 (q : Qc) : bool :=
  match (q ?= 0)%Qc with Eq => true | _ => false end.

Definition opp (x : xnum) : xnum :=
  match x with
  | Fin q => Fin (- q)%Qc
  | Inf s => Inf (negb s)
  | Nan => Nan
  end.

Definition add (x y : xnum) : xnum :=
  match x, y with
  | Fin a, Fin b => Fin (a + b)%Qc
  | Fin _, Inf s => Inf s
  | Inf s, Fin _ => Inf s
  | Inf s, Inf t => if Bool.eqb s t then Inf s else Nan
  | _, _ => Nan
  end.

Definition sub (x y : xnum) : xnum := add x (opp y).

Definition mul (x y : xnum) : xnum :=
  match x, y with
  | Fin a, Fin b => Fin (a * b)%Qc
  | Fin a, Inf s => if is_0 a then Nan else Inf (xorb (is_neg a) s)
  | Inf s, Fin b => if is_0 b then Nan else Inf (xorb s (is_neg b))
  | Inf s, Inf t => Inf (xorb s t)
  | _, _ => Nan
  end.

Definition div (x y : xnum) : xnum :=
  match x, y with
  | Fin a, Fin b =>
      if is_0 b then (if is_0 a then Nan else Inf (is_neg a))
      else Fin (a / b)%Qc
  | Fin _, Inf _ => Fin 0%Qc
  | Inf s, Fin b => Inf (xorb s (is_neg b))
  | _, _ => Nan
  end.

(** [lt x y] is [x < y]; false as soon as one side is NaN. *)
Definition lt (x y : xnum) : bool :=
  match x, y with
  | Fin a, Fin b => match (a ?= b)%Qc with Lt => true | _ => false end
  | Fin _, Inf s => negb s
  | Inf s, Fin _ => s
  | Inf s, Inf t => s && negb t
  | _, _ => false
  end.

Definition seq (x y : xnum) : bool :=
  match x, y with
  | Fin a, Fin b => match (a ?= b)%Qc with Eq => true | _ => false end
  | Inf s, Inf t => Bool.eqb s t
  | _, _ => false
  end.

Definition min (x y : xnum) : xnum :=
  match x, y with
  | Nan, _ | _, Nan => Nan
  | _, _ => if lt y x then y else x
  end.

Definition finite (x : xnum) : bool :=
  match x with Fin _ => true | _ => false end.

Definition truthy (x : xnum) : bool :=
  match x with
  | Fin q => negb (is_0 q)
  | Inf _ => true
  | Nan => false
  end.

#[global] Instance exact : JSNumber xnum := {|
  lit_0 := of_Q 0;
  lit_0_3 := of_Q (3 # 10);
  lit_1 := of_Q 1;
  lit_2 := of_Q 2;
  lit_5 := of_Q 5;
  lit_100 := of_Q 100;
  NaN := Nan;
  js_add := add;
  js_sub := sub;
  js_mul := mul;
  js_div := div;
  js_gt := fun x y => lt y x;
  js_seq := seq;
  Math_min := min;
  isFinite := finite;
  ToBoolean := truthy
|}.

End Exact.

(** ** Detection records *)

(** A record identifier as the data file carries it: an integer or a
    string.  [String_of_id i] is the string [i + ""] that d3 keys a node by
    (decimal for an integer, the string itself otherwise), so the integer 7
    and the string "7" give one key. *)
Inductive ident : Type :=
| IdNum (z : Z)
| IdStr (s : string).

Definition String_of_id (i : ident) : string :=
  match i with
  | IdNum z => NilZero.string_of_int (Z.to_int z)
  | IdStr s => s
  end.

(** What goes wrong in the operations below. *)
Inductive js_error : Type :=
| TypeError (message : string)
| FetchError (message : string)
| SyntaxError (message : string).

(** How a call ends: it returns, or an exception leaves it. *)
Inductive completion : Type :=
| Returned
| Threw (e : js_error).

Section Overlay.

Context {num : Type} {JSN : JSNumber num}.

(** The class-to-color mapping imported from [../utils/set-class-colors.js],
    in the order [Object.keys] lists it. *)
Variable classColors : list (string * string).

(** [classColors[c]]: the color, or [undefined]. *)
Definition classColor (c : string) : option string :=
  snd <$> List.find (fun kv => String.eqb (fst kv) c) classColors.

(** One detection.  [bbox] holds the components present, each as the number
    the source's [/] and [-] read it as; [bbox_at d i] is [d.bbox[i]] in
    those positions, NaN where the component is missing. *)
Record detection : Type := {
  frame : num;
  id : ident;
  class : string;
  confidence : num;
  bbox : list num
}.

Definition bbox_at (d : detection) (i : nat) : num := nth i (bbox d) NaN.

(** ** The box layer and d3's keyed join *)

(** An attribute or style value. *)
Inductive aval : Type :=
| ANum (x : num)
| AStr (s : string).

(** The label template [`${d.class} ${d.id} (${Math.round(d.confidence * 100)}%)`],
    kept as the three values it renders; [lt_percent] is the argument of
    [Math.round]. *)
Record label_text : Type := {
  lt_class : string;
  lt_id : string;
  lt_percent : num
}.

(** A [rect] or [text] element of the box layer: its identity [nid], the
    datum d3 bound to it ([__data__]), its attributes, inline styles and
    text content. *)
Record node : Type := {
  nid : nat;
  tagName : string;
  datum : detection;
  attrs : gmap string aval;
  styles : gmap string aval;
  textContent : option label_text
}.

Definition new_node (n : nat) (tag : string) (d : detection) : node :=
  {| nid := n; tagName := tag; datum := d; attrs := ∅; styles := ∅;
     textContent := None |}.

(** The key function [d => d.id], with d3's [+ ""]. *)
Definition key (d : detection) : string := String_of_id (id d).

(** [selectAll(tag)]: the children with that tag, in document order. *)
Definition selectAll (tag : string) (kids : list node) : list node :=
  filter (fun n => tagName n = tag) kids.

(** [bindKey], first loop: the first node of each key goes into
    [nodeByKeyValue], a node whose key is already there goes to exit. *)
Fixpoint index_nodes (group : list node) (byKey : gmap string nat)
  : gmap string nat * list nat :=
  match group with
  | [] => (byKey, [])
  | n :: rest =>
      match byKey !! key (datum n) with
      | Some _ =>
          let '(m, dup) := index_nodes rest byKey in (m, nid n :: dup)
      | None => index_nodes rest (<[key (datum n) := nid n]> byKey)
      end
  end.

(** [bindKey], second loop: a datum whose key is in the map takes that node
    (update) and deletes the key; any other datum is an enter slot. *)
Fixpoint bind_data (data : list detection) (byKey : gmap string nat)
  : list (detection * option nat) * gmap string nat :=
  match data with
  | [] => ([], byKey)
  | d :: rest =>
      match byKey !! key d with
      | Some n =>
          let '(slots, m) := bind_data rest (delete (key d) byKey) in
          ((d, Some n) :: slots, m)
      | None =>
          let '(slots, m) := bind_data rest byKey in
          ((d, None) :: slots, m)
      end
  end.

(** [bindKey], third loop: a node still in the map was bound to no datum. *)
Definition unbound (group : list node) (byKey : gmap string nat) : list nat :=
  nid <$> filter (fun n => byKey !! key (datum n) = Some (nid n)) group.

(** The result of [selection.data(data, key)]: one slot per datum, holding
    the node to update or nothing (enter), and the exit nodes. *)
Record joined : Type := {
  slots : list (detection * option nat);
  exit : list nat
}.

Definition bindKey (group : list node) (data : list detection) : joined :=
  let '(byKey, dup) := index_nodes group ∅ in
  let '(sl, rest) := bind_data data byKey in
  {| slots := sl; exit := dup ++ unbound group rest |}.

Definition set_datum (d : detection) (n : node) : node :=
  {| nid := nid n; tagName := tagName n; datum := d; attrs := attrs n;
     styles := styles n; textContent := textContent n |}.

(** [node.__data__ = data[i]] for the nodes of the update selection. *)
Definition rebind (sl : list (detection * option nat)) (n : node) : node :=
  match List.find (fun s => bool_decide (snd s = Some (nid n))) sl with
  | Some (d, _) => set_datum d n
  | None => n
  end.

(** [exit().remove()]. *)
Definition remove (gone : list nat) (kids : list node) : list node :=
  filter (fun n => nid n ∉ gone) kids.

(** [parent.insertBefore(child, next)]; [next = null] appends. *)
Fixpoint insertBefore (child : node) (next : option nat) (kids : list node)
  : list node :=
  match next, kids with
  | Some r, n :: rest =>
      if bool_decide (nid n = r) then child :: n :: rest
      else n :: insertBefore child next rest
  | _, _ => kids ++ [child]
  end.

(** The [_next] of an enter slot: the first update node after it. *)
Fixpoint next_update (sl : list (detection * option nat)) : option nat :=
  match sl with
  | [] => None
  | (_, Some n) :: _ => Some n
  | (_, None) :: rest => next_update rest
  end.

(** [enter().append(tag)]: each enter slot, in order, creates an element
    with the slot's datum and inserts it before its [_next].  The result
    lists the created element of each slot. *)
Fixpoint enter_append (tag : string) (sl : list (detection * option nat))
    (kids : list node) (fresh : nat)
  : list (option nat) * list node * nat :=
  match sl with
  | [] => ([], kids, fresh)
  | (d, Some _) :: rest =>
      let '(made, kids', fresh') := enter_append tag rest kids fresh in
      (None :: made, kids', fresh')
  | (d, None) :: rest =>
      let kids1 := insertBefore (new_node fresh tag d) (next_update rest) kids in
      let '(made, kids', fresh') := enter_append tag rest kids1 (S fresh) in
      (Some fresh :: made, kids', fresh')
  end.

(** [a.merge(b)]: index by index, the node of [a] if there is one, else
    that of [b]. *)
Fixpoint merge (a b : list (option nat)) : list (option nat) :=
  match a, b with
  | x :: a', y :: b' => (match x with Some _ => x | None => y end) :: merge a' b'
  | [], _ => b
  | _, [] => a
  end.

(** [selection.each(f)]: [f] mutates every node of the selection. *)
Definition each (f : node -> node) (sel : list (option nat)) (kids : list node)
  : list node :=
  (fun n => if bool_decide (Some (nid n) ∈ sel) then f n else n) <$> kids.

(** [selection.attr(name, value)] with a function value. *)
Definition attr (name : string) (value : detection -> aval) : node -> node :=
  fun n =>
    {| nid := nid n; tagName := tagName n; datum := datum n;
       attrs := <[name := value (datum n)]> (attrs n);
       styles := styles n; textContent := textContent n |}.

(** [selection.style(name, value)]: a value of [undefined] removes the
    property. *)
Definition style (name : string) (value : detection -> option aval)
  : node -> node :=
  fun n =>
    {| nid := nid n; tagName := tagName n; datum := datum n;
       attrs := attrs n;
       styles := match value (datum n) with
                 | Some v => <[name := v]> (styles n)
                 | None => delete name (styles n)
                 end;
       textContent := textContent n |}.

(** [selection.text(value)]. *)
Definition text (value : detection -> label_text) : node -> node :=
  fun n =>
    {| nid := nid n; tagName := tagName n; datum := datum n;
       attrs := attrs n; styles := styles n;
       textContent := Some (value (datum n)) |}.

(** ** The page and the module state *)

(** What [getBoundingClientRect()] returns. *)
Record DOMRect : Type := {
  rect_top : num;
  rect_left : num;
  width : num;
  height : num
}.

(** The [.content-video] element: its intrinsic size and rendered box. *)
Record video : Type := {
  videoWidth : num;
  videoHeight : num;
  video_rect : DOMRect
}.

(** A video container: its own box and its [.content-video], if any. *)
Record container : Type := {
  container_rect : DOMRect;
  content_video : option video
}.

(** One entry of the legend: its vertical offset, swatch color and label. *)
Record legend_item : Type := {
  legend_y : nat;
  legend_fill : option string;
  legend_label : string
}.

(** An [svg.bounding-box-overlay] element: the container it is attached to
    ([None] once removed from the document), its position and size in [px],
    the children of its [g.bounding-boxes] and of its [g.legend]. *)
Record overlay : Type := {
  parentNode : option nat;
  placed : DOMRect;
  boxLayer : list node;
  legend : list legend_item
}.

(** The module variables [boundingBoxData], [svg] and [currentFrame], the
    containers and overlay elements of the page (an element is named by its
    position in [overlays]), the containers whose video a [ResizeObserver]
    of this module watches, the next unused node identity, and what was
    written with [console.error]. *)
Record world : Type := {
  boundingBoxData : list detection;
  svg : option nat;
  currentFrame : num;
  containers : gmap nat container;
  overlays : list overlay;
  observed : list nat;
  fresh : nat;
  console : list string
}.

(** The state the module is loaded in. *)
Definition initial (page : gmap nat container) : world :=
  {| boundingBoxData := []; svg := None; currentFrame := lit_0;
     containers := page; overlays := []; observed := []; fresh := 0;
     console := [] |}.

Definition set_boundingBoxData (data : list detection) (w : world) : world :=
  {| boundingBoxData := data; svg := svg w; currentFrame := currentFrame w;
     containers := containers w; overlays := overlays w;
     observed := observed w; fresh := fresh w; console := console w |}.

Definition set_svg (h : option nat) (w : world) : world :=
  {| boundingBoxData := boundingBoxData w; svg := h;
     currentFrame := currentFrame w; containers := containers w;
     overlays := overlays w; observed := observed w; fresh := fresh w;
     console := console w |}.

Definition set_currentFrame (f : num) (w : world) : world :=
  {| boundingBoxData := boundingBoxData w; svg := svg w; currentFrame := f;
     containers := containers w; overlays := overlays w;
     observed := observed w; fresh := fresh w; console := console w |}.

Definition set_overlays (els : list overlay) (w : world) : world :=
  {| boundingBoxData := boundingBoxData w; svg := svg w;
     currentFrame := currentFrame w; containers := containers w;
     overlays := els; observed := observed w; fresh := fresh w;
     console := console w |}.

Definition set_observed (cs : list nat) (w : world) : world :=
  {| boundingBoxData := boundingBoxData w; svg := svg w;
     currentFrame := currentFrame w; containers := containers w;
     overlays := overlays w; observed := cs; fresh := fresh w;
     console := console w |}.

Definition set_fresh (n : nat) (w : world) : world :=
  {| boundingBoxData := boundingBoxData w; svg := svg w;
     currentFrame := currentFrame w; containers := containers w;
     overlays := overlays w; observed := observed w; fresh := n;
     console := console w |}.

(** The page changing under the module: its containers replaced. *)
Definition set_containers (page : gmap nat container) (w : world) : world :=
  {| boundingBoxData := boundingBoxData w; svg := svg w;
     currentFrame := currentFrame w; containers := page;
     overlays := overlays w; observed := observed w; fresh := fresh w;
     console := console w |}.

Definition console_error (message : string) (w : world) : world :=
  {| boundingBoxData := boundingBoxData w; svg := svg w;
     currentFrame := currentFrame w; containers := containers w;
     overlays := overlays w; observed := observed w; fresh := fresh w;
     console := console w ++ [message] |}.

(** ** [initializeBoundingBoxes] *)

Definition detach (el : overlay) : overlay :=
  {| parentNode := None; placed := placed el; boxLayer := boxLayer el;
     legend := legend el |}.

(** [d3.select(videoContainer).select('.bounding-box-overlay').remove()]:
    the first overlay attached to the container leaves the document. *)
Fixpoint remove_first_overlay (c : nat) (els : list overlay) : list overlay :=
  match els with
  | [] => []
  | el :: rest =>
      if bool_decide (parentNode el = Some c) then detach el :: rest
      else el :: remove_first_overlay c rest
  end.

(** The overlay's [top], [left], [width] and [height] styles. *)
Definition cover (videoRect containerRect : DOMRect) : DOMRect :=
  {| rect_top := (rect_top videoRect - rect_top containerRect)%js;
     rect_left := (rect_left videoRect - rect_left containerRect)%js;
     width := width videoRect;
     height := height videoRect |}.

(** One legend entry per key of [classColors], 20 units apart. *)
Definition make_legend : list legend_item :=
  imap (fun i kv =>
          {| legend_y := i * 20; legend_fill := classColor (fst kv);
             legend_label := fst kv |}) classColors.

(** The body of the [try] block. *)
Definition try_initialize (videoContainer : nat) (w : world)
  : world * completion :=
  let w := set_overlays (remove_first_overlay videoContainer (overlays w)) w in
  match containers w !! videoContainer with
  | None => (w, Threw (TypeError "videoContainer.querySelector"))
  | Some box =>
      match content_video box with
      | None => (w, Threw (TypeError "videoElement.getBoundingClientRect"))
      | Some videoElement =>
          let videoRect := video_rect videoElement in
          let el := {| parentNode := Some videoContainer;
                       placed := cover videoRect (container_rect box);
                       boxLayer := [];
                       legend := make_legend |} in
          let h := length (overlays w) in
          (set_observed (observed w ++ [videoContainer])
             (set_svg (Some h) (set_overlays (overlays w ++ [el]) w)),
           Returned)
      end
  end.

Definition initializeBoundingBoxes (videoContainer : nat) (w : world)
  : world * completion :=
  match try_initialize videoContainer w with
  | (w', Returned) => (w', Returned)
  | (w', Threw _) =>
      (console_error "Error initializing bounding boxes:" w', Returned)
  end.

(** ** [loadBoundingBoxData] *)

(** How [fetch(dataFile)] followed by [response.json()] ends. *)
Inductive fetched : Type :=
| FetchRejected (e : js_error)
| JsonRejected (e : js_error)
| Parsed (data : list detection).

(** The body of the [try] block, at the completion of the two awaits. *)
Definition try_load (r : fetched) (w : world) : world * completion :=
  match r with
  | FetchRejected e => (w, Threw e)
  | JsonRejected e => (w, Threw e)
  | Parsed data => (set_currentFrame lit_0 (set_boundingBoxData data w), Returned)
  end.

Definition loadBoundingBoxData (fetch : string -> fetched) (dataFile : string)
    (w : world) : world * completion :=
  match try_load (fetch dataFile) w with
  | (w', Returned) => (w', Returned)
  | (w', Threw _) =>
      (set_boundingBoxData []
         (console_error "Error loading bounding box data:" w'), Returned)
  end.

(** ** [updateBoundingBoxes] *)

(** The letterbox fit of the video in its rendered box. *)
Record fit : Type := {
  scale : num;
  actualWidth : num;
  actualHeight : num;
  xOffset : num;
  yOffset : num
}.

Definition fit_video (videoWidth videoHeight : num) (videoRect : DOMRect) : fit :=
  let scale := Math_min (width videoRect / videoWidth)%js
                        (height videoRect / videoHeight)%js in
  let actualWidth := (videoWidth * scale)%js in
  let actualHeight := (videoHeight * scale)%js in
  let xOffset := ((width videoRect - actualWidth) / lit_2)%js in
  let yOffset := ((height videoRect - actualHeight) / lit_2)%js in
  {| scale := scale; actualWidth := actualWidth; actualHeight := actualHeight;
     xOffset := xOffset; yOffset := yOffset |}.

Section Drawing.

Variables videoWidth' videoHeight' : num.
Variable g : fit.

(** The attribute functions of the boxes. *)
Definition rect_x (d : detection) : num :=
  let x := (xOffset g + (bbox_at d 0 / videoWidth') * actualWidth g)%js in
  if isFinite x then x else lit_0.

Definition rect_y (d : detection) : num :=
  let y := (yOffset g + (bbox_at d 1 / videoHeight') * actualHeight g)%js in
  if isFinite y then y else lit_0.

Definition rect_width (d : detection) : num :=
  let width := (((bbox_at d 2 - bbox_at d 0) / videoWidth') * actualWidth g)%js in
  if isFinite width && (width > lit_0)%js then width else lit_0.

Definition rect_height (d : detection) : num :=
  let height := (((bbox_at d 3 - bbox_at d 1) / videoHeight') * actualHeight g)%js in
  if isFinite height && (height > lit_0)%js then height else lit_0.

Definition rect_opacity (d : detection) : num :=
  Math_min lit_1 (confidence d + lit_0_3)%js.

(** The attribute functions of the labels. *)
Definition label_x (d : detection) : num :=
  let x := (xOffset g + (bbox_at d 0 / videoWidth') * actualWidth g)%js in
  if isFinite x then x else lit_0.

Definition label_y (d : detection) : num :=
  let y := (yOffset g + (bbox_at d 1 / videoHeight') * actualHeight g - lit_5)%js in
  if isFinite y then y else lit_0.

Definition label_of (d : detection) : label_text :=
  {| lt_class := class d; lt_id := String_of_id (id d);
     lt_percent := (confidence d * lit_100)%js |}.

(** The chain applied to the merged selection of boxes. *)
Definition draw_rect (n : node) : node :=
  style "opacity" (fun d => Some (ANum (rect_opacity d)))
  (style "stroke-width" (fun _ => Some (AStr "2px"))
  (style "stroke" (fun d => AStr <$> classColor (class d))
  (style "fill" (fun _ => Some (AStr "none"))
  (attr "class" (fun _ => AStr "bounding-box")
  (attr "height" (fun d => ANum (rect_height d))
  (attr "width" (fun d => ANum (rect_width d))
  (attr "y" (fun d => ANum (rect_y d))
  (attr "x" (fun d => ANum (rect_x d)) n)))))))).

(** The chain applied to the merged selection of labels. *)
Definition draw_label (n : node) : node :=
  style "font-weight" (fun _ => Some (AStr "bold"))
  (style "font-size" (fun _ => Some (AStr "18px"))
  (style "fill" (fun d => AStr <$> classColor (class d))
  (attr "class" (fun _ => AStr "bounding-box-label")
  (text label_of
  (attr "y" (fun d => ANum (label_y d))
  (attr "x" (fun d => ANum (label_x d)) n)))))).

(** [selectAll(tag).data(frameData, d => d.id)], [exit().remove()],
    [enter().append(tag).merge(...)] and the chain [draw], on the children
    of the box layer. *)
Definition keyed_update (tag : string) (draw : node -> node)
    (frameData : list detection) (kids : list node) (fresh : nat)
  : list node * nat :=
  let bound := bindKey (selectAll tag kids) frameData in
  let kids := rebind (slots bound) <$> kids in
  let kids := remove (exit bound) kids in
  let '(made, kids, fresh) := enter_append tag (slots bound) kids fresh in
  let sel := merge made (snd <$> slots bound) in
  (each draw sel kids, fresh).

Definition redraw_layer (frameData : list detection) (kids : list node)
    (fresh : nat) : list node * nat :=
  let '(kids, fresh) := keyed_update "rect" draw_rect frameData kids fresh in
  keyed_update "text" draw_label frameData kids fresh.

End Drawing.

Definition set_boxLayer (kids : list node) (el : overlay) : overlay :=
  {| parentNode := parentNode el; placed := placed el; boxLayer := kids;
     legend := legend el |}.

(** [boundingBoxData.filter(d => d.frame === frameNumber)]. *)
Definition frameData (frameNumber : num) (data : list detection)
  : list detection :=
  List.filter (fun d => (frame d === frameNumber)%js) data.

Definition updateBoundingBoxes (frameNumber : num) (w : world)
  : world * completion :=
  match svg w with
  | None => (w, Returned)
  | Some h =>
      if Nat.eqb (length (boundingBoxData w)) 0 then (w, Returned) else
      let w := set_currentFrame frameNumber w in
      let frameData := frameData frameNumber (boundingBoxData w) in
      match overlays w !! h with
      | None => (w, Threw (TypeError "svg.node"))
      | Some el =>
          match parentNode el with
          | None => (w, Threw (TypeError "parentNode.querySelector"))
          | Some c =>
              match containers w !! c ≫= content_video with
              | None => (w, Returned)
              | Some videoElement =>
                  let videoRect := video_rect videoElement in
                  let videoWidth := videoWidth videoElement in
                  let videoHeight := videoHeight videoElement in
                  if negb (ToBoolean videoWidth) || negb (ToBoolean videoHeight)
                     || negb (ToBoolean (width videoRect))
                     || negb (ToBoolean (height videoRect))
                  then (w, Returned) else
                  let g := fit_video videoWidth videoHeight videoRect in
                  let '(kids, fresh') :=
                    redraw_layer videoWidth videoHeight g frameData
                      (boxLayer el) (fresh w) in
                  (set_fresh fresh'
                     (set_overlays (<[h := set_boxLayer kids el]> (overlays w)) w),
                   Returned)
              end
          end
      end
  end.

(** ** [handleResize] and the resize observer *)

Definition handleResize (w : world) : world * completion :=
  match svg w with
  | Some _ => updateBoundingBoxes (currentFrame w) w
  | None => (w, Returned)
  end.

Definition set_placed (r : DOMRect) (el : overlay) : overlay :=
  {| parentNode := parentNode el; placed := r; boxLayer := boxLayer el;
     legend := legend el |}.

(** The callback of the [ResizeObserver] made for [videoContainer]: it
    moves the overlay [svg] names now and redraws the current frame. *)
Definition resizeObserverCallback (videoContainer : nat) (w : world)
  : world * completion :=
  match containers w !! videoContainer with
  | Some box =>
      match content_video box, svg w with
      | Some videoElement, Some h =>
          let r := cover (video_rect videoElement) (container_rect box) in
          updateBoundingBoxes (currentFrame w)
            (set_overlays (alter (set_placed r) h (overlays w)) w)
      | Some _, None => (w, Threw (TypeError "svg.style"))
      | None, _ => (w, Returned)
      end
  | None => (w, Returned)
  end.

(** ** Vocabulary of the properties *)

(** The nodes of a layer have distinct identities, all already handed out. *)
Definition layer_ok (kids : list node) (fresh : nat) : Prop :=
  NoDup (nid <$> kids) /\ Forall (fun n => nid n < fresh) kids.

Definition world_ok (w : world) : Prop :=
  Forall (fun el => layer_ok (boxLayer el) (fresh w)) (overlays w).

(** The nodes an update selection holds, and the elements and the merged
    selection [enter().append(tag).merge(...)] ends with. *)
Definition updated (sl : list (detection * option nat)) : list nat :=
  omap snd sl.

Fixpoint entered (tag : string) (sl : list (detection * option nat))
    (fresh : nat) : list node :=
  match sl with
  | [] => []
  | (_, Some _) :: rest => entered tag rest fresh
  | (d, None) :: rest => new_node fresh tag d :: entered tag rest (S fresh)
  end.

Fixpoint selected (sl : list (detection * option nat)) (fresh : nat)
  : list nat :=
  match sl with
  | [] => []
  | (_, Some n) :: rest => n :: selected rest fresh
  | (_, None) :: rest => fresh :: selected rest (S fresh)
  end.

(** The box and label primitives of the surface [svg] names. *)
Definition primitives (w : world) : list node :=
  match svg w ≫= (fun h => overlays w !! h) with
  | Some el => boxLayer el
  | None => []
  end.

(** The drawn attributes as the specification words them: the position and
    extent of a record under a transform, before any clamping. *)
Definition spec_x (nativeWidth : num) (T : fit) (d : detection) : num :=
  (xOffset T + (bbox_at d 0 / nativeWidth) * actualWidth T)%js.

Definition spec_y (nativeHeight : num) (T : fit) (d : detection) : num :=
  (yOffset T + (bbox_at d 1 / nativeHeight) * actualHeight T)%js.

Definition spec_width (nativeWidth : num) (T : fit) (d : detection) : num :=
  (((bbox_at d 2 - bbox_at d 0) / nativeWidth) * actualWidth T)%js.

Definition spec_height (nativeHeight : num) (T : fit) (d : detection) : num :=
  (((bbox_at d 3 - bbox_at d 1) / nativeHeight) * actualHeight T)%js.

(** A non-finite value becomes 0; an extent that is not above 0 too. *)
Definition finite_or_0 (x : num) : num := if isFinite x then x else lit_0.

Definition extent_or_0 (x : num) : num :=
  if isFinite x && (x > lit_0)%js then x else lit_0.

(** The drawn attributes as the specification's step 6 alone gives them:
    every box carries the unclamped position and extent of its record. *)
Definition drawn_unclamped (frameNumber : num) (w : world) (v : video)
  : Prop :=
  let T := fit_video (videoWidth v) (videoHeight v) (video_rect v) in
  forall n, n ∈ primitives (fst (updateBoundingBoxes frameNumber w)) ->
    tagName n = "rect" ->
    attrs n !! "x" = Some (ANum (spec_x (videoWidth v) T (datum n))) /\
    attrs n !! "y" = Some (ANum (spec_y (videoHeight v) T (datum n))) /\
    attrs n !! "width" = Some (ANum (spec_width (videoWidth v) T (datum n))) /\
    attrs n !! "height"
      = Some (ANum (spec_height (videoHeight v) T (datum n))).

(** [x <= y] from the comparisons of the interface, and the aspect-fit
    property as the specification states it: the fitted picture is no wider
    and no taller than the display rectangle, and fills one of the two
    dimensions. *)
Definition js_le (x y : num) : bool := (y > x)%js || (x === y)%js.

Definition aspect_fit (nativeWidth nativeHeight : num) (displayRect : DOMRect)
  : Prop :=
  let T := fit_video nativeWidth nativeHeight displayRect in
  js_le (actualWidth T) (width displayRect) = true /\
  js_le (actualHeight T) (height displayRect) = true /\
  ((actualWidth T === width displayRect)%js = true \/
   (actualHeight T === height displayRect)%js = true).

(** The merged selection as pairs of a node and the datum bound to it. *)
Fixpoint bound_pairs (sl : list (detection * option nat)) (fresh : nat)
  : list (nat * detection) :=
  match sl with
  | [] => []
  | (d, Some n) :: rest => (n, d) :: bound_pairs rest fresh
  | (d, None) :: rest => (fresh, d) :: bound_pairs rest (S fresh)
  end.

(** No node is the value of two keys of [nodeByKeyValue]. *)
Definition injective (M : gmap string nat) : Prop :=
  forall k k' v, M !! k = Some v -> M !! k' = Some v -> k = k'.

(** A live overlay surface with records loaded, attached to a container
    that holds a video. *)
Record shown (w : world) (h c : nat) (el : overlay) (v : video) : Prop := {
  live : svg w = Some h;
  loaded : boundingBoxData w <> [];
  surface : overlays w !! h = Some el;
  attached : parentNode el = Some c;
  has_video : containers w !! c ≫= content_video = Some v
}.

(** Valid geometry: none of the four dimensions fails the [!x] check. *)
Record valid_geometry (v : video) : Prop := {
  native_width : ToBoolean (videoWidth v) = true;
  native_height : ToBoolean (videoHeight v) = true;
  display_width : ToBoolean (width (video_rect v)) = true;
  display_height : ToBoolean (height (video_rect v)) = true
}.

(** Positive native dimensions and a positive display rectangle. *)
Record positive_geometry (v : video) : Prop := {
  positive_native_width : (videoWidth v > lit_0)%js = true;
  positive_native_height : (videoHeight v > lit_0)%js = true;
  positive_display_width : (width (video_rect v) > lit_0)%js = true;
  positive_display_height : (height (video_rect v) > lit_0)%js = true
}.

Definition drawable (w : world) (h c : nat) (el : overlay) (v : video)
  : Prop :=
  shown w h c el v /\ valid_geometry v.

(** ** The listeners and the events of the page *)

(** The [dataFileChanged] listener: [const { dataFile } = event.detail],
    then the load.  [detail] is [None] for an event whose detail is [null];
    a detail without a [dataFile] property hands [undefined] to [fetch],
    which requests the URL [undefined]. *)
Definition onDataFileChanged (fetch : string -> fetched)
    (detail : option (option string)) (w : world) : world * completion :=
  match detail with
  | None => (w, Threw (TypeError "event.detail"))
  | Some dataFile => loadBoundingBoxData fetch (default "undefined" dataFile) w
  end.

(** The callback of a [ResizeObserver], given what [getBoundingClientRect]
    returns for the video element and the container the callback closes
    over: it moves the overlay the module variable [svg] names at that
    moment and redraws the current frame. *)
Definition resizeObserved (newVideoRect containerRect : DOMRect) (w : world)
  : world * completion :=
  match svg w with
  | None => (w, Threw (TypeError "svg.style"))
  | Some h =>
      updateBoundingBoxes (currentFrame w)
        (set_overlays
           (alter (set_placed (cover newVideoRect containerRect)) h (overlays w))
           w)
  end.

(** What can happen to the module once it is loaded: a call of one of its
    two exports, one of its listeners or observers firing, or the page
    changing under it: its containers and their videos replaced, or an
    overlay element taken out of the document. *)
Inductive event : Type :=
| Initialize (videoContainer : nat)
| DataFileChanged (fetch : string -> fetched) (detail : option (option string))
| Update (frameNumber : num)
| WindowResized
| VideoResized (videoContainer : nat) (newVideoRect containerRect : DOMRect)
| PageChanged (page : gmap nat container)
| OverlayRemoved (h : nat).

(** An observer fires only if [initializeBoundingBoxes] has made one for
    that container's video. *)
Definition step (e : event) (w : world) : world * completion :=
  match e with
  | Initialize videoContainer => initializeBoundingBoxes videoContainer w
  | DataFileChanged fetch detail => onDataFileChanged fetch detail w
  | Update frameNumber => updateBoundingBoxes frameNumber w
  | WindowResized => handleResize w
  | VideoResized videoContainer newVideoRect containerRect =>
      if bool_decide (videoContainer ∈ observed w)
      then resizeObserved newVideoRect containerRect w
      else (w, Returned)
  | PageChanged page => (set_containers page w, Returned)
  | OverlayRemoved h => (set_overlays (alter detach h (overlays w)) w, Returned)
  end.

(** The state after a sequence of events; an exception ends the event that
    raised it and leaves what it had written. *)
Definition run (es : list event) (w : world) : world :=
  foldl (fun w e => fst (step e w)) w es.

(** The overlays attached to a container. *)
Definition attached_to (c : nat) (els : list overlay) : list overlay :=
  filter (fun el => parentNode el = Some c) els.

(** A box as [draw_rect] leaves it, a label as [draw_label] leaves it. *)
Definition painted (n : node) : Prop :=
  (tagName n = "rect" /\
   exists videoWidth videoHeight g n0, n = draw_rect videoWidth videoHeight g n0) \/
  (tagName n = "text" /\
   exists videoWidth videoHeight g n0, n = draw_label videoWidth videoHeight g n0).

(** What every state the module reaches satisfies. *)
Record consistent (w : world) : Prop := {
  nodes_distinct : world_ok w;
  surface_last : forall h, svg w = Some h -> S h = length (overlays w);
  surface_first : svg w = None -> overlays w = [];
  observer_each : length (observed w) = length (overlays w);
  attached_once : NoDup (omap parentNode (overlays w));
  legends_made : Forall (fun el => legend el = make_legend) (overlays w);
  layers_painted : Forall (Forall painted) (boxLayer <$> overlays w)
}.

(** The overlay [svg] names is attached to some container. *)
Definition surface_attached (w : world) : Prop :=
  exists h el c,
    svg w = Some h /\ overlays w !! h = Some el /\ parentNode el = Some c.

(** The events that neither initialize, nor carry a [null] detail, nor
    take an overlay out of the document. *)
Definition plain (e : event) : Prop :=
  match e with
  | Initialize _ => False
  | DataFileChanged _ None => False
  | OverlayRemoved _ => False
  | _ => True
  end.

(** The events that neither ask for a frame nor load a file. *)
Definition keeps_frame (e : event) : Prop :=
  match e with
  | Update _ => False
  | DataFileChanged _ (Some _) => False
  | _ => True
  end.

(** The layer [svg] names shows frame [f] of [data] in the picture of the
    video [v]: its boxes carry the records of the frame, one each, and so
    do its labels; every box has the position and extent of its record and
    every label the position of its record. *)
Definition shows_frame (f : num) (data : list detection) (v : video)
    (w : world) : Prop :=
  let T := fit_video (videoWidth v) (videoHeight v) (video_rect v) in
  Permutation (datum <$> selectAll "rect" (primitives w)) (frameData f data) /\
  Permutation (datum <$> selectAll "text" (primitives w)) (frameData f data) /\
  (forall n, n ∈ primitives w -> tagName n = "rect" ->
     attrs n !! "x"
     = Some (ANum (finite_or_0 (spec_x (videoWidth v) T (datum n)))) /\
     attrs n !! "y"
     = Some (ANum (finite_or_0 (spec_y (videoHeight v) T (datum n)))) /\
     attrs n !! "width"
     = Some (ANum (extent_or_0 (spec_width (videoWidth v) T (datum n)))) /\
     attrs n !! "height"
     = Some (ANum (extent_or_0 (spec_height (videoHeight v) T (datum n))))) /\
  (forall n, n ∈ primitives w -> tagName n = "text" ->
     attrs n !! "x"
     = Some (ANum (finite_or_0 (spec_x (videoWidth v) T (datum n)))) /\
     attrs n !! "y"
     = Some (ANum (finite_or_0
                     (spec_y (videoHeight v) T (datum n) - lit_5)%js))).

(** The elements the first redraw of a frame creates in an empty layer:
    one per record in the order of the data, numbered from [fresh]. *)
Definition created (tag : string) (draw : node -> node)
    (frameData : list detection) (fresh : nat) : list node :=
  imap (fun i d => draw (new_node (fresh + i) tag d)) frameData.

(** An attribute that holds a finite number. *)
Definition finite_attr (name : string) (n : node) : Prop :=
  exists x, attrs n !! name = Some (ANum x) /\ isFinite x = true.

(** A box with its [class] attribute and a finite position and extent, or
    a label with its [class] attribute and a finite position. *)
Definition finite_geometry (n : node) : Prop :=
  (tagName n = "rect" /\
   attrs n !! "class" = Some (AStr "bounding-box") /\
   finite_attr "x" n /\ finite_attr "y" n /\
   finite_attr "width" n /\ finite_attr "height" n) \/
  (tagName n = "text" /\
   attrs n !! "class" = Some (AStr "bounding-box-label") /\
   finite_attr "x" n /\ finite_attr "y" n).

(** A box or a label drawn again where it is, under a transform. *)
Definition repaint (videoWidth videoHeight : num) (g : fit) (n : node) : node :=
  if decide (tagName n = "rect") then draw_rect videoWidth videoHeight g n
  else if decide (tagName n = "text") then draw_label videoWidth videoHeight g n
  else n.

(** ** Records without a bbox *)

(** A record as [response.json()] yields it.  The data model gives every
    record a [bbox] array, and [detection] is such a record; a data file
    can also hold a record whose [bbox] is [undefined] or [null], and on
    such a record [d.bbox[0]] throws a TypeError.  An entry of the parsed
    array is a record ([Some]) or [null] ([None]). *)
Inductive parsed : Type :=
| Boxed (d : detection)
| Unboxed (frameNumber : num) (i : ident) (className : string) (p : num).

(** What everything but the bbox callbacks reads of a record. *)
Definition fields (r : parsed) : detection :=
  match r with
  | Boxed d => d
  | Unboxed frameNumber i className p =>
      {| frame := frameNumber; id := i; class := className; confidence := p;
         bbox := [] |}
  end.

Definition has_bbox (r : parsed) : bool :=
  match r with
  | Boxed _ => true
  | Unboxed _ _ _ _ => false
  end.

(** The position of the first record without a bbox. *)
Fixpoint first_unboxed (rs : list parsed) : option nat :=
  match rs with
  | [] => None
  | r :: rest => if has_bbox r then S <$> first_unboxed rest else Some 0
  end.

(** The part of [keyed_update] before the chain: the children after
    [exit().remove()] and [enter().append(tag)], and the merged selection,
    which holds its nodes in the order of the data. *)
Definition join (tag : string) (frameData : list detection)
    (kids : list node) (fresh : nat)
  : list (option nat) * list node * nat :=
  let bound := bindKey (selectAll tag kids) frameData in
  let kids := rebind (slots bound) <$> kids in
  let kids := remove (exit bound) kids in
  let '(made, kids, fresh) := enter_append tag (slots bound) kids fresh in
  (merge made (snd <$> slots bound), kids, fresh).

Definition frameParsed (frameNumber : num) (data : list parsed)
  : list parsed :=
  List.filter (fun r => (frame (fields r) === frameNumber)%js) data.

(** The records of an array, if none of its entries is [null]. *)
Fixpoint all_records (data : list (option parsed)) : option (list parsed) :=
  match data with
  | [] => Some []
  | None :: _ => None
  | Some r :: rest => cons r <$> all_records rest
  end.

(** [updateBoundingBoxes] with [boundingBoxData] holding the array [data],
    [null] entries and records without a bbox included.  The callback of
    [filter] reads [d.frame] of every entry and throws on a [null] one.
    Nothing but the attribute callbacks reads a bbox.  [.attr('x', ...)]
    calls its callback on the nodes of the merged selection in the order
    of the data and sets the attribute of each before it goes on to the
    next; on the first record without a bbox the callback throws, which
    ends the chain and the function: the boxes of the records before it
    have their new [x] and nothing else, the labels are not reached. *)
Definition updateBoundingBoxes_parsed (data : list (option parsed))
    (frameNumber : num) (w : world) : world * completion :=
  match svg w with
  | None => (w, Returned)
  | Some h =>
      if Nat.eqb (length data) 0 then (w, Returned) else
      let w := set_currentFrame frameNumber w in
      match all_records data with
      | None => (w, Threw (TypeError "d.frame"))
      | Some records =>
      let frameData := frameParsed frameNumber records in
      match overlays w !! h with
      | None => (w, Threw (TypeError "svg.node"))
      | Some el =>
          match parentNode el with
          | None => (w, Threw (TypeError "parentNode.querySelector"))
          | Some c =>
              match containers w !! c ≫= content_video with
              | None => (w, Returned)
              | Some videoElement =>
                  let videoRect := video_rect videoElement in
                  let videoWidth := videoWidth videoElement in
                  let videoHeight := videoHeight videoElement in
                  if negb (ToBoolean videoWidth) || negb (ToBoolean videoHeight)
                     || negb (ToBoolean (width videoRect))
                     || negb (ToBoolean (height videoRect))
                  then (w, Returned) else
                  let g := fit_video videoWidth videoHeight videoRect in
                  match first_unboxed frameData with
                  | None =>
                      let '(kids, fresh') :=
                        redraw_layer videoWidth videoHeight g
                          (fields <$> frameData) (boxLayer el) (fresh w) in
                      (set_fresh fresh'
                         (set_overlays
                            (<[h := set_boxLayer kids el]> (overlays w)) w),
                       Returned)
                  | Some i =>
                      let '(sel, kids, fresh') :=
                        join "rect" (fields <$> frameData) (boxLayer el)
                          (fresh w) in
                      let kids :=
                        each (attr "x" (fun d => ANum (rect_x videoWidth g d)))
                          (take i sel) kids in
                      (set_fresh fresh'
                         (set_overlays
                            (<[h := set_boxLayer kids el]> (overlays w)) w),
                       Threw (TypeError "d.bbox"))
                  end
              end
          end
      end
      end
  end.

End Overlay.

Arguments detection : clear implicits.
Arguments aval : clear implicits.
Arguments label_text : clear implicits.
Arguments node : clear implicits.
Arguments joined : clear implicits.
Arguments DOMRect : clear implicits.
Arguments video : clear implicits.
Arguments container : clear implicits.
Arguments overlay : clear implicits.
Arguments world : clear implicits.
Arguments fetched : clear implicits.
Arguments fit : clear implicits.
Arguments event : clear implicits.
Arguments parsed : clear implicits.

(** ** The value of a binary64 number *)



(** ** Laws of the arithmetic *)

(** The two facts about numbers the drawing code relies on: 0 is finite,
    and a number above 0 is truthy (so passes the [!x] checks). *)
Class JSNumberLaws (num : Type) {JSN : JSNumber num} : Prop := {
  isFinite_0 : isFinite lit_0 = true;
  positive_truthy : forall x : num, (x > lit_0)%js = true -> ToBoolean x = true
}.

(** ** Two pages *)

(** A page in IEEE-754 arithmetic: a 1920x1080 video rendered in an 800x600
    box of a 1000x700 container, a data file of four records, and the
    states the examples start from. *)
Module Scenario.

Local Open Scope float_scope.

Definition classColors : list (string * string) :=
  [("car", "#ff0000"); ("truck", "#00ff00")].

Definition videoElement : video float :=
  {| videoWidth := 1920; videoHeight := 1080;
     video_rect := {| rect_top := 50; rect_left := 100;
                      width := 800; height := 600 |} |}.

Definition videoContainer : container float :=
  {| container_rect := {| rect_top := 0; rect_left := 0;
                          width := 1000; height := 700 |};
     content_video := Some videoElement |}.

Definition page : gmap nat (container float) := {[ 0%nat := videoContainer ]}.

Definition record (f : float) (i : Z) (c : string) (conf : float)
    (box : list float) : detection float :=
  {| frame := f; id := IdNum i; class := c; confidence := conf; bbox := box |}.

(** Frame 3 holds a well-formed record (confidence 0.9) and one whose x_max
    is left of its x_min; frame 4 holds the id 2 again, and a record of an
    unknown class with two bbox components missing. *)
Definition car : detection float :=
  record 3 1 "car" 0x1.ccccccccccccdp-1 [100; 100; 300; 200].

Definition inverted : detection float :=
  record 3 2 "truck" 0.5 [300; 100; 100; 200].

Definition data : list (detection float) :=
  [car; inverted;
   record 4 2 "truck" 0.5 [10; 10; 20; 20];
   record 4 3 "bus" 0 [1; 2]].

Definition fetch (dataFile : string) : fetched float :=
  if String.eqb dataFile "detections.json" then Parsed data
  else FetchRejected (FetchError "404").

(** The module initialized on the container, then the data file loaded. *)
Definition loaded : world float :=
  fst (loadBoundingBoxData fetch "detections.json"
         (fst (initializeBoundingBoxes classColors 0%nat (initial page)))).

(** The overlay element [loaded] holds. *)
Definition surface0 : overlay float :=
  {| parentNode := Some 0%nat;
     placed := {| rect_top := 50; rect_left := 100;
                  width := 800; height := 600 |};
     boxLayer := [];
     legend := make_legend classColors |}.

(** The display rectangle of a 1000x700 box. *)
Definition wide : DOMRect float :=
  {| rect_top := 0; rect_left := 0; width := 1000; height := 700 |}.

(** [loaded], once the video element has left its container. *)
Definition emptied : world float :=
  set_containers
    {[ 0%nat := {| container_rect := container_rect videoContainer;
                   content_video := None |} ]} loaded.

(** [loaded], with the video hidden: a rendered box of 0x0. *)
Definition hidden_video : video float :=
  {| videoWidth := 1920; videoHeight := 1080;
     video_rect := {| rect_top := 0; rect_left := 0;
                      width := 0; height := 0 |} |}.

Definition hidden : world float :=
  set_containers
    {[ 0%nat := {| container_rect := container_rect videoContainer;
                   content_video := Some hidden_video |} ]} loaded.

(** The events behind [loaded], followed by a redraw of frame 3, and the
    state they lead to. *)
Definition session : list (event float) :=
  [Initialize 0%nat;
   DataFileChanged fetch (Some (Some "detections.json"));
   Update 3].

Definition drawn : world float := run classColors session (initial page).

(** The overlay of [drawn]. *)
Definition drawn_surface : overlay float :=
  default surface0 (overlays drawn !! 0%nat).

(** The same events, after which the video leaves the container and the
    module is initialized again. *)
Definition failing : list (event float) :=
  session ++ [PageChanged (containers emptied); Initialize 0%nat].

(** A page with a second container and its 1280x720 video, and the state
    after both containers were initialized, the second one last. *)
Definition second : container float :=
  {| container_rect := {| rect_top := 0; rect_left := 1000;
                          width := 1000; height := 700 |};
     content_video :=
       Some {| videoWidth := 1280; videoHeight := 720;
               video_rect := {| rect_top := 20; rect_left := 1020;
                                width := 640; height := 360 |} |} |}.

Definition two_videos : gmap nat (container float) :=
  {[ 0%nat := videoContainer; 1%nat := second ]}.

Definition both : world float :=
  run classColors [Initialize 0%nat; Initialize 1%nat] (initial two_videos).

Definition second_surface : overlay float :=
  default surface0 (overlays both !! 1%nat).

(** The page after the video was resized to 400x300. *)
Definition smaller_video : video float :=
  {| videoWidth := 1920; videoHeight := 1080;
     video_rect := {| rect_top := 50; rect_left := 100;
                      width := 400; height := 300 |} |}.

Definition smaller : gmap nat (container float) :=
  {[ 0%nat := {| container_rect := container_rect videoContainer;
                 content_video := Some smaller_video |} ]}.




(** A data file with a record of frame 0, loaded before any
    initialization. *)
Definition parked : detection float :=
  record 0 7 "car" 0.5 [0; 0; 192; 108].

Definition uninitialized : world float :=
  fst (loadBoundingBoxData (fun _ => Parsed [parked; car]) "detections.json"
         (initial page)).

End Scenario.

(** The same page in exact arithmetic, with one record of confidence 9/10. *)
Module ExactScenario.

Definition px (n : Z) : Exact.xnum := Exact.of_Q (inject_Z n).

Definition videoElement : video Exact.xnum :=
  {| videoWidth := px 1920; videoHeight := px 1080;
     video_rect := {| rect_top := px 50; rect_left := px 100;
                      width := px 800; height := px 600 |} |}.

Definition videoContainer : container Exact.xnum :=
  {| container_rect := {| rect_top := px 0; rect_left := px 0;
                          width := px 1000; height := px 700 |};
     content_video := Some videoElement |}.

Definition page : gmap nat (container Exact.xnum) :=
  {[ 0%nat := videoContainer ]}.

Definition car : detection Exact.xnum :=
  {| frame := px 3; id := IdNum 1; class := "car";
     confidence := Exact.of_Q (9 # 10);
     bbox := [px 100; px 100; px 300; px 200] |}.

Definition loaded : world Exact.xnum :=
  fst (loadBoundingBoxData (fun _ => Parsed [car]) "detections.json"
         (fst (initializeBoundingBoxes Scenario.classColors 0 (initial page)))).

Definition surface0 : overlay Exact.xnum :=
  {| parentNode := Some 0%nat;
     placed := cover (video_rect videoElement) (container_rect videoContainer);
     boxLayer := [];
     legend := make_legend Scenario.classColors |}.

End ExactScenario.

(** Linear arithmetic on canonical rationals, through [Q]. *)
Ltac qc_lra :=
  unfold Qcle, Qclt in *; unfold Qcplus, Qcmult, Q2Qc in *; cbn [this] in *;
  rewrite ?Qred_correct in *; lra.

(** * Properties *)

(** ** The two arithmetics satisfy the laws *)

Lemma binary64_positive (x : float) :
  PrimFloat.ltb 0 x = true ->
  PrimFloat.eqb x 0 = false /\ PrimFloat.eqb x x = true.
Proof.
  rewrite FloatAxioms.ltb_spec, !FloatAxioms.eqb_spec. unfold SFltb, SFeqb.
  change (Prim2SF 0) with (S754_zero false).
  destruct (Prim2SF x) as [s | s | | s m e]; simpl; try discriminate.
  - destruct s; [discriminate | auto].
  - destruct s; [discriminate |]. intros _. split; [reflexivity |].
    rewrite Z.compare_refl, Pos.compare_cont_refl. reflexivity.
Qed.

#[global] Instance binary64_laws : JSNumberLaws float.
Proof.
  split.
  - reflexivity.
  - intros x Hx. change (PrimFloat.ltb 0 x = true) in Hx.
    apply binary64_positive in Hx as [Hz Hn].
    change (negb (PrimFloat.eqb x 0 || negb (PrimFloat.eqb x x)) = true).
    rewrite Hz, Hn. reflexivity.
Qed.

Lemma exact_positive (q : Qc) : (0 ?= q)%Qc = Lt -> Exact.is_0 q = false.
Proof.
  intros H. unfold Exact.is_0.
  destruct (q ?= 0)%Qc eqn:E; try reflexivity.
  apply Qceq_alt in E. subst q. discriminate H.
Qed.

#[global] Instance exact_laws : JSNumberLaws Exact.xnum.
Proof.
  split.
  - reflexivity.
  - intros [q | s |]; cbn; try discriminate.
    + destruct (0 ?= q)%Qc eqn:E; try discriminate.
      intros _. now rewrite (exact_positive q E).
    + intros _. reflexivity.
Qed.

(** ** The keyed join *)

Section OverlayFacts.

Context {num : Type} {JSN : JSNumber num}.
Variable classColors : list (string * string).

Local Abbreviation detection := (detection num).
Local Abbreviation node := (node num).
Local Abbreviation world := (world num).

Lemma nid_inj (l : list node) (a b : node) :
  NoDup (nid <$> l) -> a ∈ l -> b ∈ l -> nid a = nid b -> a = b.
Proof.
  induction l as [| x l IH]; intros Hnd Ha Hb Hab.
  - inversion Ha.
  - rewrite fmap_cons in Hnd. apply NoDup_cons in Hnd as [Hx Hnd].
    apply elem_of_cons in Ha as [-> | Ha]; apply elem_of_cons in Hb as [-> | Hb];
      auto.
    + exfalso. apply Hx. rewrite Hab. now apply list_elem_of_fmap_2.
    + exfalso. apply Hx. rewrite <- Hab. now apply list_elem_of_fmap_2.
Qed.

(** The first loop of [bindKey]. *)
Lemma index_nodes_sub (G : list node) (m0 M : gmap string nat) dup :
  index_nodes G m0 = (M, dup) ->
  forall k v, m0 !! k = Some v -> M !! k = Some v.
Proof.
  revert m0 M dup. induction G as [| n G IH]; intros m0 M dup E k v Hk; simpl in E.
  - now inversion E; subst.
  - destruct (m0 !! key (datum n)) eqn:Hn.
    + destruct (index_nodes G m0) as [M' dup'] eqn:E'. inversion E; subst.
      eapply IH; eauto.
    + eapply IH; eauto. rewrite lookup_insert_ne; auto.
      intros <-. congruence.
Qed.

Lemma index_nodes_values (G : list node) (m0 M : gmap string nat) dup :
  index_nodes G m0 = (M, dup) ->
  forall k v, M !! k = Some v ->
    m0 !! k = Some v \/ exists n, n ∈ G /\ nid n = v /\ key (datum n) = k.
Proof.
  revert m0 M dup. induction G as [| n G IH]; intros m0 M dup E k v Hk; simpl in E.
  - inversion E; subst. now left.
  - destruct (m0 !! key (datum n)) eqn:Hn.
    + destruct (index_nodes G m0) as [M' dup'] eqn:E'. inversion E; subst.
      destruct (IH _ _ _ E' _ _ Hk) as [? | (x & ? & ? & ?)]; auto.
      right. exists x. split; auto. now apply elem_of_cons; right.
    + destruct (IH _ _ _ E _ _ Hk) as [H0 | (x & ? & ? & ?)].
      * destruct (decide (key (datum n) = k)) as [<- | Hne].
        -- rewrite lookup_insert_eq in H0. inversion H0; subst.
           right. exists n. split; auto. apply elem_of_cons; now left.
        -- rewrite lookup_insert_ne in H0; auto.
      * right. exists x. split; auto. now apply elem_of_cons; right.
Qed.

Lemma index_nodes_cover (G : list node) (m0 M : gmap string nat) dup :
  index_nodes G m0 = (M, dup) ->
  forall n, n ∈ G -> M !! key (datum n) = Some (nid n) \/ nid n ∈ dup.
Proof.
  revert m0 M dup. induction G as [| x G IH]; intros m0 M dup E n Hn; simpl in E.
  - inversion Hn.
  - destruct (m0 !! key (datum x)) eqn:Hx.
    + destruct (index_nodes G m0) as [M' dup'] eqn:E'. inversion E; subst.
      apply elem_of_cons in Hn as [-> | Hn].
      * right. apply elem_of_cons; now left.
      * destruct (IH _ _ _ E' _ Hn); auto. right. apply elem_of_cons; now right.
    + apply elem_of_cons in Hn as [-> | Hn].
      * left. eapply index_nodes_sub; eauto. apply lookup_insert_eq.
      * eapply IH; eauto.
Qed.

Lemma index_nodes_dup (G : list node) (m0 M : gmap string nat) dup :
  index_nodes G m0 = (M, dup) ->
  NoDup (nid <$> G) ->
  (forall k v, m0 !! k = Some v -> v ∉ nid <$> G) ->
  forall v, v ∈ dup -> v ∈ nid <$> G /\ forall k, M !! k <> Some v.
Proof.
  revert m0 M dup. induction G as [| x G IH]; intros m0 M dup E Hnd Hm0 v Hv;
    simpl in E.
  - inversion E; subst. inversion Hv.
  - rewrite fmap_cons in Hnd. apply NoDup_cons in Hnd as [Hx Hnd].
    destruct (m0 !! key (datum x)) eqn:Ex.
    + destruct (index_nodes G m0) as [M' dup'] eqn:E'. inversion E; subst.
      assert (Hm0' : forall k v, m0 !! k = Some v -> v ∉ nid <$> G).
      { intros k u Hk Hin. apply (Hm0 k u Hk). rewrite fmap_cons.
        apply elem_of_cons; now right. }
      apply elem_of_cons in Hv as [-> | Hv].
      * split. { rewrite fmap_cons. apply elem_of_cons; now left. }
        intros k Hk.
        destruct (index_nodes_values _ _ _ _ E' _ _ Hk) as [H0 | (y & Hy & Hny & _)].
        -- apply (Hm0 _ _ H0). rewrite fmap_cons. apply elem_of_cons; now left.
        -- apply Hx. rewrite <- Hny. now apply list_elem_of_fmap_2.
      * destruct (IH _ _ _ E' Hnd Hm0' _ Hv) as [Hin Hno]. split; auto.
        rewrite fmap_cons. apply elem_of_cons; now right.
    + assert (Hm0' : forall k v, <[key (datum x) := nid x]> m0 !! k = Some v ->
                                 v ∉ nid <$> G).
      { intros k u Hk Hin.
        destruct (decide (key (datum x) = k)) as [<- | Hne].
        - rewrite lookup_insert_eq in Hk. inversion Hk; subst. now apply Hx.
        - rewrite lookup_insert_ne in Hk; auto. apply (Hm0 k u Hk).
          rewrite fmap_cons. apply elem_of_cons; now right. }
      destruct (IH _ _ _ E Hnd Hm0' _ Hv) as [Hin Hno]. split; auto.
      rewrite fmap_cons. apply elem_of_cons; now right.
Qed.

Lemma index_nodes_nodup_keys (G : list node) (m0 M : gmap string nat) dup :
  index_nodes G m0 = (M, dup) ->
  NoDup ((fun n => key (datum n)) <$> G) ->
  (forall n, n ∈ G -> m0 !! key (datum n) = None) ->
  dup = [].
Proof.
  revert m0 M dup. induction G as [| x G IH]; intros m0 M dup E Hnd Hm0;
    simpl in E.
  - now inversion E.
  - rewrite fmap_cons in Hnd. apply NoDup_cons in Hnd as [Hx Hnd].
    rewrite (Hm0 x) in E by (apply elem_of_cons; now left).
    eapply IH; eauto. intros n Hn.
    rewrite lookup_insert_ne. { apply Hm0. apply elem_of_cons; now right. }
    intros Heq. apply Hx. rewrite Heq.
    now apply (list_elem_of_fmap_2 (fun n => key (datum n))).
Qed.

(** The second loop of [bindKey]. *)
Lemma bind_data_fst (D : list detection) (M M' : gmap string nat) sl :
  bind_data D M = (sl, M') -> fst <$> sl = D.
Proof.
  revert M M' sl. induction D as [| d D IH]; intros M M' sl E; simpl in E.
  - now inversion E.
  - destruct (M !! key d) eqn:Hd.
    + destruct (bind_data D (delete (key d) M)) as [sl' M''] eqn:E'.
      inversion E; subst. simpl. f_equal. eauto.
    + destruct (bind_data D M) as [sl' M''] eqn:E'.
      inversion E; subst. simpl. f_equal. eauto.
Qed.

Lemma bind_data_rest (D : list detection) (M M' : gmap string nat) sl :
  bind_data D M = (sl, M') ->
  forall k, M' !! k = if decide (k ∈ key <$> D) then None else M !! k.
Proof.
  revert M M' sl. induction D as [| d D IH]; intros M M' sl E k; simpl in E.
  - inversion E; subst. rewrite decide_False; auto. apply not_elem_of_nil.
  - rewrite fmap_cons.
    destruct (M !! key d) eqn:Hd.
    + destruct (bind_data D (delete (key d) M)) as [sl' M''] eqn:E'.
      inversion E; subst. rewrite (IH _ _ _ E' k).
      destruct (decide (k = key d)) as [-> | Hne].
      * rewrite (decide_True (P := key d ∈ key d :: _)) by (apply elem_of_cons; now left).
        destruct (decide _); auto. apply lookup_delete_eq.
      * rewrite lookup_delete_ne by auto.
        destruct (decide (k ∈ key <$> D)) as [Hin | Hout].
        -- rewrite decide_True; auto. apply elem_of_cons; now right.
        -- rewrite decide_False; auto. intros [? | ?]%elem_of_cons; auto.
    + destruct (bind_data D M) as [sl' M''] eqn:E'.
      inversion E; subst. rewrite (IH _ _ _ E' k).
      destruct (decide (k ∈ key <$> D)) as [Hin | Hout].
      * rewrite decide_True; auto. apply elem_of_cons; now right.
      * destruct (decide (k = key d)) as [-> | Hne].
        -- rewrite decide_True by (apply elem_of_cons; now left). auto.
        -- rewrite decide_False; auto. intros [? | ?]%elem_of_cons; auto.
Qed.

Lemma bind_data_update (D : list detection) (M M' : gmap string nat) sl :
  bind_data D M = (sl, M') ->
  forall d n, (d, Some n) ∈ sl -> M !! key d = Some n.
Proof.
  revert M M' sl. induction D as [| d D IH]; intros M M' sl E d' n Hin;
    simpl in E.
  - inversion E; subst. inversion Hin.
  - destruct (M !! key d) eqn:Hd.
    + destruct (bind_data D (delete (key d) M)) as [sl' M''] eqn:E'.
      inversion E; subst. apply elem_of_cons in Hin as [Heq | Hin].
      * now inversion Heq; subst.
      * specialize (IH _ _ _ E' _ _ Hin).
        apply lookup_delete_Some in IH as [_ ?]. assumption.
    + destruct (bind_data D M) as [sl' M''] eqn:E'.
      inversion E; subst. apply elem_of_cons in Hin as [Heq | Hin].
      * inversion Heq.
      * eauto.
Qed.

Lemma bind_data_hit (D : list detection) (M M' : gmap string nat) sl :
  bind_data D M = (sl, M') ->
  forall k n, M !! k = Some n -> k ∈ key <$> D ->
    exists d, (d, Some n) ∈ sl /\ key d = k /\ d ∈ D.
Proof.
  revert M M' sl. induction D as [| d D IH]; intros M M' sl E k n Hk Hin;
    simpl in E.
  - inversion Hin.
  - rewrite fmap_cons in Hin.
    destruct (decide (key d = k)) as [<- | Hne].
    + rewrite Hk in E.
      destruct (bind_data D (delete (key d) M)) as [sl' M''] eqn:E'.
      inversion E; subst. exists d. repeat split; try (apply elem_of_cons; now left).
    + apply elem_of_cons in Hin as [? | Hin]; [congruence |].
      destruct (M !! key d) eqn:Hd.
      * destruct (bind_data D (delete (key d) M)) as [sl' M''] eqn:E'.
        inversion E; subst.
        destruct (IH _ _ _ E' k n) as (d' & ? & ? & ?); auto.
        { rewrite lookup_delete_ne; auto. }
        exists d'. repeat split; auto; apply elem_of_cons; now right.
      * destruct (bind_data D M) as [sl' M''] eqn:E'.
        inversion E; subst.
        destruct (IH _ _ _ E' k n) as (d' & ? & ? & ?); auto.
        exists d'. repeat split; auto; apply elem_of_cons; now right.
Qed.

Lemma elem_of_updated (sl : list (detection * option nat)) (n : nat) :
  n ∈ updated sl <-> exists d, (d, Some n) ∈ sl.
Proof.
  unfold updated. rewrite list_elem_of_omap. split.
  - intros ([d o] & Hin & Ho). simpl in Ho. subst o. eauto.
  - intros (d & Hin). exists (d, Some n). auto.
Qed.

Lemma bind_data_NoDup (D : list detection) (M M' : gmap string nat) sl :
  bind_data D M = (sl, M') -> injective M -> NoDup (updated sl).
Proof.
  revert M M' sl. induction D as [| d D IH]; intros M M' sl E Hinj; simpl in E.
  - inversion E; subst. constructor.
  - destruct (M !! key d) eqn:Hd.
    + destruct (bind_data D (delete (key d) M)) as [sl' M''] eqn:E'.
      inversion E; subst. unfold updated. simpl. apply NoDup_cons. split.
      * intros (d' & Hin)%elem_of_updated.
        pose proof (bind_data_update _ _ _ _ E' _ _ Hin) as Hl.
        apply lookup_delete_Some in Hl as [Hne Hl]. apply Hne.
        eapply Hinj; eauto.
      * eapply IH; eauto. intros k k' v [_ Hk]%lookup_delete_Some
          [_ Hk']%lookup_delete_Some. eauto.
    + destruct (bind_data D M) as [sl' M''] eqn:E'.
      inversion E; subst. unfold updated. simpl. eapply IH; eauto.
Qed.

(** What [selection.data(data, key)] binds: one slot per datum; a node is
    updated by at most one datum, and by one of its own key; the nodes of
    the group that no datum updates are exactly the exit nodes; and when
    the keys of the group are distinct, every node whose key occurs in the
    data is updated. *)
Lemma bindKey_spec (G : list node) (D : list detection) :
  NoDup (nid <$> G) ->
  fst <$> slots (bindKey G D) = D /\
  NoDup (updated (slots (bindKey G D))) /\
  (forall d n, (d, Some n) ∈ slots (bindKey G D) ->
     exists m, m ∈ G /\ nid m = n /\ key (datum m) = key d) /\
  (forall m, m ∈ G ->
     nid m ∈ exit (bindKey G D) <-> nid m ∉ updated (slots (bindKey G D))) /\
  (forall v, v ∈ exit (bindKey G D) -> v ∈ nid <$> G) /\
  (NoDup ((fun n => key (datum n)) <$> G) ->
   forall m, m ∈ G -> key (datum m) ∈ key <$> D ->
     exists d, (d, Some (nid m)) ∈ slots (bindKey G D) /\
               key d = key (datum m) /\ d ∈ D).
Proof.
  intros Hnd. unfold bindKey.
  destruct (index_nodes G ∅) as [M dup] eqn:E1.
  destruct (bind_data D M) as [sl M'] eqn:E2. simpl.
  assert (V : forall k v, M !! k = Some v ->
                exists n, n ∈ G /\ nid n = v /\ key (datum n) = k).
  { intros k v Hk.
    destruct (index_nodes_values _ _ _ _ E1 _ _ Hk) as [H0 | ?]; auto.
    rewrite lookup_empty in H0. discriminate. }
  assert (Inj : injective M).
  { intros k k' v Hk Hk'.
    destruct (V _ _ Hk) as (a & Ha & Hna & <-).
    destruct (V _ _ Hk') as (b & Hb & Hnb & <-).
    f_equal. f_equal. eapply nid_inj; eauto. congruence. }
  pose proof (index_nodes_cover _ _ _ _ E1) as Cover.
  assert (Dup : forall v, v ∈ dup -> v ∈ nid <$> G /\ forall k, M !! k <> Some v).
  { apply (index_nodes_dup _ _ _ _ E1 Hnd). intros k v Hk.
    rewrite lookup_empty in Hk. discriminate. }
  pose proof (bind_data_fst _ _ _ _ E2) as Hfst.
  pose proof (bind_data_rest _ _ _ _ E2) as Rest.
  pose proof (bind_data_update _ _ _ _ E2) as Upd.
  split; [assumption |].
  split; [eapply bind_data_NoDup; eauto |].
  split; [intros d n Hin; apply V; eauto |].
  split; [| split].
  - intros m Hm. split.
    + intros [Hd | Hu]%elem_of_app (d & Hin)%elem_of_updated.
      * apply Dup in Hd as [_ Hno]. eapply Hno; eauto.
      * unfold unbound in Hu. apply list_elem_of_fmap in Hu as (m' & Hnm & Hf).
        apply list_elem_of_filter in Hf as [Hl Hm'].
        assert (m' = m) by (eapply nid_inj; eauto). subst m'.
        rewrite Rest in Hl. destruct (decide _) as [| Hout]; [discriminate |].
        apply Hout. pose proof (Upd _ _ Hin) as Hd.
        rewrite (Inj _ _ _ Hl Hd). apply list_elem_of_fmap_2.
        rewrite <- Hfst. now apply (list_elem_of_fmap_2 fst _ (d, Some (nid m))).
    + intros Hno. apply elem_of_app.
      destruct (Cover _ Hm) as [Hl | Hd]; [| now left]. right.
      unfold unbound. apply list_elem_of_fmap_2, list_elem_of_filter.
      split; auto. rewrite Rest. destruct (decide _) as [Hin | Hout]; auto.
      exfalso. apply Hno.
      destruct (bind_data_hit _ _ _ _ E2 _ _ Hl Hin) as (d & Hd & _).
      apply elem_of_updated. eauto.
  - intros v [Hd | Hu]%elem_of_app.
    + now apply Dup.
    + unfold unbound in Hu. apply list_elem_of_fmap in Hu as (m' & -> & Hf).
      apply list_elem_of_filter in Hf as [_ Hm']. now apply list_elem_of_fmap_2.
  - intros Hk m Hm Hin.
    assert (dup = []) as ->.
    { eapply index_nodes_nodup_keys; eauto; intros; apply lookup_empty. }
    destruct (Cover _ Hm) as [Hl | Hd]; [| inversion Hd].
    destruct (bind_data_hit _ _ _ _ E2 _ _ Hl Hin) as (d & Hd & Hkd & HdD).
    eauto.
Qed.

(** Rebinding, removal, insertion and the merged selection. *)
Lemma slot_unique (sl : list (detection * option nat)) d d' v :
  NoDup (updated sl) -> (d, Some v) ∈ sl -> (d', Some v) ∈ sl -> d = d'.
Proof.
  induction sl as [| [e o] sl IH]; intros Hnd H1 H2.
  - inversion H1.
  - unfold updated in Hnd. simpl in Hnd. destruct o as [u |]; simpl in Hnd.
    + apply NoDup_cons in Hnd as [Hu Hnd].
      apply elem_of_cons in H1 as [E1 | H1]; apply elem_of_cons in H2 as [E2 | H2].
      * congruence.
      * inversion E1; subst. exfalso. apply Hu. apply elem_of_updated. eauto.
      * inversion E2; subst. exfalso. apply Hu. apply elem_of_updated. eauto.
      * auto.
    + apply elem_of_cons in H1 as [E1 | H1]; [discriminate |].
      apply elem_of_cons in H2 as [E2 | H2]; [discriminate |]. auto.
Qed.

Lemma rebind_hit (sl : list (detection * option nat)) (n : node) d :
  NoDup (updated sl) -> (d, Some (nid n)) ∈ sl -> rebind sl n = set_datum d n.
Proof.
  intros Hnd Hin. unfold rebind.
  destruct (List.find _ sl) as [[d' o] |] eqn:F.
  - apply find_some in F as [F1 F2]. simpl in F2.
    apply bool_decide_eq_true in F2. subst o.
    apply list_elem_of_In in F1. f_equal. eapply slot_unique; eauto.
  - exfalso. apply list_elem_of_In in Hin.
    pose proof (find_none _ _ F _ Hin) as Hf. simpl in Hf.
    apply bool_decide_eq_false in Hf. now apply Hf.
Qed.

Lemma rebind_miss (sl : list (detection * option nat)) (n : node) :
  nid n ∉ updated sl -> rebind sl n = n.
Proof.
  intros Hno. unfold rebind.
  destruct (List.find _ sl) as [[d' o] |] eqn:F; auto.
  apply find_some in F as [F1 F2]. simpl in F2.
  apply bool_decide_eq_true in F2. subst o. exfalso. apply Hno.
  apply elem_of_updated. exists d'. now apply list_elem_of_In.
Qed.

Lemma nid_rebind sl (n : node) : nid (rebind sl n) = nid n.
Proof. unfold rebind. destruct (List.find _ sl) as [[? ?] |]; reflexivity. Qed.

Lemma tagName_rebind sl (n : node) : tagName (rebind sl n) = tagName n.
Proof. unfold rebind. destruct (List.find _ sl) as [[? ?] |]; reflexivity. Qed.

Lemma insertBefore_perm (child : node) next (kids : list node) :
  insertBefore child next kids ≡ₚ kids ++ [child].
Proof.
  induction kids as [| n kids IH]; destruct next as [r |]; simpl; auto.
  destruct (bool_decide (nid n = r)).
  - change (n :: kids ++ [child]) with ((n :: kids) ++ [child]).
    rewrite (Permutation_app_comm (n :: kids)). reflexivity.
  - now rewrite IH.
Qed.

Lemma enter_append_spec tag (sl : list (detection * option nat)) :
  forall (kids : list node) fresh made kids' fresh',
  enter_append tag sl kids fresh = (made, kids', fresh') ->
  merge made (snd <$> sl) = Some <$> selected sl fresh /\
  kids' ≡ₚ kids ++ entered tag sl fresh /\
  fresh' = fresh + length (entered tag sl fresh).
Proof.
  induction sl as [| [d [u |]] sl IH]; intros kids fresh made kids' fresh' E;
    simpl in E.
  - inversion E; subst. simpl. rewrite app_nil_r, Nat.add_0_r. auto.
  - destruct (enter_append tag sl kids fresh) as [[made0 kids0] fresh0] eqn:E0.
    inversion E; subst. destruct (IH _ _ _ _ _ E0) as (Hm & Hp & Hf).
    rewrite fmap_cons. simpl. rewrite Hm. auto.
  - destruct (enter_append tag sl _ (S fresh)) as [[made0 kids0] fresh0] eqn:E0.
    inversion E; subst. destruct (IH _ _ _ _ _ E0) as (Hm & Hp & Hf).
    rewrite fmap_cons. simpl. rewrite Hm. split; [reflexivity |]. split; [| lia].
    rewrite Hp, insertBefore_perm, <- app_assoc. reflexivity.
Qed.

Lemma enter_append_none tag (sl : list (detection * option nat)) :
  forall (kids : list node) fresh,
  Forall (fun s => is_Some (snd s)) sl ->
  enter_append tag sl kids fresh = ((fun _ => None) <$> sl, kids, fresh) /\
  selected sl fresh = updated sl.
Proof.
  induction sl as [| [d o] sl IH]; intros kids fresh Hall.
  - auto.
  - apply Forall_cons in Hall as [[u Hu] Hall]. simpl in Hu. subst o.
    destruct (IH kids fresh Hall) as [E S]. simpl. rewrite E.
    unfold updated in *. simpl. rewrite S. auto.
Qed.

Lemma nid_entered tag (sl : list (detection * option nat)) fresh :
  nid <$> entered tag sl fresh = seq fresh (length (entered tag sl fresh)).
Proof.
  revert fresh. induction sl as [| [d [u |]] sl IH]; intros fresh; simpl; auto.
  now rewrite IH.
Qed.

Lemma selected_perm tag (sl : list (detection * option nat)) fresh :
  selected sl fresh ≡ₚ updated sl ++ (nid <$> entered tag sl fresh).
Proof.
  revert fresh. induction sl as [| [d [u |]] sl IH]; intros fresh.
  - reflexivity.
  - unfold updated. simpl. constructor. apply IH.
  - unfold updated. simpl. rewrite (IH (S fresh)). unfold updated.
    now rewrite <- Permutation_middle.
Qed.

Lemma elem_of_each (f : node -> node) (ids : list nat) (l : list node) n' :
  n' ∈ each f (Some <$> ids) l <->
  exists n, n ∈ l /\ n' = if decide (nid n ∈ ids) then f n else n.
Proof.
  unfold each. rewrite list_elem_of_fmap. split.
  - intros (n & -> & Hn). exists n. split; auto.
    destruct (decide (nid n ∈ ids)) as [Hin | Hout].
    + rewrite bool_decide_eq_true_2; auto. now apply list_elem_of_fmap_2.
    + rewrite bool_decide_eq_false_2; auto.
      intros (x & [= Hx'] & Hx)%list_elem_of_fmap. congruence.
  - intros (n & Hn & ->). exists n. split; auto.
    destruct (decide (nid n ∈ ids)) as [Hin | Hout].
    + rewrite bool_decide_eq_true_2; auto. now apply list_elem_of_fmap_2.
    + rewrite bool_decide_eq_false_2; auto.
      intros (x & [= Hx'] & Hx)%list_elem_of_fmap. congruence.
Qed.

Lemma elem_of_entered tag (sl : list (detection * option nat)) fresh (e : node) :
  e ∈ entered tag sl fresh ->
  tagName e = tag /\ fresh <= nid e /\ datum e ∈ fst <$> sl /\
  attrs e = ∅ /\ styles e = ∅ /\ textContent e = None.
Proof.
  revert fresh. induction sl as [| [d [u |]] sl IH]; intros fresh He; simpl in He.
  - inversion He.
  - destruct (IH _ He) as (? & ? & ? & ? & ? & ?). repeat split; auto.
    rewrite fmap_cons. apply elem_of_cons; now right.
  - apply elem_of_cons in He as [-> | He].
    + repeat split; auto. rewrite fmap_cons. apply elem_of_cons; now left.
    + destruct (IH _ He) as (? & ? & ? & ? & ? & ?).
      repeat split; auto; try lia.
      rewrite fmap_cons. apply elem_of_cons; now right.
Qed.

Section KeyedUpdate.

Variable tag : string.
Variable draw : node -> node.
Hypothesis nid_draw : forall n, nid (draw n) = nid n.
Hypothesis tagName_draw : forall n, tagName (draw n) = tagName n.
Hypothesis datum_draw : forall n, datum (draw n) = datum n.

Lemma keyed_update_unfold (D : list detection) (kids kids' : list node)
    fresh fresh' :
  keyed_update tag draw D kids fresh = (kids', fresh') ->
  exists kids3,
    kids3 ≡ₚ remove (exit (bindKey (selectAll tag kids) D))
                (rebind (slots (bindKey (selectAll tag kids) D)) <$> kids)
              ++ entered tag (slots (bindKey (selectAll tag kids) D)) fresh /\
    kids' = each draw
              (Some <$> selected (slots (bindKey (selectAll tag kids) D)) fresh)
              kids3 /\
    fresh' = fresh + length (entered tag (slots (bindKey (selectAll tag kids) D)) fresh).
Proof.
  unfold keyed_update. intros E.
  destruct (enter_append tag _ _ fresh) as [[made kids3] fresh3] eqn:EA.
  apply enter_append_spec in EA as (Hm & Hp & Hf).
  inversion E; subst. exists kids3. rewrite Hm. auto.
Qed.

Lemma selectAll_elem (kids : list node) (n : node) :
  n ∈ selectAll tag kids <-> tagName n = tag /\ n ∈ kids.
Proof. unfold selectAll. apply (list_elem_of_filter (fun n => tagName n = tag)). Qed.

Lemma selectAll_NoDup (kids : list node) :
  NoDup (nid <$> kids) -> NoDup (nid <$> selectAll tag kids).
Proof.
  induction kids as [| n kids IH]; intros Hnd.
  - constructor.
  - rewrite fmap_cons in Hnd. apply NoDup_cons in Hnd as [Hn Hnd].
    unfold selectAll. rewrite filter_cons. destruct (decide _); auto.
    rewrite fmap_cons. apply NoDup_cons. split; auto.
    intros (m & Hm & Hin)%list_elem_of_fmap.
    apply list_elem_of_filter in Hin as [_ Hin].
    apply Hn. rewrite Hm. now apply list_elem_of_fmap_2.
Qed.

(** The three kinds of node a layer holds after a keyed update: the nodes
    of another tag, untouched; the nodes some datum updated, drawn with
    that datum; and the elements created for the enter slots, drawn. *)
Lemma keyed_update_elem (D : list detection) (kids kids' : list node)
    fresh fresh' :
  layer_ok kids fresh ->
  keyed_update tag draw D kids fresh = (kids', fresh') ->
  forall n',
    n' ∈ kids' <->
    (n' ∈ kids /\ tagName n' <> tag) \/
    (exists n d, n ∈ kids /\ tagName n = tag /\
       (d, Some (nid n)) ∈ slots (bindKey (selectAll tag kids) D) /\
       n' = draw (set_datum d n)) \/
    (exists e, e ∈ entered tag (slots (bindKey (selectAll tag kids) D)) fresh /\
       n' = draw e).
Proof.
  intros [Hnd Hlt] E n'.
  destruct (keyed_update_unfold _ _ _ _ _ E) as (kids3 & Hp & -> & ->).
  set (G := selectAll tag kids) in *.
  set (sl := slots (bindKey G D)) in *.
  destruct (bindKey_spec G D (selectAll_NoDup _ Hnd))
    as (Hfst & Hnu & Hfrom & Hexit & Hexit_in & _).
  fold sl in Hfst, Hnu, Hfrom, Hexit.
  assert (Hold : forall n, n ∈ kids -> nid n ∉ nid <$> entered tag sl fresh).
  { intros n Hn. rewrite nid_entered. intros Hin%elem_of_seq.
    rewrite Forall_forall in Hlt. specialize (Hlt _ Hn). lia. }
  assert (Hupd : forall n, n ∈ kids -> nid n ∈ updated sl -> tagName n = tag).
  { intros n Hn (d & Hd)%elem_of_updated.
    destruct (Hfrom _ _ Hd) as (m & Hm & Hnm & _).
    apply selectAll_elem in Hm as [Ht Hm].
    now rewrite <- (nid_inj kids m n Hnd Hm Hn Hnm). }
  rewrite elem_of_each. split.
  - intros (n & Hn & ->). rewrite Hp in Hn. apply elem_of_app in Hn as [Hn | Hn].
    + unfold remove in Hn. apply list_elem_of_filter in Hn as [Hne Hn].
      apply list_elem_of_fmap in Hn as (n0 & -> & Hn0).
      rewrite nid_rebind in *.
      destruct (decide (tagName n0 = tag)) as [Ht | Ht].
      * right; left.
        assert (Hu : nid n0 ∈ updated sl).
        { destruct (decide (nid n0 ∈ updated sl)); auto. exfalso.
          apply Hne, Hexit; auto. now apply selectAll_elem. }
        pose proof Hu as (d & Hd)%elem_of_updated.
        exists n0, d. repeat split; auto.
        rewrite (rebind_hit sl n0 d Hnu Hd).
        rewrite decide_True; auto.
        rewrite (selected_perm tag). apply elem_of_app. now left.
      * left. rewrite rebind_miss by (intros Hu; apply Ht; eauto).
        rewrite decide_False; auto.
        rewrite (selected_perm tag). intros [Hu | He]%elem_of_app.
        -- apply Ht; eauto.
        -- eapply Hold; eauto.
    + right; right. exists n. split; auto. rewrite decide_True; auto.
      rewrite (selected_perm tag). apply elem_of_app. right.
      now apply list_elem_of_fmap_2.
  - intros [[Hn Ht] | [(n & d & Hn & Ht & Hd & ->) | (e & He & ->)]].
    + exists n'. split.
      * rewrite Hp. apply elem_of_app. left. unfold remove.
        assert (Hnu' : nid n' ∉ updated sl) by (intros Hu; apply Ht; eauto).
        rewrite <- (rebind_miss sl n' Hnu').
        apply list_elem_of_filter. split; [| now apply list_elem_of_fmap_2].
        rewrite nid_rebind. intros Hex. apply Hexit_in in Hex.
        apply list_elem_of_fmap in Hex as (m & Hnm & Hm).
        apply selectAll_elem in Hm as [Htm Hm].
        apply Ht. now rewrite (nid_inj kids n' m Hnd Hn Hm Hnm).
      * rewrite decide_False; auto.
        rewrite (selected_perm tag). intros [Hu | He]%elem_of_app.
        -- apply Ht; eauto.
        -- eapply Hold; eauto.
    + exists (set_datum d n). split.
      * rewrite Hp. apply elem_of_app. left. unfold remove.
        rewrite <- (rebind_hit sl n d Hnu Hd).
        apply list_elem_of_filter. split; [| now apply list_elem_of_fmap_2].
        rewrite nid_rebind. intros Hex.
        apply Hexit in Hex; [| now apply selectAll_elem].
        apply Hex. apply elem_of_updated. eauto.
      * rewrite decide_True; auto. simpl.
        rewrite (selected_perm tag). apply elem_of_app. left.
        apply elem_of_updated. eauto.
    + exists e. split.
      * rewrite Hp. apply elem_of_app. now right.
      * rewrite decide_True; auto.
        rewrite (selected_perm tag). apply elem_of_app. right.
        now apply list_elem_of_fmap_2.
Qed.

Lemma bound_pairs_fst (sl : list (detection * option nat)) fresh :
  fst <$> bound_pairs sl fresh = selected sl fresh.
Proof.
  revert fresh. induction sl as [| [d [u |]] sl IH]; intros fresh;
    [reflexivity | |]; simpl; f_equal; apply IH.
Qed.

Lemma bound_pairs_snd (sl : list (detection * option nat)) fresh :
  snd <$> bound_pairs sl fresh = fst <$> sl.
Proof.
  revert fresh. induction sl as [| [d [u |]] sl IH]; intros fresh;
    [reflexivity | |]; simpl; f_equal; apply IH.
Qed.

Lemma elem_of_bound_pairs (sl : list (detection * option nat)) fresh n d :
  (n, d) ∈ bound_pairs sl fresh <->
  (d, Some n) ∈ sl \/
  exists e, e ∈ entered tag sl fresh /\ nid e = n /\ datum e = d.
Proof.
  revert fresh. induction sl as [| [d0 [u |]] sl IH]; intros fresh; simpl.
  - split.
    + intros H. inversion H.
    + intros [H | (e & H & _)]; inversion H.
  - rewrite !elem_of_cons, IH. split.
    + intros [[= -> ->] | [H | H]]; auto.
    + intros [[[= -> ->] | H] | H]; auto.
  - rewrite !elem_of_cons, IH. split.
    + intros [[= -> ->] | [H | (e & He & Hn & Hd)]].
      * right. exists (new_node fresh tag d0). split; auto.
        apply elem_of_cons; now left.
      * auto.
      * right. exists e. split; auto. apply elem_of_cons; now right.
    + intros [[[=] | H] | (e & He & Hn & Hd)]; auto.
      apply elem_of_cons in He as [-> | He]; simpl in *; subst; auto.
      right; right. eauto.
Qed.

Lemma selected_NoDup (sl : list (detection * option nat)) fresh :
  NoDup (updated sl) ->
  (forall n, n ∈ updated sl -> n < fresh) ->
  NoDup (selected sl fresh).
Proof.
  intros Hnd Hlt. rewrite (selected_perm tag). apply NoDup_app.
  split; [assumption |]. split.
  - intros n Hu. rewrite nid_entered. intros Hin%elem_of_seq.
    specialize (Hlt _ Hu). lia.
  - rewrite nid_entered. apply NoDup_seq.
Qed.

Lemma filter_fmap_NoDup (P : node -> Prop) `{forall n, Decision (P n)}
    (kids : list node) :
  NoDup (nid <$> kids) -> NoDup (nid <$> filter P kids).
Proof.
  induction kids as [| n kids IH]; intros Hnd.
  - constructor.
  - rewrite fmap_cons in Hnd. apply NoDup_cons in Hnd as [Hn Hnd].
    rewrite filter_cons. destruct (decide _); auto.
    rewrite fmap_cons. apply NoDup_cons. split; auto.
    intros (m & Hm & Hin)%list_elem_of_fmap.
    apply list_elem_of_filter in Hin as [_ Hin].
    apply Hn. rewrite Hm. now apply list_elem_of_fmap_2.
Qed.

(** A keyed update keeps the layer well formed. *)
Lemma keyed_update_ok (D : list detection) (kids kids' : list node)
    fresh fresh' :
  layer_ok kids fresh ->
  keyed_update tag draw D kids fresh = (kids', fresh') ->
  layer_ok kids' fresh' /\ fresh <= fresh'.
Proof.
  intros Hok E. pose proof Hok as [Hnd Hlt].
  pose proof (keyed_update_elem D kids kids' fresh fresh' Hok E) as Helem.
  destruct (keyed_update_unfold _ _ _ _ _ E) as (kids3 & Hp & -> & ->).
  set (sl := slots (bindKey (selectAll tag kids) D)) in *.
  rewrite Forall_forall in Hlt.
  split; [| lia]. split.
  - unfold each. rewrite <- list_fmap_compose.
    erewrite (list_fmap_ext _ nid); [| intros i n _; simpl;
      destruct (bool_decide _); [apply nid_draw | reflexivity]].
    rewrite Hp, fmap_app. apply NoDup_app. split; [| split].
    + unfold remove. apply filter_fmap_NoDup.
      rewrite <- list_fmap_compose.
      erewrite (list_fmap_ext _ nid); [exact Hnd |].
      intros i n _. simpl. apply nid_rebind.
    + intros v (n & -> & Hn)%list_elem_of_fmap.
      apply list_elem_of_filter in Hn as [_ Hn].
      apply list_elem_of_fmap in Hn as (n0 & -> & Hn0).
      rewrite nid_rebind, nid_entered. intros Hin%elem_of_seq.
      specialize (Hlt _ Hn0). lia.
    + rewrite nid_entered. apply NoDup_seq.
  - apply Forall_forall. intros n' Hn'. apply Helem in Hn'.
    destruct Hn' as [[Hn _] | [(n & d & Hn & _ & _ & ->) | (e & He & ->)]].
    + specialize (Hlt _ Hn). lia.
    + rewrite nid_draw. simpl. specialize (Hlt _ Hn). lia.
    + rewrite nid_draw.
      assert (Hin : nid e ∈ nid <$> entered tag sl fresh)
        by now apply list_elem_of_fmap_2.
      rewrite nid_entered in Hin. apply elem_of_seq in Hin. lia.
Qed.

(** After a keyed update the nodes of the tag carry exactly the data, one
    node per datum. *)
Lemma keyed_update_data (D : list detection) (kids kids' : list node)
    fresh fresh' :
  layer_ok kids fresh ->
  keyed_update tag draw D kids fresh = (kids', fresh') ->
  datum <$> selectAll tag kids' ≡ₚ D.
Proof.
  intros Hok E. pose proof Hok as [Hnd Hlt].
  pose proof (keyed_update_elem D kids kids' fresh fresh' Hok E) as Helem.
  destruct (keyed_update_ok D kids kids' fresh fresh' Hok E) as [[Hnd' _] _].
  set (G := selectAll tag kids) in *.
  set (sl := slots (bindKey G D)) in *.
  destruct (bindKey_spec G D (selectAll_NoDup _ Hnd))
    as (Hfst & Hnu & Hfrom & _).
  fold sl in Hfst, Hnu, Hfrom.
  rewrite Forall_forall in Hlt.
  assert (Hpairs : (fun n => (nid n, datum n)) <$> selectAll tag kids'
                   ≡ₚ bound_pairs sl fresh).
  { apply NoDup_Permutation.
    - apply (NoDup_fmap_1 fst). rewrite <- list_fmap_compose.
      now apply selectAll_NoDup.
    - apply (NoDup_fmap_1 fst). rewrite bound_pairs_fst.
      apply selected_NoDup; auto.
      intros n (d & Hd)%elem_of_updated.
      destruct (Hfrom _ _ Hd) as (m & Hm & <- & _).
      apply selectAll_elem in Hm as [_ Hm]. now apply Hlt.
    - intros [i d]. rewrite elem_of_bound_pairs, list_elem_of_fmap. split.
      + intros (n' & [= -> ->] & Hn'). apply selectAll_elem in Hn' as [Ht Hn'].
        apply Helem in Hn'.
        destruct Hn' as [[_ Hne] | [(n & d & Hn & _ & Hd & ->) | (e & He & ->)]].
        * contradiction.
        * left. now rewrite nid_draw, datum_draw.
        * right. exists e. now rewrite nid_draw, datum_draw.
      + intros [Hd | (e & He & <- & <-)].
        * destruct (Hfrom _ _ Hd) as (m & Hm & <- & _).
          apply selectAll_elem in Hm as [Ht Hm].
          exists (draw (set_datum d m)). split.
          { now rewrite nid_draw, datum_draw. }
          apply selectAll_elem. rewrite tagName_draw. split; auto.
          apply Helem. right; left. exists m, d. auto.
        * exists (draw e). split.
          { now rewrite nid_draw, datum_draw. }
          apply selectAll_elem. rewrite tagName_draw.
          split; [now apply elem_of_entered in He |].
          apply Helem. right; right. eauto. }
  rewrite <- Hfst, <- (bound_pairs_snd sl fresh), <- Hpairs.
  now rewrite <- list_fmap_compose.
Qed.

Lemma fmap_inj_on {A B : Type} (f : A -> B) (l : list A) (a b : A) :
  NoDup (f <$> l) -> a ∈ l -> b ∈ l -> f a = f b -> a = b.
Proof.
  induction l as [| x l IH]; intros Hnd Ha Hb Hab.
  - inversion Ha.
  - rewrite fmap_cons in Hnd. apply NoDup_cons in Hnd as [Hx Hnd].
    apply elem_of_cons in Ha as [-> | Ha]; apply elem_of_cons in Hb as [-> | Hb];
      auto.
    + exfalso. apply Hx. rewrite Hab. now apply list_elem_of_fmap_2.
    + exfalso. apply Hx. rewrite <- Hab. now apply list_elem_of_fmap_2.
Qed.

Lemma filter_all {A : Type} (P : A -> Prop) `{forall x, Decision (P x)}
    (l : list A) :
  (forall x, x ∈ l -> P x) -> filter P l = l.
Proof.
  induction l as [| x l IH]; intros Hall; auto.
  rewrite filter_cons, decide_True by (apply Hall, elem_of_cons; now left).
  f_equal. apply IH. intros y Hy. apply Hall, elem_of_cons. now right.
Qed.

Lemma fmap_fixed {A : Type} (f : A -> A) (l : list A) :
  (forall x, x ∈ l -> f x = x) -> f <$> l = l.
Proof.
  induction l as [| x l IH]; intros Hall; auto.
  rewrite fmap_cons, Hall by (apply elem_of_cons; now left).
  f_equal. apply IH. intros y Hy. apply Hall, elem_of_cons. now right.
Qed.

Lemma set_datum_same (n : node) : set_datum (datum n) n = n.
Proof. now destruct n. Qed.

(** A layer whose nodes of the tag carry the data, one node per datum, and
    are already drawn, is left as it is: nothing exits, nothing enters. *)
Lemma keyed_update_fixed (D : list detection) (kids : list node) fresh :
  layer_ok kids fresh ->
  NoDup (key <$> D) ->
  datum <$> selectAll tag kids ≡ₚ D ->
  (forall n, n ∈ kids -> tagName n = tag -> draw n = n) ->
  keyed_update tag draw D kids fresh = (kids, fresh).
Proof.
  intros [Hnd Hlt] HkD Hdata Hdrawn.
  set (G := selectAll tag kids).
  assert (HkG : NoDup ((fun n => key (datum n)) <$> G)).
  { change (NoDup ((key ∘ datum) <$> G)).
    rewrite (list_fmap_compose datum key). unfold G. now rewrite Hdata. }
  destruct (bindKey_spec G D (selectAll_NoDup _ Hnd))
    as (Hfst & Hnu & Hfrom & Hexit & Hexit_in & Hkept).
  specialize (Hkept HkG).
  assert (HinD : forall m, m ∈ G -> datum m ∈ D).
  { intros m Hm. rewrite <- Hdata. now apply list_elem_of_fmap_2. }
  assert (S1 : forall m, m ∈ G -> (datum m, Some (nid m)) ∈ slots (bindKey G D)).
  { intros m Hm.
    destruct (Hkept m Hm) as (d & Hd & Hk & HdD).
    { apply list_elem_of_fmap_2. auto. }
    now rewrite <- (fmap_inj_on key D d (datum m) HkD HdD (HinD m Hm) Hk). }
  assert (S2 : Forall (fun s => is_Some (snd s)) (slots (bindKey G D))).
  { apply Forall_forall. intros [d o] Hs. simpl.
    assert (HdD : d ∈ D).
    { rewrite <- Hfst. now apply (list_elem_of_fmap_2 fst _ (d, o)). }
    rewrite <- Hdata in HdD. apply list_elem_of_fmap in HdD as (m & -> & Hm).
    assert (Heq : (datum m, o) = (datum m, Some (nid m))).
    { apply (fmap_inj_on fst (slots (bindKey G D))); auto.
      rewrite Hfst. now apply (NoDup_fmap_1 key). }
    inversion Heq. eauto. }
  assert (Hupd : forall n, n ∈ kids -> nid n ∈ updated (slots (bindKey G D)) ->
                           n ∈ G).
  { intros n Hn (d & Hd)%elem_of_updated.
    destruct (Hfrom _ _ Hd) as (m & Hm & Hnm & _).
    pose proof Hm as [_ Hm']%selectAll_elem.
    now rewrite <- (nid_inj kids m n Hnd Hm' Hn Hnm). }
  assert (R1 : rebind (slots (bindKey G D)) <$> kids = kids).
  { apply fmap_fixed. intros n Hn.
    destruct (decide (tagName n = tag)) as [Ht | Ht].
    - rewrite (rebind_hit _ n (datum n) Hnu); [apply set_datum_same |].
      apply S1. now apply selectAll_elem.
    - apply rebind_miss. intros Hu. apply Ht.
      now apply (Hupd n Hn) in Hu as [? _]%selectAll_elem. }
  assert (R2 : remove (exit (bindKey G D)) kids = kids).
  { apply filter_all. intros n Hn Hex.
    pose proof (Hexit_in _ Hex) as (m & Hnm & Hm)%list_elem_of_fmap.
    pose proof Hm as [_ Hm']%selectAll_elem.
    assert (n = m) by (eapply nid_inj; eauto). subst m.
    apply (Hexit n Hm) in Hex. apply Hex. apply elem_of_updated. eauto. }
  unfold keyed_update. fold G. rewrite R1, R2.
  destruct (enter_append_none tag _ kids fresh S2) as [E Hsel].
  pose proof (enter_append_spec _ _ _ _ _ _ _ E) as (Hm & _ & _).
  rewrite E, Hm, Hsel. f_equal.
  unfold each. apply fmap_fixed. intros n Hn.
  destruct (bool_decide _) eqn:B; auto.
  apply bool_decide_eq_true in B.
  apply list_elem_of_fmap in B as (v & [= Hv] & Hin). subst v.
  apply Hdrawn; auto. now apply (Hupd n Hn) in Hin as [? _]%selectAll_elem.
Qed.

(** A node whose key no datum carries leaves the layer. *)
Lemma keyed_update_gone (D : list detection) (kids kids' : list node)
    fresh fresh' :
  layer_ok kids fresh ->
  keyed_update tag draw D kids fresh = (kids', fresh') ->
  forall n, n ∈ kids -> tagName n = tag -> key (datum n) ∉ key <$> D ->
    nid n ∉ nid <$> kids'.
Proof.
  intros Hok E n Hn Ht Hk (n' & Hnn & Hn')%list_elem_of_fmap.
  pose proof Hok as [Hnd Hlt]. rewrite Forall_forall in Hlt.
  apply (keyed_update_elem D kids kids' fresh fresh' Hok E) in Hn'.
  destruct (bindKey_spec (selectAll tag kids) D (selectAll_NoDup _ Hnd))
    as (Hfst & _ & Hfrom & _).
  destruct Hn' as [[Hn' Hne] | [(m & d & Hm & _ & Hd & ->) | (e & He & ->)]].
  - apply Hne. now rewrite <- (nid_inj kids n n' Hnd Hn Hn' Hnn).
  - rewrite nid_draw in Hnn. simpl in Hnn.
    assert (n = m) by (eapply nid_inj; eauto). subst m.
    destruct (Hfrom _ _ Hd) as (m & Hm' & Hnm & Hkm).
    pose proof Hm' as [_ Hm'']%selectAll_elem.
    assert (m = n) by (eapply nid_inj; eauto). subst m.
    apply Hk. rewrite Hkm. apply list_elem_of_fmap_2. rewrite <- Hfst.
    now apply (list_elem_of_fmap_2 fst _ (d, Some (nid n))).
  - rewrite nid_draw in Hnn. apply elem_of_entered in He as (_ & Hge & _).
    specialize (Hlt _ Hn). lia.
Qed.

(** When the keys of the layer's nodes are distinct, a node whose key some
    datum carries stays in the layer, drawn with that datum. *)
Lemma keyed_update_kept (D : list detection) (kids kids' : list node)
    fresh fresh' :
  layer_ok kids fresh ->
  keyed_update tag draw D kids fresh = (kids', fresh') ->
  NoDup ((fun n => key (datum n)) <$> selectAll tag kids) ->
  forall n, n ∈ kids -> tagName n = tag -> key (datum n) ∈ key <$> D ->
    exists d, d ∈ D /\ key d = key (datum n) /\ draw (set_datum d n) ∈ kids'.
Proof.
  intros Hok E HkG n Hn Ht Hk. pose proof Hok as [Hnd _].
  destruct (bindKey_spec (selectAll tag kids) D (selectAll_NoDup _ Hnd))
    as (_ & _ & _ & _ & _ & Hkept).
  destruct (Hkept HkG n) as (d & Hd & Hkd & HdD); auto.
  { now apply selectAll_elem. }
  exists d. repeat split; auto.
  apply (keyed_update_elem D kids kids' fresh fresh' Hok E).
  right; left. exists n, d. auto.
Qed.

Lemma keyed_update_other (D : list detection) (kids kids' : list node)
    fresh fresh' (tag' : string) :
  layer_ok kids fresh ->
  keyed_update tag draw D kids fresh = (kids', fresh') ->
  tag' <> tag ->
  selectAll tag' kids' ≡ₚ selectAll tag' kids.
Proof.
  intros Hok E Hne.
  destruct (keyed_update_ok D kids kids' fresh fresh' Hok E) as [[Hnd' _] _].
  pose proof Hok as [Hnd _].
  apply NoDup_Permutation.
  - apply (NoDup_fmap_1 nid). unfold selectAll. now apply filter_fmap_NoDup.
  - apply (NoDup_fmap_1 nid). unfold selectAll. now apply filter_fmap_NoDup.
  - intros n. unfold selectAll.
    rewrite !(list_elem_of_filter (fun n => tagName n = tag')).
    rewrite (keyed_update_elem D kids kids' fresh fresh' Hok E). split.
    + intros [Ht [[Hn _] | [(m & d & _ & Htm & _ & ->) | (e & He & ->)]]]; auto.
      * rewrite tagName_draw in Ht. simpl in Ht. congruence.
      * rewrite tagName_draw in Ht. apply elem_of_entered in He as [Hte _].
        congruence.
    + intros [Ht Hn]. split; auto. left. split; auto. congruence.
Qed.

Lemma keyed_update_nids (D : list detection) (kids kids' : list node)
    fresh fresh' :
  layer_ok kids fresh ->
  keyed_update tag draw D kids fresh = (kids', fresh') ->
  forall v, v ∈ nid <$> kids' -> v ∈ nid <$> kids \/ fresh <= v.
Proof.
  intros Hok E v (n' & -> & Hn')%list_elem_of_fmap.
  apply (keyed_update_elem D kids kids' fresh fresh' Hok E) in Hn'.
  destruct Hn' as [[Hn _] | [(m & d & Hm & _ & _ & ->) | (e & He & ->)]].
  - left. now apply list_elem_of_fmap_2.
  - left. rewrite nid_draw. simpl. now apply list_elem_of_fmap_2.
  - right. rewrite nid_draw. now apply elem_of_entered in He as (_ & ? & _).
Qed.

End KeyedUpdate.

(** ** The drawing chains *)

Section Chains.

Variables videoWidth videoHeight : num.
Variable g : fit num.

Local Abbreviation rect_chain := (draw_rect classColors videoWidth videoHeight g).
Local Abbreviation label_chain := (draw_label classColors videoWidth videoHeight g).

Lemma nid_draw_rect (n : node) : nid (rect_chain n) = nid n.
Proof. reflexivity. Qed.

Lemma tagName_draw_rect (n : node) : tagName (rect_chain n) = tagName n.
Proof. reflexivity. Qed.

Lemma datum_draw_rect (n : node) : datum (rect_chain n) = datum n.
Proof. reflexivity. Qed.

Lemma nid_draw_label (n : node) : nid (label_chain n) = nid n.
Proof. reflexivity. Qed.

Lemma tagName_draw_label (n : node) : tagName (label_chain n) = tagName n.
Proof. reflexivity. Qed.

Lemma datum_draw_label (n : node) : datum (label_chain n) = datum n.
Proof. reflexivity. Qed.

(** One step of a chain, field by field. *)
Lemma attrs_attr k f (n : node) :
  attrs (attr k f n) = <[k := f (datum n)]> (attrs n).
Proof. reflexivity. Qed.

Lemma styles_attr k f (n : node) : styles (attr k f n) = styles n.
Proof. reflexivity. Qed.

Lemma datum_attr k f (n : node) : datum (attr k f n) = datum n.
Proof. reflexivity. Qed.

Lemma textContent_attr k f (n : node) :
  textContent (attr k f n) = textContent n.
Proof. reflexivity. Qed.

Lemma attrs_style k f (n : node) : attrs (style k f n) = attrs n.
Proof. reflexivity. Qed.

Lemma styles_style k f (n : node) :
  styles (style k f n) =
  match f (datum n) with
  | Some v => <[k := v]> (styles n)
  | None => delete k (styles n)
  end.
Proof. reflexivity. Qed.

Lemma datum_style k f (n : node) : datum (style k f n) = datum n.
Proof. reflexivity. Qed.

Lemma textContent_style k f (n : node) :
  textContent (style k f n) = textContent n.
Proof. reflexivity. Qed.

Lemma attrs_text f (n : node) : attrs (text f n) = attrs n.
Proof. reflexivity. Qed.

Lemma styles_text f (n : node) : styles (text f n) = styles n.
Proof. reflexivity. Qed.

Lemma datum_text f (n : node) : datum (text f n) = datum n.
Proof. reflexivity. Qed.

Lemma textContent_text f (n : node) :
  textContent (text f n) = Some (f (datum n)).
Proof. reflexivity. Qed.

#[local] Hint Rewrite attrs_attr styles_attr datum_attr textContent_attr
  attrs_style styles_style datum_style textContent_style
  attrs_text styles_text datum_text textContent_text : chain.

Lemma node_eq (a b : node) :
  nid a = nid b -> tagName a = tagName b -> datum a = datum b ->
  attrs a = attrs b -> styles a = styles b ->
  textContent a = textContent b -> a = b.
Proof.
  destruct a, b. cbn [nid tagName datum attrs styles textContent].
  now intros -> -> -> -> -> ->.
Qed.

(** A step that writes what the node already holds changes nothing. *)
Lemma attr_absorb k f (n : node) :
  attrs n !! k = Some (f (datum n)) -> attr k f n = n.
Proof.
  intros H. apply node_eq; try reflexivity.
  rewrite attrs_attr. now apply insert_id.
Qed.

Lemma style_absorb k f (n : node) :
  styles n !! k = f (datum n) -> style k f n = n.
Proof.
  intros H. apply node_eq; try reflexivity.
  rewrite styles_style. destruct (f (datum n)).
  - now apply insert_id.
  - now apply delete_id.
Qed.

Lemma text_absorb f (n : node) :
  textContent n = Some (f (datum n)) -> text f n = n.
Proof.
  intros H. apply node_eq; try reflexivity.
  now rewrite textContent_text.
Qed.

(** What a drawn box carries. *)
Lemma draw_rect_attrs (n : node) :
  attrs (rect_chain n) !! "x" = Some (ANum (rect_x videoWidth g (datum n))) /\
  attrs (rect_chain n) !! "y" = Some (ANum (rect_y videoHeight g (datum n))) /\
  attrs (rect_chain n) !! "width"
    = Some (ANum (rect_width videoWidth g (datum n))) /\
  attrs (rect_chain n) !! "height"
    = Some (ANum (rect_height videoHeight g (datum n))) /\
  styles (rect_chain n) !! "opacity" = Some (ANum (rect_opacity (datum n))) /\
  styles (rect_chain n) !! "stroke" = AStr <$> classColor classColors (class (datum n)).
Proof.
  unfold draw_rect. autorewrite with chain.
  split; [| split; [| split; [| split; [| split]]]].
  - rewrite !lookup_insert_ne by discriminate. apply lookup_insert_eq.
  - rewrite !lookup_insert_ne by discriminate. apply lookup_insert_eq.
  - rewrite !lookup_insert_ne by discriminate. apply lookup_insert_eq.
  - rewrite !lookup_insert_ne by discriminate. apply lookup_insert_eq.
  - apply lookup_insert_eq.
  - destruct (classColor classColors (class (datum n))) as [color |];
      cbn [fmap option_fmap option_map].
    + rewrite !lookup_insert_ne by discriminate. apply lookup_insert_eq.
    + rewrite !lookup_insert_ne by discriminate. apply lookup_delete_eq.
Qed.

Lemma draw_rect_constants (n : node) :
  attrs (rect_chain n) !! "class" = Some (AStr "bounding-box") /\
  styles (rect_chain n) !! "fill" = Some (AStr "none") /\
  styles (rect_chain n) !! "stroke-width" = Some (AStr "2px").
Proof.
  unfold draw_rect. autorewrite with chain. split; [| split].
  - apply lookup_insert_eq.
  - destruct (classColor classColors (class (datum n))) as [color |];
      cbn [fmap option_fmap option_map];
      rewrite ?lookup_insert_ne by discriminate;
      rewrite ?lookup_delete_ne by discriminate; apply lookup_insert_eq.
  - rewrite lookup_insert_ne by discriminate. apply lookup_insert_eq.
Qed.

Lemma draw_label_attrs (n : node) :
  attrs (label_chain n) !! "x" = Some (ANum (label_x videoWidth g (datum n))) /\
  attrs (label_chain n) !! "y" = Some (ANum (label_y videoHeight g (datum n))) /\
  textContent (label_chain n) = Some (label_of (datum n)).
Proof.
  unfold draw_label. autorewrite with chain.
  split; [| split].
  - rewrite !lookup_insert_ne by discriminate. apply lookup_insert_eq.
  - rewrite !lookup_insert_ne by discriminate. apply lookup_insert_eq.
  - reflexivity.
Qed.

Lemma draw_label_constants (n : node) :
  attrs (label_chain n) !! "class" = Some (AStr "bounding-box-label") /\
  styles (label_chain n) !! "fill"
    = AStr <$> classColor classColors (class (datum n)) /\
  styles (label_chain n) !! "font-size" = Some (AStr "18px") /\
  styles (label_chain n) !! "font-weight" = Some (AStr "bold").
Proof.
  unfold draw_label. autorewrite with chain.
  split; [| split; [| split]].
  - apply lookup_insert_eq.
  - rewrite !lookup_insert_ne by discriminate.
    destruct (classColor classColors (class (datum n))) as [color |];
      cbn [fmap option_fmap option_map];
      [apply lookup_insert_eq | apply lookup_delete_eq].
  - rewrite lookup_insert_ne by discriminate. apply lookup_insert_eq.
  - apply lookup_insert_eq.
Qed.

(** Drawing a node twice is drawing it once. *)
Lemma draw_rect_idem (n : node) : rect_chain (rect_chain n) = rect_chain n.
Proof.
  destruct (draw_rect_attrs n) as (Hx & Hy & Hw & Hh & Ho & Hs).
  destruct (draw_rect_constants n) as (Hc & Hf & Hsw).
  rewrite <- (datum_draw_rect n) in Hx, Hy, Hw, Hh, Ho, Hs.
  generalize dependent (rect_chain n). intros n' Hx Hy Hw Hh Ho Hs Hc Hf Hsw.
  unfold draw_rect.
  rewrite (attr_absorb "x") by exact Hx.
  rewrite (attr_absorb "y") by exact Hy.
  rewrite (attr_absorb "width") by exact Hw.
  rewrite (attr_absorb "height") by exact Hh.
  rewrite (attr_absorb "class") by exact Hc.
  rewrite (style_absorb "fill") by exact Hf.
  rewrite (style_absorb "stroke") by exact Hs.
  rewrite (style_absorb "stroke-width") by exact Hsw.
  now apply style_absorb.
Qed.

Lemma draw_label_idem (n : node) : label_chain (label_chain n) = label_chain n.
Proof.
  destruct (draw_label_attrs n) as (Hx & Hy & Ht).
  destruct (draw_label_constants n) as (Hc & Hf & Hz & Hb).
  rewrite <- (datum_draw_label n) in Hx, Hy, Ht, Hf.
  generalize dependent (label_chain n). intros n' Hx Hy Ht Hc Hf Hz Hb.
  unfold draw_label.
  rewrite (attr_absorb "x") by exact Hx.
  rewrite (attr_absorb "y") by exact Hy.
  rewrite (text_absorb label_of) by exact Ht.
  rewrite (attr_absorb "class") by exact Hc.
  rewrite (style_absorb "fill") by exact Hf.
  rewrite (style_absorb "font-size") by exact Hz.
  now apply style_absorb.
Qed.

End Chains.

(** ** The two passes of a redraw *)

Section Redraw.

Variables videoWidth videoHeight : num.
Variable g : fit num.

Local Abbreviation rect_chain := (draw_rect classColors videoWidth videoHeight g).
Local Abbreviation label_chain := (draw_label classColors videoWidth videoHeight g).
Local Abbreviation redraw := (redraw_layer classColors videoWidth videoHeight g).

Lemma rect_pass (D : list detection) (kids : list node) fresh :
  exists kidsA freshA,
    keyed_update "rect" rect_chain D kids fresh = (kidsA, freshA) /\
    redraw D kids fresh = keyed_update "text" label_chain D kidsA freshA.
Proof.
  unfold redraw_layer.
  destruct (keyed_update "rect" _ D kids fresh) as [kidsA freshA].
  eauto.
Qed.

Lemma redraw_layer_spec (D : list detection) (kids kids' : list node)
    fresh fresh' :
  layer_ok kids fresh ->
  redraw D kids fresh = (kids', fresh') ->
  layer_ok kids' fresh' /\ fresh <= fresh' /\
  datum <$> selectAll "rect" kids' ≡ₚ D /\
  datum <$> selectAll "text" kids' ≡ₚ D /\
  (forall n, n ∈ kids' -> tagName n = "rect" -> exists n0, n = rect_chain n0) /\
  (forall n, n ∈ kids' -> tagName n = "text" -> exists n0, n = label_chain n0).
Proof.
  intros Hok E.
  destruct (rect_pass D kids fresh) as (kidsA & freshA & E1 & E2).
  rewrite E2 in E. clear E2.
  destruct (keyed_update_ok "rect" rect_chain (nid_draw_rect _ _ _)
              D kids kidsA fresh freshA Hok E1) as [HokA HleA].
  destruct (keyed_update_ok "text" label_chain (nid_draw_label _ _ _)
              D kidsA kids' freshA fresh' HokA E) as [Hok' Hle'].
  pose proof (keyed_update_elem "rect" rect_chain
                D kids kidsA fresh freshA Hok E1) as HelA.
  pose proof (keyed_update_elem "text" label_chain
                D kidsA kids' freshA fresh' HokA E) as Hel'.
  split; [assumption |]. split; [lia |]. split; [| split; [| split]].
  - rewrite (keyed_update_other "text" label_chain (nid_draw_label _ _ _)
               (tagName_draw_label _ _ _) D kidsA kids' freshA fresh' "rect"
               HokA E) by discriminate.
    exact (keyed_update_data "rect" rect_chain (nid_draw_rect _ _ _)
             (tagName_draw_rect _ _ _) (datum_draw_rect _ _ _)
             D kids kidsA fresh freshA Hok E1).
  - exact (keyed_update_data "text" label_chain (nid_draw_label _ _ _)
             (tagName_draw_label _ _ _) (datum_draw_label _ _ _)
             D kidsA kids' freshA fresh' HokA E).
  - intros n Hn Ht. apply Hel' in Hn.
    destruct Hn as [[Hn _] | [(m & d & _ & Htm & _ & ->) | (e & He & ->)]].
    + apply HelA in Hn.
      destruct Hn as [[_ Hne] | [(m & d & _ & _ & _ & ->) | (e & He & ->)]];
        [contradiction | eauto | eauto].
    + rewrite tagName_draw_label in Ht. simpl in Ht. congruence.
    + rewrite tagName_draw_label in Ht.
      apply elem_of_entered in He as [Hte _]. congruence.
  - intros n Hn Ht. apply Hel' in Hn.
    destruct Hn as [[_ Hne] | [(m & d & _ & _ & _ & ->) | (e & He & ->)]];
      [contradiction | eauto | eauto].
Qed.

(** Redrawing the frame a layer already shows changes nothing. *)
Lemma redraw_layer_fixed (D : list detection) (kids kids' : list node)
    fresh fresh' :
  layer_ok kids fresh ->
  NoDup (key <$> D) ->
  redraw D kids fresh = (kids', fresh') ->
  redraw D kids' fresh' = (kids', fresh').
Proof.
  intros Hok HkD E.
  destruct (redraw_layer_spec D kids kids' fresh fresh' Hok E)
    as (Hok' & _ & Hrect & Htext & Hdr & Hdl).
  destruct (rect_pass D kids' fresh') as (kidsA & freshA & E1 & E2).
  rewrite E2.
  assert (F1 : keyed_update "rect" rect_chain D kids' fresh' = (kids', fresh')).
  { apply keyed_update_fixed; auto.
    intros n Hn Ht. destruct (Hdr n Hn Ht) as (n0 & ->).
    apply draw_rect_idem. }
  rewrite F1 in E1. inversion E1; subst.
  apply keyed_update_fixed; auto.
  intros n Hn Ht. destruct (Hdl n Hn Ht) as (n0 & ->).
  apply draw_label_idem.
Qed.

(** A box or label whose key no record of the frame carries is removed. *)
Lemma redraw_layer_gone (D : list detection) (kids kids' : list node)
    fresh fresh' :
  layer_ok kids fresh ->
  redraw D kids fresh = (kids', fresh') ->
  forall n, n ∈ kids -> tagName n = "rect" \/ tagName n = "text" ->
    key (datum n) ∉ key <$> D -> nid n ∉ nid <$> kids'.
Proof.
  intros Hok E n Hn Ht Hk.
  destruct (rect_pass D kids fresh) as (kidsA & freshA & E1 & E2).
  rewrite E2 in E. clear E2.
  destruct (keyed_update_ok "rect" rect_chain (nid_draw_rect _ _ _)
              D kids kidsA fresh freshA Hok E1) as [HokA HleA].
  destruct Ht as [Ht | Ht].
  - pose proof (keyed_update_gone "rect" rect_chain (nid_draw_rect _ _ _)
                  D kids kidsA fresh freshA Hok E1 n Hn Ht Hk) as Hgone.
    intros Hin.
    apply (keyed_update_nids "text" label_chain (nid_draw_label _ _ _)
             D kidsA kids' freshA fresh' HokA E) in Hin as [Hin | Hge]; auto.
    destruct Hok as [_ Hlt]. rewrite Forall_forall in Hlt.
    specialize (Hlt _ Hn). lia.
  - apply (keyed_update_gone "text" label_chain (nid_draw_label _ _ _)
             D kidsA kids' freshA fresh' HokA E); auto.
    apply (keyed_update_elem "rect" rect_chain
             D kids kidsA fresh freshA Hok E1).
    left. split; auto. rewrite Ht. discriminate.
Qed.

(** When the keys of the boxes and of the labels are distinct, a box or
    label whose key a record of the frame carries stays the same element,
    redrawn with that record. *)
Lemma redraw_layer_kept (D : list detection) (kids kids' : list node)
    fresh fresh' :
  layer_ok kids fresh ->
  redraw D kids fresh = (kids', fresh') ->
  NoDup ((fun n => key (datum n)) <$> selectAll "rect" kids) ->
  NoDup ((fun n => key (datum n)) <$> selectAll "text" kids) ->
  forall n, n ∈ kids -> key (datum n) ∈ key <$> D ->
    (tagName n = "rect" ->
     exists d, d ∈ D /\ key d = key (datum n) /\
               rect_chain (set_datum d n) ∈ kids') /\
    (tagName n = "text" ->
     exists d, d ∈ D /\ key d = key (datum n) /\
               label_chain (set_datum d n) ∈ kids').
Proof.
  intros Hok E HkR HkT n Hn Hk.
  destruct (rect_pass D kids fresh) as (kidsA & freshA & E1 & E2).
  rewrite E2 in E. clear E2.
  destruct (keyed_update_ok "rect" rect_chain (nid_draw_rect _ _ _)
              D kids kidsA fresh freshA Hok E1) as [HokA HleA].
  pose proof (keyed_update_elem "text" label_chain
                D kidsA kids' freshA fresh' HokA E) as Hel'.
  split; intros Ht.
  - destruct (keyed_update_kept "rect" rect_chain
                D kids kidsA fresh freshA Hok E1 HkR n Hn Ht Hk)
      as (d & HdD & Hkd & HinA).
    exists d. repeat split; auto. apply Hel'. left. split; auto.
    rewrite tagName_draw_rect. simpl. rewrite Ht. discriminate.
  - apply (keyed_update_kept "text" label_chain
             D kidsA kids' freshA fresh' HokA E); auto.
    + change (NoDup ((key ∘ datum) <$> selectAll "text" kidsA)).
      rewrite (keyed_update_other "rect" rect_chain (nid_draw_rect _ _ _)
                 (tagName_draw_rect _ _ _) D kids kidsA fresh freshA "text"
                 Hok E1) by discriminate.
      exact HkT.
    + apply (keyed_update_elem "rect" rect_chain
               D kids kidsA fresh freshA Hok E1).
      left. split; auto. rewrite Ht. discriminate.
Qed.

End Redraw.

(** ** The operations on the world *)

Lemma loaded_length (w : world) :
  boundingBoxData w <> [] -> Nat.eqb (length (boundingBoxData w)) 0 = false.
Proof.
  destruct (boundingBoxData w); [congruence | reflexivity].
Qed.

(** With a live surface, records and a video of valid geometry, a redraw
    stores the frame number and replaces the box layer by its redrawn
    state. *)
Lemma updateBoundingBoxes_draws (f : num) (w : world) h c el v :
  drawable w h c el v ->
  updateBoundingBoxes classColors f w =
  (set_fresh
     (snd (redraw_layer classColors (videoWidth v) (videoHeight v)
             (fit_video (videoWidth v) (videoHeight v) (video_rect v))
             (frameData f (boundingBoxData w)) (boxLayer el) (fresh w)))
     (set_overlays
        (<[h := set_boxLayer
                  (fst (redraw_layer classColors (videoWidth v) (videoHeight v)
                          (fit_video (videoWidth v) (videoHeight v) (video_rect v))
                          (frameData f (boundingBoxData w)) (boxLayer el)
                          (fresh w))) el]> (overlays w))
        (set_currentFrame f w)),
   Returned).
Proof.
  intros [[Hs Hd Ho Hp Hv] [H1 H2 H3 H4]].
  unfold updateBoundingBoxes. rewrite Hs, (loaded_length w Hd). simpl.
  rewrite Ho, Hp, Hv, H1, H2, H3, H4. simpl.
  destruct (redraw_layer _ _ _ _ _ _ _) as [kids fresh']. reflexivity.
Qed.

Lemma primitives_redrawn (f : num) (w : world) h c el v :
  drawable w h c el v ->
  primitives (fst (updateBoundingBoxes classColors f w)) =
  fst (redraw_layer classColors (videoWidth v) (videoHeight v)
         (fit_video (videoWidth v) (videoHeight v) (video_rect v))
         (frameData f (boundingBoxData w)) (boxLayer el) (fresh w)).
Proof.
  intros Hd. rewrite (updateBoundingBoxes_draws f w h c el v Hd).
  destruct Hd as [[Hs _ Ho _ _] _].
  unfold primitives. simpl. rewrite Hs. simpl.
  rewrite list_lookup_insert_eq by (eapply lookup_lt_Some; eauto).
  reflexivity.
Qed.

Lemma primitives_before (w : world) h c el v :
  drawable w h c el v -> primitives w = boxLayer el.
Proof.
  intros [[Hs _ Ho _ _] _]. unfold primitives. rewrite Hs. simpl.
  now rewrite Ho.
Qed.

Lemma world_ok_layer (w : world) h el :
  world_ok w -> overlays w !! h = Some el -> layer_ok (boxLayer el) (fresh w).
Proof.
  unfold world_ok. rewrite Forall_forall. intros Hok Hl.
  apply Hok. eapply list_elem_of_lookup_2; eauto.
Qed.

Lemma layer_ok_mono (kids : list node) a b :
  layer_ok kids a -> a <= b -> layer_ok kids b.
Proof.
  intros [Hnd Hlt] Hle. split; auto.
  eapply Forall_impl; eauto. simpl. intros. lia.
Qed.

(** The state stays well formed, and drawable, across a redraw. *)
Lemma updateBoundingBoxes_ok (f : num) (w : world) :
  world_ok w -> world_ok (fst (updateBoundingBoxes classColors f w)).
Proof.
  intros Hok. unfold updateBoundingBoxes.
  destruct (svg w) as [h |]; auto.
  destruct (Nat.eqb _ 0); auto. simpl.
  destruct (overlays w !! h) as [el |] eqn:Ho; auto.
  destruct (parentNode el) as [c |]; auto.
  destruct (containers w !! c ≫= content_video) as [v |]; auto.
  destruct (_ || _); auto.
  destruct (redraw_layer _ _ _ _ _ _ _) as [kids fresh'] eqn:E. simpl.
  destruct (redraw_layer_spec _ _ _ _ _ _ _ _ (world_ok_layer w h el Hok Ho) E)
    as (Hok' & Hle & _).
  unfold world_ok. simpl. apply Forall_insert; auto.
  eapply Forall_impl; [exact Hok |]. simpl. intros el0 H0.
  eapply layer_ok_mono; eauto.
Qed.

Lemma updateBoundingBoxes_drawable (f : num) (w : world) h c el v :
  drawable w h c el v ->
  exists el',
    drawable (fst (updateBoundingBoxes classColors f w)) h c el' v /\
    boxLayer el' = primitives (fst (updateBoundingBoxes classColors f w)) /\
    boundingBoxData (fst (updateBoundingBoxes classColors f w))
      = boundingBoxData w.
Proof.
  intros Hd. pose proof (primitives_redrawn f w h c el v Hd) as Hp.
  rewrite (updateBoundingBoxes_draws f w h c el v Hd) in *.
  destruct Hd as [[Hs Hd Ho Hpn Hv] Hg].
  exists (set_boxLayer
            (fst (redraw_layer classColors (videoWidth v) (videoHeight v)
                    (fit_video (videoWidth v) (videoHeight v) (video_rect v))
                    (frameData f (boundingBoxData w)) (boxLayer el) (fresh w)))
            el).
  split; [| split]; [| | reflexivity].
  - split; [split |]; auto.
    cbn [fst overlays set_fresh set_overlays].
    apply list_lookup_insert_eq. eapply lookup_lt_Some; eauto.
  - now rewrite Hp.
Qed.

Lemma initial_ok (page : gmap nat (container num)) : world_ok (initial page).
Proof. constructor. Qed.

Lemma remove_first_overlay_layers (c : nat) (els : list (overlay num)) :
  boxLayer <$> remove_first_overlay c els = boxLayer <$> els.
Proof.
  induction els as [| el els IH]; [reflexivity |].
  cbn [remove_first_overlay]. destruct (bool_decide _); rewrite !fmap_cons.
  - reflexivity.
  - f_equal. apply IH.
Qed.

Lemma world_ok_layers (w w' : world) :
  boxLayer <$> overlays w' = boxLayer <$> overlays w ->
  fresh w' = fresh w -> world_ok w -> world_ok w'.
Proof.
  unfold world_ok. intros Hl Hf Hok. rewrite Hf.
  apply (Forall_fmap boxLayer (fun l => layer_ok l (fresh w))).
  rewrite Hl. now apply Forall_fmap.
Qed.

Lemma initializeBoundingBoxes_ok (videoContainer : nat) (w : world) :
  world_ok w ->
  world_ok (fst (initializeBoundingBoxes classColors videoContainer w)).
Proof.
  intros Hok. unfold initializeBoundingBoxes, try_initialize. simpl.
  assert (H1 : world_ok (set_overlays
                 (remove_first_overlay videoContainer (overlays w)) w)).
  { apply (world_ok_layers w);
      [apply remove_first_overlay_layers | reflexivity | exact Hok]. }
  destruct (containers w !! videoContainer) as [box |]; simpl; auto.
  destruct (content_video box) as [v |]; simpl; auto.
  unfold world_ok in *. simpl in *. apply Forall_app. split; auto.
  repeat constructor.
Qed.

Lemma loadBoundingBoxData_ok (fetch : string -> fetched num) (dataFile : string)
    (w : world) :
  world_ok w -> world_ok (fst (loadBoundingBoxData fetch dataFile w)).
Proof.
  intros Hok. unfold loadBoundingBoxData, try_load.
  destruct (fetch dataFile); simpl; auto.
Qed.

(** The first statement of [updateBoundingBoxes]: [!svg] or an empty
    [boundingBoxData] returns before anything is written. *)
Lemma updateBoundingBoxes_guard (frameNumber : num) (w : world) :
  svg w = None \/ boundingBoxData w = [] ->
  updateBoundingBoxes classColors frameNumber w = (w, Returned).
Proof.
  intros [Hs | Hd]; unfold updateBoundingBoxes.
  - now rewrite Hs.
  - destruct (svg w); [| reflexivity]. now rewrite Hd.
Qed.

(** ** The claims about the operations *)

(** C7: for every frame number, if no overlay surface has been constructed
    or [boundingBoxData] is empty, [updateBoundingBoxes] returns at once
    without side effects: the whole state after the call ([currentFrame]
    and every primitive included) is the state before it, and no exception
    is raised. *)
Theorem redraw_without_surface_or_data (frameNumber : num) (w : world) :
  svg w = None \/ boundingBoxData w = [] ->
  updateBoundingBoxes classColors frameNumber w = (w, Returned).
Proof.
  intros Hguard. unfold updateBoundingBoxes.
  destruct Hguard as [Hs | Hd].
  - rewrite Hs. reflexivity.
  - destruct (svg w) as [el |]; [| reflexivity].
    rewrite Hd. reflexivity.
Qed.

(** C4: [loadBoundingBoxData] never lets an exception out.  When the fetch
    and the parse succeed it replaces [boundingBoxData] by the parsed
    records and resets [currentFrame] to 0; when either fails it logs the
    error and sets [boundingBoxData] to the empty array.  In both cases the
    new [boundingBoxData] holds nothing of the old one, and the overlay
    is not touched. *)
Theorem loadBoundingBoxData_replace_or_clear
    (fetch : string -> fetched num) (dataFile : string) (w : world) :
  snd (loadBoundingBoxData fetch dataFile w) = Returned /\
  svg (fst (loadBoundingBoxData fetch dataFile w)) = svg w /\
  overlays (fst (loadBoundingBoxData fetch dataFile w)) = overlays w /\
  match fetch dataFile with
  | Parsed data =>
      boundingBoxData (fst (loadBoundingBoxData fetch dataFile w)) = data /\
      currentFrame (fst (loadBoundingBoxData fetch dataFile w)) = lit_0 /\
      console (fst (loadBoundingBoxData fetch dataFile w)) = console w
  | FetchRejected _ | JsonRejected _ =>
      boundingBoxData (fst (loadBoundingBoxData fetch dataFile w)) = [] /\
      currentFrame (fst (loadBoundingBoxData fetch dataFile w))
        = currentFrame w /\
      console (fst (loadBoundingBoxData fetch dataFile w))
        = console w ++ ["Error loading bounding box data:"]
  end.
Proof.
  unfold loadBoundingBoxData, try_load.
  destruct (fetch dataFile); simpl; repeat apply conj; reflexivity.
Qed.

(** C9: a redraw is idempotent.  When the ids of the records of frame [f]
    are distinct, calling [updateBoundingBoxes f] a second time, with the
    records and the geometry unchanged, ends as the first call did and
    leaves the state the first call produced: the same primitives, each the
    same element with the same attributes, and none added. *)
Theorem redraw_idempotent (f : num) (w : world) :
  world_ok w ->
  NoDup (key <$> frameData f (boundingBoxData w)) ->
  updateBoundingBoxes classColors f (fst (updateBoundingBoxes classColors f w))
  = updateBoundingBoxes classColors f w.
Proof.
  intros Hok HkD.
  destruct (svg w) as [h |] eqn:Hs.
  2: { rewrite (updateBoundingBoxes_guard f w) by now left.
       simpl. apply updateBoundingBoxes_guard. now left. }
  destruct (boundingBoxData w) as [| d0 data] eqn:Hd.
  { rewrite (updateBoundingBoxes_guard f w) by now right.
    simpl. apply updateBoundingBoxes_guard. now right. }
  rewrite <- Hd in *.
  assert (Hne : boundingBoxData w <> []) by (rewrite Hd; discriminate).
  destruct (overlays w !! h) as [el |] eqn:Ho.
  2: { unfold updateBoundingBoxes at 2 3. rewrite Hs, (loaded_length w Hne).
       simpl. rewrite Ho. simpl.
       unfold updateBoundingBoxes. simpl. rewrite Hs, (loaded_length w Hne).
       simpl. now rewrite Ho. }
  destruct (parentNode el) as [c |] eqn:Hp.
  2: { unfold updateBoundingBoxes at 2 3. rewrite Hs, (loaded_length w Hne).
       simpl. rewrite Ho, Hp. simpl.
       unfold updateBoundingBoxes. simpl. rewrite Hs, (loaded_length w Hne).
       simpl. now rewrite Ho, Hp. }
  destruct (containers w !! c ≫= content_video) as [v |] eqn:Hv.
  2: { unfold updateBoundingBoxes at 2 3. rewrite Hs, (loaded_length w Hne).
       simpl. rewrite Ho, Hp, Hv. simpl.
       unfold updateBoundingBoxes. simpl. rewrite Hs, (loaded_length w Hne).
       simpl. now rewrite Ho, Hp, Hv. }
  destruct (negb (ToBoolean (videoWidth v)) || negb (ToBoolean (videoHeight v))
            || negb (ToBoolean (width (video_rect v)))
            || negb (ToBoolean (height (video_rect v)))) eqn:Hg.
  { unfold updateBoundingBoxes at 2 3. rewrite Hs, (loaded_length w Hne).
    simpl. rewrite Ho, Hp, Hv, Hg. simpl.
    unfold updateBoundingBoxes. simpl. rewrite Hs, (loaded_length w Hne).
    simpl. now rewrite Ho, Hp, Hv, Hg. }
  assert (Hdr : drawable w h c el v).
  { repeat apply orb_false_elim in Hg as [Hg ?].
    split; split; auto; now apply negb_false_iff. }
  destruct (updateBoundingBoxes_drawable f w h c el v Hdr)
    as (el' & Hdr' & Hlayer & Hdata).
  rewrite (updateBoundingBoxes_draws f _ h c el' v Hdr').
  rewrite Hlayer, Hdata, (primitives_redrawn f w h c el v Hdr).
  pose proof Hdr' as [[_ _ Ho' _ _] _].
  rewrite (updateBoundingBoxes_draws f w h c el v Hdr) in *.
  simpl in *.
  destruct (redraw_layer _ _ _ _ _ (boxLayer el) (fresh w))
    as [kids fresh'] eqn:E.
  simpl in *.
  rewrite (redraw_layer_fixed _ _ _ _ _ _ _ _
             (world_ok_layer w h el Hok Ho) HkD E).
  simpl. f_equal.
  rewrite list_lookup_insert_eq in Ho' by (eapply lookup_lt_Some; eauto).
  inversion Ho'; subst el'.
  unfold set_fresh, set_overlays, set_currentFrame. simpl. f_equal.
  now rewrite list_insert_insert_eq.
Qed.

Lemma perm_elem_datum (tag : string) (kids : list node) (D : list detection) :
  datum <$> selectAll tag kids ≡ₚ D ->
  (forall d, d ∈ D -> exists n, n ∈ kids /\ tagName n = tag /\ datum n = d) /\
  (forall n, n ∈ kids -> tagName n = tag -> datum n ∈ D).
Proof.
  intros Hp. split.
  - intros d Hd. rewrite <- Hp in Hd.
    apply list_elem_of_fmap in Hd as (n & -> & Hn).
    apply selectAll_elem in Hn as [Ht Hn]. eauto.
  - intros n Hn Ht. rewrite <- Hp. apply list_elem_of_fmap_2.
    now apply selectAll_elem.
Qed.

(** C2: after a redraw with a live surface, records loaded and valid
    geometry, the boxes and labels of the layer are keyed by record id.
    For two consecutive redraws, of frames [f1] and [f2], where the ids of
    the records of [f1] are distinct: the second redraw returns; every
    record of [f2] has a box and a label; every box and label carries a
    record of [f2]; a box or label of the first redraw whose id no record
    of [f2] carries is gone; and one whose id a record [d] of [f2] carries
    is still there, the same element, now bound to [d] and rewritten from
    it: it is what the chain of the merged selection makes of the old
    element bound to [d], so a box has the position and extent of [d] and
    a label the position of [d]. *)
Theorem redraw_keyed_by_id (f1 f2 : num) (w : world) h c el v :
  world_ok w ->
  drawable w h c el v ->
  NoDup (key <$> frameData f1 (boundingBoxData w)) ->
  let w1 := fst (updateBoundingBoxes classColors f1 w) in
  let w2 := fst (updateBoundingBoxes classColors f2 w1) in
  let D2 := frameData f2 (boundingBoxData w) in
  let T := fit_video (videoWidth v) (videoHeight v) (video_rect v) in
  snd (updateBoundingBoxes classColors f2 w1) = Returned /\
  (forall d, d ∈ D2 ->
     exists r t, r ∈ primitives w2 /\ t ∈ primitives w2 /\
       tagName r = "rect" /\ datum r = d /\
       tagName t = "text" /\ datum t = d) /\
  (forall n, n ∈ primitives w2 ->
     tagName n = "rect" \/ tagName n = "text" -> datum n ∈ D2) /\
  (forall n, n ∈ primitives w1 ->
     tagName n = "rect" \/ tagName n = "text" ->
     key (datum n) ∉ key <$> D2 -> nid n ∉ nid <$> primitives w2) /\
  (forall n, n ∈ primitives w1 ->
     tagName n = "rect" \/ tagName n = "text" ->
     key (datum n) ∈ key <$> D2 ->
     exists n' d, n' ∈ primitives w2 /\ nid n' = nid n /\
       tagName n' = tagName n /\ key (datum n') = key (datum n) /\
       datum n' ∈ D2 /\
       d ∈ D2 /\ key d = key (datum n) /\ datum n' = d /\
       (tagName n = "rect" ->
        n' = draw_rect classColors (videoWidth v) (videoHeight v) T
               (set_datum d n) /\
        attrs n' !! "x"
        = Some (ANum (finite_or_0 (spec_x (videoWidth v) T d))) /\
        attrs n' !! "y"
        = Some (ANum (finite_or_0 (spec_y (videoHeight v) T d))) /\
        attrs n' !! "width"
        = Some (ANum (extent_or_0 (spec_width (videoWidth v) T d))) /\
        attrs n' !! "height"
        = Some (ANum (extent_or_0 (spec_height (videoHeight v) T d)))) /\
       (tagName n = "text" ->
        n' = draw_label classColors (videoWidth v) (videoHeight v) T
               (set_datum d n) /\
        attrs n' !! "x"
        = Some (ANum (finite_or_0 (spec_x (videoWidth v) T d))) /\
        attrs n' !! "y"
        = Some (ANum (finite_or_0 (spec_y (videoHeight v) T d - lit_5)%js)))).
Proof.
  intros Hok Hdr HkD w1 w2 D2 T.
  pose proof (updateBoundingBoxes_ok f1 w Hok) as Hok1. fold w1 in Hok1.
  destruct (updateBoundingBoxes_drawable f1 w h c el v Hdr)
    as (el1 & Hdr1 & Hlayer1 & Hdata1).
  fold w1 in Hdr1, Hlayer1, Hdata1.
  pose proof Hdr as [[_ _ Ho _ _] _].
  pose proof Hdr1 as [[_ _ Ho1 _ _] _].
  pose proof (world_ok_layer w h el Hok Ho) as Hl.
  pose proof (world_ok_layer w1 h el1 Hok1 Ho1) as Hl1.
  (* the layer after the first redraw *)
  pose proof (primitives_redrawn f1 w h c el v Hdr) as P1. fold w1 in P1.
  destruct (redraw_layer classColors _ _ _ (frameData f1 _) (boxLayer el) _)
    as [kids1 fresh1] eqn:E1.
  simpl in P1.
  destruct (redraw_layer_spec _ _ _ _ _ _ _ _ Hl E1)
    as (_ & _ & HR1 & HT1 & _).
  (* the layer after the second redraw *)
  pose proof (primitives_redrawn f2 w1 h c el1 v Hdr1) as P2. fold w2 in P2.
  rewrite Hdata1 in P2. fold D2 in P2.
  destruct (redraw_layer classColors _ _ _ D2 (boxLayer el1) _)
    as [kids2 fresh2] eqn:E2.
  simpl in P2.
  destruct (redraw_layer_spec _ _ _ _ _ _ _ _ Hl1 E2)
    as (_ & _ & HR2 & HT2 & _).
  destruct (perm_elem_datum "rect" kids2 D2 HR2) as [HR2a HR2b].
  destruct (perm_elem_datum "text" kids2 D2 HT2) as [HT2a HT2b].
  rewrite P2. rewrite Hlayer1 in *. rewrite P1 in *.
  split; [| split; [| split; [| split]]].
  - now rewrite (updateBoundingBoxes_draws f2 w1 h c el1 v Hdr1).
  - intros d Hd.
    destruct (HR2a d Hd) as (r & Hr & Htr & Hdr').
    destruct (HT2a d Hd) as (t & Ht & Htt & Hdt').
    exists r, t. repeat apply conj; assumption.
  - intros n Hn [Ht | Ht]; auto.
  - intros n Hn Ht Hk.
    eapply redraw_layer_gone; eauto.
  - intros n Hn Ht Hk.
    assert (KR : NoDup ((fun n => key (datum n)) <$> selectAll "rect" kids1)).
    { change (NoDup ((key ∘ datum) <$> selectAll "rect" kids1)).
      rewrite (list_fmap_compose datum key), HR1. exact HkD. }
    assert (KT : NoDup ((fun n => key (datum n)) <$> selectAll "text" kids1)).
    { change (NoDup ((key ∘ datum) <$> selectAll "text" kids1)).
      rewrite (list_fmap_compose datum key), HT1. exact HkD. }
    destruct (redraw_layer_kept _ _ _ _ _ _ _ _ Hl1 E2 KR KT n Hn Hk)
      as [KeptR KeptT].
    destruct Ht as [Ht | Ht].
    + destruct (KeptR Ht) as (d & HdD & Hkd & Hin).
      destruct (draw_rect_attrs (videoWidth v) (videoHeight v) T (set_datum d n))
        as (Hx & Hy & Hw & Hh & _ & _).
      exists (draw_rect classColors (videoWidth v) (videoHeight v) T
                (set_datum d n)), d.
      split; [exact Hin |].
      rewrite nid_draw_rect, tagName_draw_rect, datum_draw_rect.
      repeat apply conj; auto.
      intros Ht'. rewrite Ht in Ht'. discriminate Ht'.
    + destruct (KeptT Ht) as (d & HdD & Hkd & Hin).
      destruct (draw_label_attrs (videoWidth v) (videoHeight v) T (set_datum d n))
        as (Hx & Hy & Htx).
      exists (draw_label classColors (videoWidth v) (videoHeight v) T
                (set_datum d n)), d.
      split; [exact Hin |].
      rewrite nid_draw_label, tagName_draw_label, datum_draw_label.
      repeat apply conj; auto.
      intros Ht'. rewrite Ht in Ht'. discriminate Ht'.
Qed.

(** ** The drawn attributes *)

Lemma rects_redrawn (f : num) (w : world) h c el v :
  world_ok w -> drawable w h c el v ->
  snd (updateBoundingBoxes classColors f w) = Returned /\
  (forall d, d ∈ frameData f (boundingBoxData w) ->
     exists n, n ∈ primitives (fst (updateBoundingBoxes classColors f w)) /\
       tagName n = "rect" /\ datum n = d) /\
  (forall n, n ∈ primitives (fst (updateBoundingBoxes classColors f w)) ->
     tagName n = "rect" ->
     datum n ∈ frameData f (boundingBoxData w) /\
     exists n0, n = draw_rect classColors (videoWidth v) (videoHeight v)
                      (fit_video (videoWidth v) (videoHeight v) (video_rect v))
                      n0).
Proof.
  intros Hok Hdr. pose proof Hdr as [[_ _ Ho _ _] _].
  rewrite (primitives_redrawn f w h c el v Hdr).
  rewrite (updateBoundingBoxes_draws f w h c el v Hdr).
  destruct (redraw_layer classColors _ _ _ _ (boxLayer el) _)
    as [kids fresh'] eqn:E.
  destruct (redraw_layer_spec _ _ _ _ _ _ _ _ (world_ok_layer w h el Hok Ho) E)
    as (_ & _ & HR & _ & Hdrawn & _).
  destruct (perm_elem_datum "rect" kids _ HR) as [Ha Hb].
  cbn [fst snd]. split; [reflexivity |]. split; [exact Ha |].
  intros n Hn Ht. split; auto.
Qed.

(** ** Records with and without a bbox *)

Local Abbreviation parsed := (parsed num).


Lemma first_unboxed_Some (rs : list parsed) (i : nat) :
  first_unboxed rs = Some i ->
  (exists r, rs !! i = Some r /\ has_bbox r = false) /\
  (forall r, r ∈ take i rs -> has_bbox r = true).
Proof.
  revert i. induction rs as [| r rs IH]; intros i; [discriminate |].
  cbn [first_unboxed]. destruct (has_bbox r) eqn:E.
  - destruct (first_unboxed rs) as [j |]; [| discriminate].
    intros [= <-]. destruct (IH j eq_refl) as [H1 H2].
    split; [exact H1 |].
    intros r' [-> | Hr']%elem_of_cons; auto.
  - intros [= <-]. split; [exists r; auto |].
    intros r' Hr'. now apply elem_of_nil in Hr'.
Qed.




(** A [null] entry makes the redraw throw in the filter, once
    [currentFrame] is written. *)
Lemma updateBoundingBoxes_parsed_null (data : list (option parsed)) (f : num)
    (w : world) h :
  svg w = Some h -> None ∈ data ->
  updateBoundingBoxes_parsed classColors data f w
  = (set_currentFrame f w, Threw (TypeError "d.frame")).
Proof.
  intros Hs Hn. unfold updateBoundingBoxes_parsed. rewrite Hs.
  destruct data as [| e data]; [now apply elem_of_nil in Hn |].
  cbn [length Nat.eqb].
  assert (E : all_records (e :: data) = None).
  { revert Hn. generalize (e :: data). clear. intros l.
    induction l as [| [r |] l IH]; intros Hn.
    - now apply elem_of_nil in Hn.
    - apply elem_of_cons in Hn as [Hn | Hn]; [discriminate Hn |].
      cbn [all_records]. now rewrite (IH Hn).
    - reflexivity. }
  now rewrite E.
Qed.


Section Laws.

Context {Laws : JSNumberLaws num}.

Lemma finite_or_0_finite (x : num) : isFinite (finite_or_0 x) = true.
Proof.
  unfold finite_or_0. destruct (isFinite x) eqn:E; [exact E | apply isFinite_0].
Qed.

Lemma extent_or_0_finite (x : num) : isFinite (extent_or_0 x) = true.
Proof.
  unfold extent_or_0. destruct (isFinite x) eqn:E; cbn [andb].
  - destruct (x > lit_0)%js; [exact E | apply isFinite_0].
  - apply isFinite_0.
Qed.

Lemma positive_valid (v : video num) : positive_geometry v -> valid_geometry v.
Proof.
  intros [H1 H2 H3 H4]. split; now apply positive_truthy.
Qed.


(** C1, as amended: with positive native dimensions and a positive display
    rectangle the transform is [scale = min(w / nativeWidth, h / nativeHeight)],
    [actualWidth = nativeWidth * scale], [actualHeight = nativeHeight * scale],
    [xOffset = (w - actualWidth) / 2], [yOffset = (h - actualHeight) / 2];
    the redraw returns and draws a box for every record of the frame; and
    each box carries [x], [y], [width], [height] as the formulas of the
    transform give them wherever that value is finite (and, for the two
    extents, above 0), and 0 otherwise. *)
Theorem drawn_attributes_clamped (f : num) (w : world) h c el v :
  world_ok w ->
  shown w h c el v ->
  positive_geometry v ->
  let T := fit_video (videoWidth v) (videoHeight v) (video_rect v) in
  scale T = Math_min (width (video_rect v) / videoWidth v)%js
                     (height (video_rect v) / videoHeight v)%js /\
  actualWidth T = (videoWidth v * scale T)%js /\
  actualHeight T = (videoHeight v * scale T)%js /\
  xOffset T = ((width (video_rect v) - actualWidth T) / lit_2)%js /\
  yOffset T = ((height (video_rect v) - actualHeight T) / lit_2)%js /\
  snd (updateBoundingBoxes classColors f w) = Returned /\
  (forall d, d ∈ frameData f (boundingBoxData w) ->
     exists n, n ∈ primitives (fst (updateBoundingBoxes classColors f w)) /\
       tagName n = "rect" /\ datum n = d) /\
  (forall n, n ∈ primitives (fst (updateBoundingBoxes classColors f w)) ->
     tagName n = "rect" ->
     datum n ∈ frameData f (boundingBoxData w) /\
     attrs n !! "x"
       = Some (ANum (finite_or_0 (spec_x (videoWidth v) T (datum n)))) /\
     attrs n !! "y"
       = Some (ANum (finite_or_0 (spec_y (videoHeight v) T (datum n)))) /\
     attrs n !! "width"
       = Some (ANum (extent_or_0 (spec_width (videoWidth v) T (datum n)))) /\
     attrs n !! "height"
       = Some (ANum (extent_or_0 (spec_height (videoHeight v) T (datum n))))).
Proof.
  intros Hok Hsh Hpos T.
  assert (Hdr : drawable w h c el v) by (split; [exact Hsh | now apply positive_valid]).
  destruct (rects_redrawn f w h c el v Hok Hdr) as (Hret & Hall & Hdrawn).
  do 5 (split; [reflexivity |]).
  split; [exact Hret |]. split; [exact Hall |].
  intros n Hn Ht. destruct (Hdrawn n Hn Ht) as (HD & n0 & ->).
  destruct (draw_rect_attrs (videoWidth v) (videoHeight v) T n0)
    as (Hx & Hy & Hw & Hh & _).
  rewrite datum_draw_rect in *.
  split; [exact HD |]. split; [exact Hx |]. split; [exact Hy |].
  split; [exact Hw | exact Hh].
Qed.

End Laws.

(** X1: an initialization that fails where no surface existed before
    leaves none, logs the error and returns; every redraw after it does
    nothing. *)
Lemma initialize_failure_without_surface (videoContainer : nat) (w : world) :
  svg w = None ->
  containers w !! videoContainer ≫= content_video = None ->
  snd (initializeBoundingBoxes classColors videoContainer w) = Returned /\
  svg (fst (initializeBoundingBoxes classColors videoContainer w)) = None /\
  console (fst (initializeBoundingBoxes classColors videoContainer w))
    = console w ++ ["Error initializing bounding boxes:"] /\
  forall f,
    updateBoundingBoxes classColors f
      (fst (initializeBoundingBoxes classColors videoContainer w))
    = (fst (initializeBoundingBoxes classColors videoContainer w), Returned).
Proof.
  intros Hs Hv.
  assert (E : exists w',
             initializeBoundingBoxes classColors videoContainer w
               = (w', Returned) /\ svg w' = None /\
             console w' = console w ++ ["Error initializing bounding boxes:"]).
  { unfold initializeBoundingBoxes, try_initialize.
    cbn [containers set_overlays].
    destruct (containers w !! videoContainer) as [box |]; cbn [mbind option_bind] in Hv.
    - rewrite Hv. eexists. split; [reflexivity |]. split; [exact Hs | reflexivity].
    - eexists. split; [reflexivity |]. split; [exact Hs | reflexivity]. }
  destruct E as (w' & -> & Hs' & Hc). cbn [fst snd].
  repeat apply conj; auto.
  intros f. apply updateBoundingBoxes_guard. now left.
Qed.

End OverlayFacts.

(** * The module over time *)

Section Reachable.

Context {num : Type} {JSN : JSNumber num}.
Variable classColors : list (string * string).

Local Abbreviation detection := (detection num).
Local Abbreviation node := (node num).
Local Abbreviation overlay := (overlay num).
Local Abbreviation world := (world num).
Local Abbreviation event := (event num).
Local Abbreviation update := (updateBoundingBoxes classColors).
Local Abbreviation initialize := (initializeBoundingBoxes classColors).

(** ** The paths of a redraw *)

Lemma updateBoundingBoxes_paths (f : num) (w : world) :
  ((svg w = None \/ boundingBoxData w = []) /\ update f w = (w, Returned)) \/
  (exists h, svg w = Some h /\ boundingBoxData w <> [] /\
     ((overlays w !! h = None /\
       update f w = (set_currentFrame f w, Threw (TypeError "svg.node"))) \/
      (exists el, overlays w !! h = Some el /\ parentNode el = None /\
         update f w
         = (set_currentFrame f w, Threw (TypeError "parentNode.querySelector"))) \/
      (exists el c, overlays w !! h = Some el /\ parentNode el = Some c /\
         update f w = (set_currentFrame f w, Returned)) \/
      (exists el c v, drawable w h c el v))).
Proof.
  destruct (svg w) as [h |] eqn:Hs.
  2: { left. split; [now left |]. apply updateBoundingBoxes_guard. now left. }
  destruct (boundingBoxData w) as [| d0 data] eqn:Hd.
  { left. split; [now right |]. apply updateBoundingBoxes_guard. now right. }
  rewrite <- Hd in *.
  assert (Hne : boundingBoxData w <> []) by (rewrite Hd; discriminate).
  right. exists h. split; [reflexivity |]. split; [exact Hne |].
  destruct (overlays w !! h) as [el |] eqn:Ho.
  2: { left. split; [reflexivity |].
       unfold updateBoundingBoxes. rewrite Hs, (loaded_length w Hne).
       simpl. now rewrite Ho. }
  right.
  destruct (parentNode el) as [c |] eqn:Hp.
  2: { left. exists el. split; [reflexivity |]. split; [exact Hp |].
       unfold updateBoundingBoxes. rewrite Hs, (loaded_length w Hne).
       simpl. now rewrite Ho, Hp. }
  right.
  destruct (containers w !! c ≫= content_video) as [v |] eqn:Hv.
  2: { left. exists el, c. split; [reflexivity |]. split; [exact Hp |].
       unfold updateBoundingBoxes. rewrite Hs, (loaded_length w Hne).
       simpl. now rewrite Ho, Hp, Hv. }
  destruct (negb (ToBoolean (videoWidth v)) || negb (ToBoolean (videoHeight v))
            || negb (ToBoolean (width (video_rect v)))
            || negb (ToBoolean (height (video_rect v)))) eqn:Hg.
  { left. exists el, c. split; [reflexivity |]. split; [exact Hp |].
    unfold updateBoundingBoxes. rewrite Hs, (loaded_length w Hne).
    simpl. now rewrite Ho, Hp, Hv, Hg. }
  right. exists el, c, v.
  repeat apply orb_false_elim in Hg as [Hg ?].
  split; split; auto; now apply negb_false_iff.
Qed.

(** ** Replacing an overlay *)

Lemma remove_first_overlay_length (c : nat) (els : list overlay) :
  length (remove_first_overlay c els) = length els.
Proof.
  rewrite <- (length_fmap boxLayer), remove_first_overlay_layers.
  apply length_fmap.
Qed.

Lemma remove_first_overlay_legend (c : nat) (els : list overlay) :
  legend <$> remove_first_overlay c els = legend <$> els.
Proof.
  induction els as [| el els IH]; [reflexivity |]. simpl.
  destruct (bool_decide (parentNode el = Some c)).
  - reflexivity.
  - rewrite !fmap_cons. now rewrite IH.
Qed.

Lemma remove_first_overlay_sub (c x : nat) (els : list overlay) :
  x ∈ omap parentNode (remove_first_overlay c els) ->
  x ∈ omap parentNode els.
Proof.
  induction els as [| el els IH]; [auto |]. simpl.
  destruct (bool_decide (parentNode el = Some c)) eqn:E.
  - simpl. intros H. destruct (parentNode el); [| exact H].
    apply elem_of_cons. now right.
  - simpl. destruct (parentNode el) as [p |]; [| exact IH].
    intros [-> | H]%elem_of_cons; apply elem_of_cons; auto.
Qed.

Lemma remove_first_overlay_attached (c : nat) (els : list overlay) :
  NoDup (omap parentNode els) ->
  NoDup (omap parentNode (remove_first_overlay c els)) /\
  c ∉ omap parentNode (remove_first_overlay c els).
Proof.
  induction els as [| el els IH]; simpl.
  - intros _. split; [constructor | apply not_elem_of_nil].
  - destruct (bool_decide (parentNode el = Some c)) eqn:E.
    + apply bool_decide_eq_true in E. rewrite E. simpl.
      intros [Hc Hnd]%NoDup_cons. auto.
    + apply bool_decide_eq_false in E. simpl.
      destruct (parentNode el) as [p |]; [| exact IH].
      intros [Hp Hnd]%NoDup_cons. destruct (IH Hnd) as [IH1 IH2].
      split.
      * apply NoDup_cons. split; [| exact IH1].
        intros Hin. apply Hp. eapply remove_first_overlay_sub; eauto.
      * intros [-> | Hin]%elem_of_cons; [now apply E | now apply IH2].
Qed.

Lemma omap_fmap_ext {A B C : Type} (f : A -> option B) (g : A -> C)
    (l l' : list A) :
  (forall a b, g a = g b -> f a = f b) ->
  g <$> l = g <$> l' -> omap f l = omap f l'.
Proof.
  intros Hfg. revert l'. induction l as [| a l IH]; intros [| b l'] E;
    try discriminate; [reflexivity |].
  rewrite !fmap_cons in E. injection E as E1 E2.
  simpl. rewrite (Hfg a b E1).
  destruct (f b); [f_equal |]; apply IH; exact E2.
Qed.

Lemma attached_to_none (c : nat) (els : list overlay) :
  c ∉ omap parentNode els -> attached_to c els = [].
Proof.
  unfold attached_to. induction els as [| e els IH]; intros Hc; [reflexivity |].
  rewrite filter_cons. simpl in Hc.
  destruct (decide (parentNode e = Some c)) as [E | E].
  - rewrite E in Hc. exfalso. apply Hc. apply elem_of_cons. now left.
  - apply IH. destruct (parentNode e); [| exact Hc].
    intros Hin. apply Hc. apply elem_of_cons. now right.
Qed.

Lemma attached_to_length (c : nat) (els : list overlay) :
  NoDup (omap parentNode els) -> length (attached_to c els) <= 1.
Proof.
  induction els as [| el els IH]; simpl; [unfold attached_to; simpl; lia |].
  unfold attached_to in *. rewrite filter_cons.
  destruct (decide (parentNode el = Some c)) as [E | E].
  - rewrite E. intros [Hc Hnd]%NoDup_cons.
    pose proof (attached_to_none c els Hc) as Hnone.
    unfold attached_to in Hnone. rewrite Hnone. simpl. lia.
  - destruct (parentNode el); [| exact IH].
    intros [_ Hnd]%NoDup_cons. auto.
Qed.

(** ** What a redraw leaves in a layer *)

Lemma redraw_layer_painted (videoWidth videoHeight : num) (g : fit num)
    (D : list detection) (kids kids' : list node) fresh fresh' :
  layer_ok kids fresh ->
  Forall (painted classColors) kids ->
  redraw_layer classColors videoWidth videoHeight g D kids fresh
    = (kids', fresh') ->
  Forall (painted classColors) kids'.
Proof.
  intros Hok Hp E.
  destruct (rect_pass classColors videoWidth videoHeight g D kids fresh)
    as (kA & fA & EA & Eq).
  rewrite Eq in E.
  destruct (keyed_update_ok "rect" _
              (nid_draw_rect classColors videoWidth videoHeight g)
              D kids kA fresh fA Hok EA) as [HokA _].
  apply Forall_forall. intros n Hn.
  apply (keyed_update_elem "text" _ D kA kids' fA fresh' HokA E) in Hn.
  destruct Hn as [[Hn Ht] | [(n0 & d & Hn0 & Ht & _ & ->) | (e & He & ->)]].
  - apply (keyed_update_elem "rect" _ D kids kA fresh fA Hok EA) in Hn.
    destruct Hn as [[Hn Hr] | [(n0 & d & Hn0 & Hr & _ & ->) | (e & He & ->)]].
    + rewrite Forall_forall in Hp. now apply Hp.
    + left. split; [now rewrite tagName_draw_rect | eauto].
    + left. apply elem_of_entered in He as (He & _).
      split; [now rewrite tagName_draw_rect | eauto].
  - right. split; [now rewrite tagName_draw_label | eauto].
  - right. apply elem_of_entered in He as (He & _).
    split; [now rewrite tagName_draw_label | eauto].
Qed.

(** ** The invariant *)

Lemma consistent_initial (page : gmap nat (container num)) :
  consistent classColors (initial page).
Proof.
  split; simpl; try constructor; try discriminate; auto.
Qed.

(** A state that differs from a consistent one in [boundingBoxData],
    [currentFrame], the containers, the console, and the position of its
    overlays only, is consistent. *)
Lemma consistent_same_layers (w w' : world) :
  svg w' = svg w -> observed w' = observed w -> fresh w' = fresh w ->
  boxLayer <$> overlays w' = boxLayer <$> overlays w ->
  parentNode <$> overlays w' = parentNode <$> overlays w ->
  legend <$> overlays w' = legend <$> overlays w ->
  consistent classColors w -> consistent classColors w'.
Proof.
  intros Hs Hob Hf Hb Hp Hl [C1 C2 C3 C4 C5 C6 C7].
  assert (Hlen : length (overlays w') = length (overlays w)).
  { rewrite <- (length_fmap boxLayer), Hb. apply length_fmap. }
  split.
  - now apply (world_ok_layers w w').
  - intros h. rewrite Hs, Hlen. apply C2.
  - rewrite Hs. intros H. specialize (C3 H). rewrite C3 in Hlen.
    now apply nil_length_inv.
  - now rewrite Hob, Hlen.
  - rewrite (omap_fmap_ext parentNode parentNode (overlays w') (overlays w));
      auto.
  - apply (Forall_fmap legend (fun l => l = make_legend classColors)).
    rewrite Hl. now apply Forall_fmap.
  - now rewrite Hb.
Qed.

Lemma updateBoundingBoxes_consistent (f : num) (w : world) :
  consistent classColors w -> consistent classColors (fst (update f w)).
Proof.
  intros C.
  destruct (updateBoundingBoxes_paths f w)
    as [[_ ->] | (h & Hs & Hne &
         [[_ ->] | [(el & _ & _ & ->) | [(el & c & _ & _ & ->)
                                        | (el & c & v & Hdr)]]])];
    try exact C;
    try (apply (consistent_same_layers w); auto; fail).
  pose proof C as [C1 C2 C3 C4 C5 C6 C7].
  pose proof Hdr as [[_ _ Ho _ _] _].
  assert (Hok' := updateBoundingBoxes_ok classColors f w C1).
  rewrite (updateBoundingBoxes_draws classColors f w h c el v Hdr) in *.
  destruct (redraw_layer classColors _ _ _ _ (boxLayer el) (fresh w))
    as [kids fresh'] eqn:E.
  cbn [fst snd] in *.
  split; cbn [svg observed overlays fresh set_fresh set_overlays
              set_currentFrame].
  - exact Hok'.
  - intros h'. rewrite length_insert. apply C2.
  - rewrite Hs. discriminate.
  - now rewrite length_insert.
  - rewrite (omap_fmap_ext parentNode parentNode _ (overlays w)); auto.
    rewrite list_fmap_insert. apply list_insert_id.
    rewrite list_lookup_fmap, Ho. reflexivity.
  - apply Forall_insert; [exact C6 |].
    rewrite Forall_forall in C6. apply (C6 el).
    eapply list_elem_of_lookup_2; eauto.
  - rewrite list_fmap_insert. apply Forall_insert; [exact C7 |].
    cbn [boxLayer set_boxLayer].
    eapply redraw_layer_painted; [| | exact E].
    + eapply world_ok_layer; eauto.
    + rewrite Forall_forall in C7. apply C7.
      apply list_elem_of_fmap. exists el. split; [reflexivity |].
      eapply list_elem_of_lookup_2; eauto.
Qed.

Lemma initializeBoundingBoxes_consistent (videoContainer : nat) (w : world) :
  consistent classColors w ->
  consistent classColors (fst (initialize videoContainer w)).
Proof.
  intros C. pose proof C as [C1 C2 C3 C4 C5 C6 C7].
  assert (Hok' := initializeBoundingBoxes_ok classColors videoContainer w C1).
  destruct (remove_first_overlay_attached videoContainer (overlays w) C5)
    as [A1 A2].
  assert (Hleg : Forall (fun el => legend el = make_legend classColors)
                   (remove_first_overlay videoContainer (overlays w))).
  { apply (Forall_fmap legend (fun l => l = make_legend classColors)).
    rewrite remove_first_overlay_legend. now apply Forall_fmap. }
  assert (Hfail : consistent classColors
            (console_error "Error initializing bounding boxes:"
               (set_overlays
                  (remove_first_overlay videoContainer (overlays w)) w))).
  { split; cbn [svg observed overlays fresh set_overlays console_error].
    - apply (world_ok_layers w); auto. simpl.
      apply remove_first_overlay_layers.
    - intros h. rewrite remove_first_overlay_length. apply C2.
    - intros H. rewrite (C3 H). reflexivity.
    - now rewrite remove_first_overlay_length.
    - exact A1.
    - exact Hleg.
    - now rewrite remove_first_overlay_layers. }
  unfold initializeBoundingBoxes, try_initialize in *.
  cbn [containers set_overlays overlays] in *.
  destruct (containers w !! videoContainer) as [box |]; [| exact Hfail].
  destruct (content_video box) as [videoElement |]; [| exact Hfail].
  cbn [fst] in *.
  split; cbn [svg observed overlays fresh set_overlays set_observed set_svg].
  - exact Hok'.
  - intros h [= <-]. rewrite length_app. simpl. lia.
  - discriminate.
  - rewrite !length_app, remove_first_overlay_length. simpl. lia.
  - rewrite omap_app. simpl. apply NoDup_app. split; [exact A1 |].
    split; [| apply NoDup_singleton].
    intros x Hx [-> | []%elem_of_nil]%elem_of_cons. now apply A2.
  - apply Forall_app. split; [exact Hleg |]. now repeat constructor.
  - rewrite fmap_app. apply Forall_app. split.
    + now rewrite remove_first_overlay_layers.
    + simpl. repeat constructor.
Qed.

Lemma loadBoundingBoxData_consistent (fetch : string -> fetched num)
    (dataFile : string) (w : world) :
  consistent classColors w ->
  consistent classColors (fst (loadBoundingBoxData fetch dataFile w)).
Proof.
  intros C. unfold loadBoundingBoxData, try_load.
  destruct (fetch dataFile); cbn [fst];
    apply (consistent_same_layers w); auto.
Qed.

Lemma placed_same_layers (r : DOMRect num) (h : nat) (els : list overlay) :
  boxLayer <$> alter (set_placed r) h els = boxLayer <$> els /\
  parentNode <$> alter (set_placed r) h els = parentNode <$> els /\
  legend <$> alter (set_placed r) h els = legend <$> els.
Proof.
  revert h. induction els as [| el els IH]; intros [| h];
    try (split; [| split]; reflexivity).
  destruct (IH h) as (E1 & E2 & E3).
  change (alter (set_placed r) (S h) (el :: els))
    with (el :: alter (set_placed r) h els).
  rewrite !fmap_cons, E1, E2, E3. auto.
Qed.

Lemma resizeObserved_consistent (newVideoRect containerRect : DOMRect num)
    (w : world) :
  consistent classColors w ->
  consistent classColors
    (fst (resizeObserved classColors newVideoRect containerRect w)).
Proof.
  intros C. unfold resizeObserved.
  destruct (svg w) as [h |] eqn:Hs; [| exact C].
  apply updateBoundingBoxes_consistent.
  destruct (placed_same_layers (cover newVideoRect containerRect) h (overlays w))
    as (E1 & E2 & E3).
  apply (consistent_same_layers w); auto.
Qed.

(** While the container holds the video the observer was made for, the
    callback reads the two rectangles off the page. *)
Lemma resizeObserverCallback_observed (videoContainer : nat) (w : world)
    (box : container num) (v : video num) :
  containers w !! videoContainer = Some box -> content_video box = Some v ->
  resizeObserverCallback classColors videoContainer w
  = resizeObserved classColors (video_rect v) (container_rect box) w.
Proof.
  intros Hc Hv. unfold resizeObserverCallback, resizeObserved.
  rewrite Hc, Hv. now destruct (svg w).
Qed.

(** An overlay taken out of the document keeps everything but its parent. *)
Lemma alter_detach_layers (h : nat) (els : list overlay) :
  boxLayer <$> alter detach h els = boxLayer <$> els.
Proof.
  revert h. induction els as [| el els IH]; intros [| h]; try reflexivity.
  change (alter detach (S h) (el :: els)) with (el :: alter detach h els).
  rewrite !fmap_cons. now rewrite IH.
Qed.

Lemma alter_detach_legend (h : nat) (els : list overlay) :
  legend <$> alter detach h els = legend <$> els.
Proof.
  revert h. induction els as [| el els IH]; intros [| h]; try reflexivity.
  change (alter detach (S h) (el :: els)) with (el :: alter detach h els).
  rewrite !fmap_cons. now rewrite IH.
Qed.

Lemma alter_detach_sub (h : nat) (els : list overlay) :
  sublist (omap parentNode (alter detach h els)) (omap parentNode els).
Proof.
  revert h. induction els as [| el els IH]; intros [| h]; try reflexivity.
  - change (alter detach 0 (el :: els)) with (detach el :: els).
    cbn [omap list_omap detach parentNode].
    destruct (parentNode el); [now apply sublist_cons | reflexivity].
  - change (alter detach (S h) (el :: els)) with (el :: alter detach h els).
    cbn [omap list_omap].
    destruct (parentNode el); [apply sublist_skip |]; apply IH.
Qed.

Lemma overlayRemoved_consistent (h : nat) (w : world) :
  consistent classColors w ->
  consistent classColors (set_overlays (alter detach h (overlays w)) w).
Proof.
  intros [C1 C2 C3 C4 C5 C6 C7].
  split; cbn [svg observed overlays fresh set_overlays].
  - apply (world_ok_layers w); auto. apply alter_detach_layers.
  - intros k. rewrite length_alter. apply C2.
  - intros H. now rewrite (C3 H).
  - now rewrite length_alter.
  - exact (sublist_NoDup _ _ C5 (alter_detach_sub h (overlays w))).
  - apply (Forall_fmap legend (fun l => l = make_legend classColors)).
    rewrite alter_detach_legend. now apply Forall_fmap.
  - now rewrite alter_detach_layers.
Qed.

Lemma step_consistent (e : event) (w : world) :
  consistent classColors w -> consistent classColors (fst (step classColors e w)).
Proof.
  intros C.
  destruct e as [c | fetch [dataFile |] | f | | c r1 r2 | page | h];
    cbn [step onDataFileChanged]; [| | | | | | | now apply overlayRemoved_consistent].
  - now apply initializeBoundingBoxes_consistent.
  - now apply loadBoundingBoxData_consistent.
  - exact C.
  - now apply updateBoundingBoxes_consistent.
  - unfold handleResize. destruct (svg w); [| exact C].
    now apply updateBoundingBoxes_consistent.
  - destruct (bool_decide (c ∈ observed w)); [| exact C].
    now apply resizeObserved_consistent.
  - apply (consistent_same_layers w); auto.
Qed.

Lemma run_snoc (es : list event) (e : event) (w : world) :
  run classColors (es ++ [e]) w
  = fst (step classColors e (run classColors es w)).
Proof. unfold run. now rewrite foldl_app. Qed.

Lemma run_consistent (es : list event) (w : world) :
  consistent classColors w -> consistent classColors (run classColors es w).
Proof.
  intros C. induction es as [| e es IH] using rev_ind; [exact C |].
  rewrite run_snoc. now apply step_consistent.
Qed.

(** ** Overlays, observers and the surface *)

(** X2: in every state the module reaches, no container carries two
    overlays, every overlay ever created still has its observer (none is
    ever disconnected), and [svg], once set, names the overlay created
    last. *)
Theorem reachable_overlays_and_observers
    (page : gmap nat (container num)) (es : list event) :
  let w := run classColors es (initial page) in
  (forall c, length (attached_to c (overlays w)) <= 1) /\
  length (observed w) = length (overlays w) /\
  (forall h, svg w = Some h -> S h = length (overlays w)) /\
  (svg w = None -> overlays w = []).
Proof.
  destruct (run_consistent es (initial page) (consistent_initial page))
    as [_ C2 C3 C4 C5 _ _].
  cbn zeta. split; [| auto].
  intros c. now apply attached_to_length.
Qed.

Lemma initializeBoundingBoxes_returns (videoContainer : nat) (w : world) :
  snd (initialize videoContainer w) = Returned.
Proof.
  unfold initializeBoundingBoxes.
  now destruct (try_initialize classColors videoContainer w) as [w' [| e]].
Qed.

Lemma loadBoundingBoxData_returns (fetch : string -> fetched num)
    (dataFile : string) (w : world) :
  snd (loadBoundingBoxData fetch dataFile w) = Returned.
Proof.
  unfold loadBoundingBoxData.
  now destruct (try_load (fetch dataFile) w) as [w' [| e]].
Qed.

Lemma updateBoundingBoxes_throws (f : num) (w : world) (err : js_error) :
  (forall h, svg w = Some h -> h < length (overlays w)) ->
  snd (update f w) = Threw err ->
  err = TypeError "parentNode.querySelector" /\
  exists h el, svg w = Some h /\ overlays w !! h = Some el /\
    parentNode el = None /\ boundingBoxData w <> [].
Proof.
  intros Hlt.
  destruct (updateBoundingBoxes_paths f w)
    as [[_ ->] | (h & Hs & Hne &
         [[Ho _] | [(el & Ho & Hp & ->) | [(el & c & _ & _ & ->)
                                           | (el & c & v & Hdr)]]])];
    cbn [snd]; try discriminate.
  - apply lookup_ge_None in Ho. specialize (Hlt h Hs). lia.
  - intros [= <-]. split; [reflexivity |]. exists h, el. auto.
  - now rewrite (updateBoundingBoxes_draws classColors f w h c el v Hdr).
Qed.

(** X3: from a state the module has reached, an event ends in an exception
    in two cases only: a [dataFileChanged] event without detail, and a
    redraw (asked for directly, by a window resize or by an observer) while
    the overlay [svg] names has been removed from the document; the error
    is then the TypeError of [svg.node().parentNode.querySelector], and
    records are loaded.  In particular [svg.node()] always finds an element
    and an observer never runs with [svg] null. *)
Theorem reachable_exceptions (page : gmap nat (container num))
    (es : list event) (e : event) (err : js_error) :
  let w := run classColors es (initial page) in
  snd (step classColors e w) = Threw err ->
  (exists fetch, e = DataFileChanged fetch None /\
     err = TypeError "event.detail") \/
  (err = TypeError "parentNode.querySelector" /\
   exists h el, svg w = Some h /\ overlays w !! h = Some el /\
     parentNode el = None /\ boundingBoxData w <> []).
Proof.
  cbn zeta.
  pose proof (run_consistent es (initial page) (consistent_initial page)) as C.
  revert C. generalize (run classColors es (initial page)). intros w C.
  pose proof C as [_ C2 C3 C4 _ _ _].
  assert (Hlt : forall h, svg w = Some h -> h < length (overlays w)).
  { intros h Hs. specialize (C2 h Hs). lia. }
  destruct e as [c | fetch [dataFile |] | f | | c r1 r2 | page' | h'];
    cbn [step onDataFileChanged]; [| | | | | | | discriminate].
  - now rewrite initializeBoundingBoxes_returns.
  - now rewrite loadBoundingBoxData_returns.
  - cbn [snd]. intros [= <-]. left. eauto.
  - intros H. right. now apply (updateBoundingBoxes_throws f w).
  - intros H. right.
    apply (updateBoundingBoxes_throws (currentFrame w) w); [exact Hlt |].
    revert H. unfold handleResize. destruct (svg w); [auto | discriminate].
  - destruct (bool_decide (c ∈ observed w)) eqn:Hc; [| discriminate].
    apply bool_decide_eq_true in Hc. unfold resizeObserved.
    destruct (svg w) as [h |] eqn:Hs.
    + intros H. right.
      apply updateBoundingBoxes_throws in H
        as (-> & h' & el' & Hs' & Ho' & Hp' & Hd').
      2: { cbn [svg overlays set_overlays]. intros h' Hh'.
           rewrite length_alter. rewrite <- Hs in Hlt. now apply Hlt. }
      cbn [svg overlays set_overlays boundingBoxData] in *.
      rewrite Hs in Hs'. injection Hs' as <-.
      rewrite list_lookup_alter in Ho'.
      destruct (decide (h = h)) as [_ | []]; [| reflexivity].
      destruct (overlays w !! h) as [el |] eqn:Ho; [| discriminate].
      injection Ho' as <-. split; [reflexivity |]. exists h, el. auto.
    + exfalso. rewrite (C3 eq_refl) in C4.
      apply nil_length_inv in C4. rewrite C4 in Hc. now apply elem_of_nil in Hc.
  - discriminate.
Qed.

(** ** After a successful initialization *)

Lemma initializeBoundingBoxes_attached (videoContainer : nat) (w : world)
    (v : video num) :
  containers w !! videoContainer ≫= content_video = Some v ->
  surface_attached (fst (initialize videoContainer w)).
Proof.
  intros Hv. unfold initializeBoundingBoxes, try_initialize.
  cbn [containers set_overlays overlays].
  destruct (containers w !! videoContainer) as [box |]; [| discriminate].
  simpl in Hv. rewrite Hv. cbn [fst].
  eexists _, _, videoContainer.
  cbn [svg overlays set_overlays set_observed set_svg].
  split; [reflexivity |].
  split; [apply list_lookup_middle; reflexivity | reflexivity].
Qed.

Lemma updateBoundingBoxes_attached (f : num) (w : world) :
  surface_attached w ->
  surface_attached (fst (update f w)) /\ snd (update f w) = Returned.
Proof.
  intros (h & el & c & Hs & Ho & Hp).
  destruct (updateBoundingBoxes_paths f w)
    as [[_ ->] | (h' & Hs' & Hne &
         [[Ho' _] | [(el' & Ho' & Hp' & _) | [(el' & c' & _ & _ & ->)
                                             | (el' & c' & v & Hdr)]]])].
  - split; [| reflexivity]. exists h, el, c. auto.
  - congruence.
  - rewrite Hs in Hs'. injection Hs' as <-. congruence.
  - split; [| reflexivity]. exists h, el, c. auto.
  - rewrite (updateBoundingBoxes_draws classColors f w h' c' el' v Hdr).
    split; [| reflexivity].
    destruct Hdr as [[Hs'' _ Ho'' Hp'' _] _].
    exists h', (set_boxLayer
                  (fst (redraw_layer classColors (videoWidth v) (videoHeight v)
                          (fit_video (videoWidth v) (videoHeight v) (video_rect v))
                          (frameData f (boundingBoxData w)) (boxLayer el')
                          (fresh w))) el'), c'.
    cbn [fst svg overlays set_fresh set_overlays set_currentFrame].
    split; [exact Hs'' |]. split; [| exact Hp''].
    apply list_lookup_insert_eq. eapply lookup_lt_Some; eauto.
Qed.

Lemma plain_step_attached (e : event) (w : world) :
  plain e -> surface_attached w ->
  surface_attached (fst (step classColors e w)) /\
  snd (step classColors e w) = Returned.
Proof.
  intros He Hat.
  destruct e as [c | fetch [dataFile |] | f | | c r1 r2 | page' | h'];
    cbn [step onDataFileChanged plain] in *; try contradiction.
  - split; [| apply loadBoundingBoxData_returns].
    destruct Hat as (h & el & c & Hs & Ho & Hp).
    unfold loadBoundingBoxData, try_load.
    destruct (fetch _); cbn [fst]; exists h, el, c; auto.
  - now apply updateBoundingBoxes_attached.
  - unfold handleResize. destruct (svg w); [| auto].
    now apply updateBoundingBoxes_attached.
  - destruct (bool_decide (c ∈ observed w)); [| auto].
    destruct Hat as (h & el & c' & Hs & Ho & Hp).
    unfold resizeObserved. rewrite Hs.
    apply updateBoundingBoxes_attached.
    exists h, (set_placed (cover r1 r2) el), c'.
    cbn [svg overlays set_overlays].
    split; [exact Hs |]. split; [| exact Hp].
    rewrite list_lookup_alter.
    destruct (decide (h = h)) as [_ | []]; [| reflexivity].
    now rewrite Ho.
  - split; [| reflexivity].
    destruct Hat as (h & el & c & Hs & Ho & Hp). exists h, el, c. auto.
Qed.

Lemma plain_run_attached (es : list event) (w : world) :
  Forall plain es -> surface_attached w ->
  surface_attached (run classColors es w).
Proof.
  induction es as [| e es IH] using rev_ind; intros Hes Hat; [exact Hat |].
  rewrite run_snoc. apply Forall_app in Hes as [Hes He].
  apply Forall_cons in He as [He _].
  exact (proj1 (plain_step_attached e _ He (IH Hes Hat))).
Qed.

(** X4: once [initializeBoundingBoxes] has run on a container that holds a
    video, no redraw, window resize, observer callback, load or change of
    the containers and their videos raises an exception, in whatever state
    the module was before and however many of these follow, until the next
    initialization or until the page takes the overlay out of the
    document; once the page has taken out the overlay [svg] names, a
    redraw with records loaded throws. *)
Theorem no_exception_after_initialize (videoContainer : nat) (w : world)
    (v : video num) (es : list event) (e : event) :
  containers w !! videoContainer ≫= content_video = Some v ->
  Forall plain es ->
  let w' := run classColors es (fst (initialize videoContainer w)) in
  (plain e -> snd (step classColors e w') = Returned) /\
  (forall h f, svg w' = Some h -> boundingBoxData w' <> [] ->
     snd (step classColors (Update f)
            (fst (step classColors (OverlayRemoved h) w')))
     = Threw (TypeError "parentNode.querySelector")).
Proof.
  intros Hv Hes w'.
  assert (Hat : surface_attached w').
  { apply plain_run_attached; [exact Hes |].
    now apply (initializeBoundingBoxes_attached videoContainer w v). }
  split.
  - intros He. now apply plain_step_attached.
  - intros h f Hs Hd. destruct Hat as (h' & el & c & Hs' & Ho & _).
    rewrite Hs in Hs'. injection Hs' as <-.
    cbn [step fst]. unfold updateBoundingBoxes.
    cbn [svg boundingBoxData overlays set_overlays set_currentFrame].
    rewrite Hs, (loaded_length w' Hd).
    rewrite list_lookup_alter.
    destruct (decide (h = h)) as [_ | []]; [| reflexivity].
    rewrite Ho. reflexivity.
Qed.

(** ** What a redraw leaves alone *)

Lemma updateBoundingBoxes_frame (f : num) (w : world) :
  boundingBoxData (fst (update f w)) = boundingBoxData w /\
  svg (fst (update f w)) = svg w /\
  containers (fst (update f w)) = containers w /\
  observed (fst (update f w)) = observed w /\
  console (fst (update f w)) = console w /\
  parentNode <$> overlays (fst (update f w)) = parentNode <$> overlays w /\
  placed <$> overlays (fst (update f w)) = placed <$> overlays w /\
  legend <$> overlays (fst (update f w)) = legend <$> overlays w /\
  (forall h, svg w <> Some h ->
     overlays (fst (update f w)) !! h = overlays w !! h).
Proof.
  destruct (updateBoundingBoxes_paths f w)
    as [[_ ->] | (h & Hs & Hne &
         [[_ ->] | [(el & _ & _ & ->) | [(el & c & _ & _ & ->)
                                        | (el & c & v & Hdr)]]])];
    cbn [fst]; try (repeat apply conj; reflexivity).
  rewrite (updateBoundingBoxes_draws classColors f w h c el v Hdr).
  destruct Hdr as [[_ _ Ho _ _] _].
  cbn [fst boundingBoxData svg containers observed console overlays
       set_fresh set_overlays set_currentFrame].
  rewrite !list_fmap_insert.
  cbn [parentNode placed legend set_boxLayer].
  rewrite !list_insert_id by (rewrite list_lookup_fmap, Ho; reflexivity).
  repeat apply conj; try reflexivity.
  intros h' Hh'. apply list_lookup_insert_ne. congruence.
Qed.

(** X5: [updateBoundingBoxes] writes [currentFrame] and the box layer of
    the overlay [svg] names, and nothing else: not the records, not [svg],
    not the page, not the console, not the observers; no overlay is added
    or removed, none changes its container, position or legend, and the
    overlays other than the one [svg] names are left as they were. *)
Theorem redraw_touches_one_layer (f : num) (w : world) :
  let w' := fst (update f w) in
  boundingBoxData w' = boundingBoxData w /\ svg w' = svg w /\
  containers w' = containers w /\ observed w' = observed w /\
  console w' = console w /\
  parentNode <$> overlays w' = parentNode <$> overlays w /\
  placed <$> overlays w' = placed <$> overlays w /\
  legend <$> overlays w' = legend <$> overlays w /\
  (forall h, svg w <> Some h -> overlays w' !! h = overlays w !! h).
Proof. exact (updateBoundingBoxes_frame f w). Qed.

(** ** Finite geometry everywhere *)

Section FiniteGeometry.

Context {Laws : JSNumberLaws num}.

Lemma painted_finite_geometry (n : node) :
  painted classColors n -> finite_geometry n.
Proof.
  intros [[Ht (vw & vh & g & n0 & E)] | [Ht (vw & vh & g & n0 & E)]].
  - left. split; [exact Ht |]. subst n.
    destruct (draw_rect_attrs classColors vw vh g n0)
      as (Hx & Hy & Hw & Hh & _ & _).
    destruct (draw_rect_constants classColors vw vh g n0) as (Hc & _ & _).
    split; [exact Hc |].
    split; [| split; [| split]].
    + eexists. split; [exact Hx |].
      apply (finite_or_0_finite (spec_x vw g (datum n0))).
    + eexists. split; [exact Hy |].
      apply (finite_or_0_finite (spec_y vh g (datum n0))).
    + eexists. split; [exact Hw |].
      apply (extent_or_0_finite (spec_width vw g (datum n0))).
    + eexists. split; [exact Hh |].
      apply (extent_or_0_finite (spec_height vh g (datum n0))).
  - right. split; [exact Ht |]. subst n.
    destruct (draw_label_attrs classColors vw vh g n0) as (Hx & Hy & _).
    destruct (draw_label_constants classColors vw vh g n0) as (Hc & _).
    split; [exact Hc |]. split.
    + eexists. split; [exact Hx |].
      apply (finite_or_0_finite (spec_x vw g (datum n0))).
    + eexists. split; [exact Hy |].
      apply (finite_or_0_finite
               (spec_y vh g (datum n0) - lit_5)%js).
Qed.

(** X6: while the records loaded all have a bbox array, in every state the
    module reaches, every element of every box layer, drawn by the last
    redraw or left by an earlier one, is a [rect] of class [bounding-box]
    whose [x], [y], [width] and [height] attributes are finite numbers, or
    a [text] of class [bounding-box-label] whose [x] and [y] attributes are
    finite numbers, whatever the bbox arrays hold. *)
Theorem reachable_layers_finite (page : gmap nat (container num))
    (es : list event) :
  Forall (fun el => Forall finite_geometry (boxLayer el))
    (overlays (run classColors es (initial page))).
Proof.
  destruct (run_consistent es (initial page) (consistent_initial page))
    as [_ _ _ _ _ _ C7].
  rewrite Forall_fmap in C7. eapply Forall_impl; [exact C7 |].
  intros el Hel. eapply Forall_impl; [exact Hel |].
  apply painted_finite_geometry.
Qed.

End FiniteGeometry.

(** ** The legend *)

Lemma make_legend_fill (it : legend_item) :
  it ∈ make_legend classColors ->
  legend_fill it = classColor classColors (legend_label it).
Proof.
  unfold make_legend. intros (i & kv & -> & _)%elem_of_lookup_imap_1.
  reflexivity.
Qed.

(** X7: in every state the module reaches, the swatch of a legend entry
    and the stroke of every box whose record has that entry's class are the
    same color, and so is the fill of every such label. *)
Theorem legend_matches_boxes (page : gmap nat (container num))
    (es : list event) (el : overlay) (n : node) (it : legend_item) :
  el ∈ overlays (run classColors es (initial page)) ->
  n ∈ boxLayer el -> it ∈ legend el ->
  legend_label it = class (datum n) ->
  (tagName n = "rect" -> styles n !! "stroke" = AStr <$> legend_fill it) /\
  (tagName n = "text" -> styles n !! "fill" = AStr <$> legend_fill it).
Proof.
  intros Hel Hn Hit Hc.
  destruct (run_consistent es (initial page) (consistent_initial page))
    as [_ _ _ _ _ C6 C7].
  rewrite Forall_forall in C6. rewrite (C6 el Hel) in Hit.
  rewrite (make_legend_fill it Hit), Hc.
  rewrite Forall_forall in C7.
  specialize (C7 (boxLayer el) (list_elem_of_fmap_2 boxLayer _ el Hel)).
  rewrite Forall_forall in C7.
  destruct (C7 n Hn) as [[Ht (vw & vh & g & n0 & E)]
                        | [Ht (vw & vh & g & n0 & E)]].
  - split; [| intros Ht'; rewrite Ht' in Ht; discriminate Ht].
    intros _. subst n.
    destruct (draw_rect_attrs classColors vw vh g n0)
      as (_ & _ & _ & _ & _ & Hst).
    now rewrite datum_draw_rect.
  - split; [intros Ht'; rewrite Ht' in Ht; discriminate Ht |].
    intros _. subst n.
    destruct (draw_label_constants classColors vw vh g n0) as (_ & Hfill & _).
    now rewrite datum_draw_label.
Qed.

(** ** The first redraw of a layer *)

Lemma bind_data_empty (D : list detection) :
  bind_data D ∅ = ((fun d => (d, None)) <$> D, ∅).
Proof.
  induction D as [| d D IH]; [reflexivity |].
  simpl. rewrite lookup_empty, IH. reflexivity.
Qed.

Lemma bindKey_nil (D : list detection) :
  bindKey [] D = {| slots := (fun d => (d, None)) <$> D; exit := [] |}.
Proof. unfold bindKey. simpl. now rewrite bind_data_empty. Qed.

Lemma rebind_enter (D : list detection) (n : node) :
  rebind ((fun d => (d, None)) <$> D) n = n.
Proof.
  unfold rebind.
  assert (List.find (fun s : detection * option nat =>
                       bool_decide (snd s = Some (nid n)))
            ((fun d => (d, None)) <$> D) = None) as ->; [| reflexivity].
  induction D as [| d D IH]; [reflexivity |].
  rewrite fmap_cons. simpl. exact IH.
Qed.

Lemma next_update_enter (D : list detection) :
  next_update ((fun d => (d, None)) <$> D) = None.
Proof. induction D as [| d D IH]; [reflexivity | exact IH]. Qed.

Lemma insertBefore_null (child : node) (kids : list node) :
  insertBefore child None kids = kids ++ [child].
Proof. now destruct kids. Qed.

Lemma enter_append_all (tag : string) (D : list detection) :
  forall (kids : list node) (fresh : nat),
  enter_append tag ((fun d => (d, None)) <$> D) kids fresh
  = (Some <$> seq fresh (length D),
     kids ++ imap (fun i d => new_node (fresh + i) tag d) D,
     fresh + length D).
Proof.
  induction D as [| d D IH]; intros kids fresh.
  - simpl. now rewrite app_nil_r, Nat.add_0_r.
  - rewrite fmap_cons. cbn [enter_append]. rewrite next_update_enter.
    rewrite insertBefore_null, IH. rewrite <- app_assoc.
    rewrite imap_cons. cbn [length seq fmap list_fmap app].
    rewrite Nat.add_0_r.
    rewrite (imap_ext (fun i d => new_node (S fresh + i) tag d)
               ((fun i d => new_node (fresh + i) tag d) ∘ S)).
    + f_equal. lia.
    + intros i x _. simpl. f_equal. lia.
Qed.

Lemma merge_enter (l : list nat) (b : list (option nat)) :
  length b = length l -> merge (Some <$> l) b = Some <$> l.
Proof.
  revert b. induction l as [| x l IH]; intros [| y b] E; try discriminate;
    [reflexivity |].
  rewrite fmap_cons. simpl. f_equal. apply IH. now injection E.
Qed.

Lemma each_none (f : node -> node) (ids : list nat) (l : list node) :
  (forall n, n ∈ l -> nid n ∉ ids) -> each f (Some <$> ids) l = l.
Proof.
  intros H. unfold each. rewrite <- (list_fmap_id l) at 2.
  apply list_fmap_ext. intros i n Hn.
  rewrite bool_decide_eq_false_2; [reflexivity |].
  intros (x & [= <-] & Hx)%list_elem_of_fmap.
  apply (H n); [eapply list_elem_of_lookup_2; eauto | exact Hx].
Qed.

Lemma each_all (f : node -> node) (ids : list nat) (l : list node) :
  (forall n, n ∈ l -> nid n ∈ ids) -> each f (Some <$> ids) l = f <$> l.
Proof.
  intros H. unfold each. apply list_fmap_ext. intros i n Hn.
  rewrite bool_decide_eq_true_2; [reflexivity |].
  apply list_elem_of_fmap_2. apply H. eapply list_elem_of_lookup_2; eauto.
Qed.

Lemma each_app (f : node -> node) (sel : list (option nat))
    (l k : list node) :
  each f sel (l ++ k) = each f sel l ++ each f sel k.
Proof. unfold each. apply fmap_app. Qed.

Lemma keyed_update_first (tag : string) (draw : node -> node)
    (D : list detection) (kids : list node) (fresh : nat) :
  selectAll tag kids = [] ->
  Forall (fun n => nid n < fresh) kids ->
  keyed_update tag draw D kids fresh
  = (kids ++ created tag draw D fresh, fresh + length D).
Proof.
  intros Hsel Hlt. unfold keyed_update. rewrite Hsel, bindKey_nil.
  cbn [slots exit].
  rewrite (list_fmap_ext (rebind ((fun d => (d, None)) <$> D)) Datatypes.id kids)
    by (intros; apply rebind_enter).
  rewrite list_fmap_id.
  unfold remove.
  rewrite filter_all by (intros; apply not_elem_of_nil).
  rewrite enter_append_all.
  rewrite merge_enter by (now rewrite !length_fmap, length_seq).
  f_equal. rewrite each_app. f_equal.
  - apply each_none. intros n Hn Hin%elem_of_seq.
    rewrite Forall_forall in Hlt. specialize (Hlt n Hn). lia.
  - rewrite each_all; [unfold created; now rewrite fmap_imap |].
    intros n (i & d & -> & Hi)%elem_of_lookup_imap_1.
    apply elem_of_seq. simpl. apply lookup_lt_Some in Hi. lia.
Qed.

Lemma created_spec (tag : string) (draw : node -> node)
    (D : list detection) (fresh : nat) :
  (forall n, nid (draw n) = nid n) ->
  (forall n, tagName (draw n) = tagName n) ->
  Forall (fun n => tagName n = tag /\ nid n < fresh + length D)
    (created tag draw D fresh).
Proof.
  intros Hnid Htag. apply Forall_forall.
  intros n (i & d & -> & Hi)%elem_of_lookup_imap_1.
  rewrite Hnid, Htag. simpl. apply lookup_lt_Some in Hi. split; [reflexivity | lia].
Qed.

Lemma filter_none {A : Type} (P : A -> Prop) `{forall x, Decision (P x)}
    (l : list A) :
  (forall x, x ∈ l -> ~ P x) -> filter P l = [].
Proof.
  induction l as [| a l IH]; intros Hl; [reflexivity |].
  rewrite filter_cons. destruct (decide (P a)) as [Ha | _].
  - exfalso. apply (Hl a); [apply elem_of_cons; now left | exact Ha].
  - apply IH. intros x Hx. apply Hl. apply elem_of_cons. now right.
Qed.

Lemma redraw_layer_first (videoWidth videoHeight : num) (g : fit num)
    (D : list detection) (fresh : nat) :
  redraw_layer classColors videoWidth videoHeight g D [] fresh
  = (created "rect" (draw_rect classColors videoWidth videoHeight g) D fresh
     ++ created "text" (draw_label classColors videoWidth videoHeight g) D
          (fresh + length D),
     fresh + length D + length D).
Proof.
  unfold redraw_layer.
  rewrite (keyed_update_first "rect" _ D [] fresh) by (reflexivity || constructor).
  rewrite app_nil_l.
  pose proof (created_spec "rect"
                (draw_rect classColors videoWidth videoHeight g) D fresh
                (nid_draw_rect classColors videoWidth videoHeight g)
                (tagName_draw_rect classColors videoWidth videoHeight g)) as Hc.
  apply keyed_update_first.
  - apply filter_none. intros n Hn Ht.
    rewrite Forall_forall in Hc. destruct (Hc n Hn) as [Hr _].
    rewrite Hr in Ht. discriminate Ht.
  - eapply Forall_impl; [exact Hc |]. now intros n [_ Hn].
Qed.

(** X8: the first redraw on a fresh overlay creates, for the records of
    the frame in the order of the data file, one [rect] each and then one
    [text] each, so every label lies above every box; records with equal
    ids get an element each. *)
Theorem first_redraw_creates (f : num) (w : world) h c el v :
  drawable w h c el v -> boxLayer el = [] ->
  let D := frameData f (boundingBoxData w) in
  let T := fit_video (videoWidth v) (videoHeight v) (video_rect v) in
  primitives (fst (update f w))
  = created "rect" (draw_rect classColors (videoWidth v) (videoHeight v) T) D
      (fresh w)
    ++ created "text" (draw_label classColors (videoWidth v) (videoHeight v) T)
         D (fresh w + length D).
Proof.
  intros Hdr Hel. cbn zeta.
  rewrite (primitives_redrawn classColors f w h c el v Hdr), Hel.
  now rewrite redraw_layer_first.
Qed.

(** ** Records and elements *)

Lemma primitives_bound (f : num) (w : world) h c el v :
  world_ok w -> drawable w h c el v ->
  Permutation (datum <$> selectAll "rect" (primitives (fst (update f w))))
    (frameData f (boundingBoxData w)) /\
  Permutation (datum <$> selectAll "text" (primitives (fst (update f w))))
    (frameData f (boundingBoxData w)).
Proof.
  intros Hok Hdr. pose proof Hdr as [[_ _ Ho _ _] _].
  rewrite (primitives_redrawn classColors f w h c el v Hdr).
  destruct (redraw_layer classColors _ _ _ _ (boxLayer el) _)
    as [kids fresh'] eqn:E.
  destruct (redraw_layer_spec classColors _ _ _ _ _ _ _ _
              (world_ok_layer w h el Hok Ho) E)
    as (_ & _ & HR & HT & _).
  auto.
Qed.

(** X9: after a redraw the records bound to the boxes of the layer are
    exactly the records of the frame, each as often as the frame holds it,
    and so are the records bound to the labels: one box and one label per
    record, also for records that share an id. *)
Theorem redraw_binds_each_record_once (f : num) (w : world) h c el v :
  world_ok w -> drawable w h c el v ->
  let kids := primitives (fst (update f w)) in
  let D := frameData f (boundingBoxData w) in
  Permutation (datum <$> selectAll "rect" kids) D /\
  Permutation (datum <$> selectAll "text" kids) D /\
  length (selectAll "rect" kids) = length D /\
  length (selectAll "text" kids) = length D.
Proof.
  intros Hok Hdr. cbn zeta.
  destruct (primitives_bound f w h c el v Hok Hdr) as [HR HT].
  split; [exact HR |]. split; [exact HT |].
  apply Permutation_length in HR, HT. rewrite length_fmap in HR, HT. auto.
Qed.

Lemma painted_tag (n : node) :
  painted classColors n -> tagName n = "rect" \/ tagName n = "text".
Proof. intros [[Ht _] | [Ht _]]; auto. Qed.

Lemma erased (kids : list node) :
  Forall (painted classColors) kids ->
  Permutation (datum <$> selectAll "rect" kids) [] ->
  Permutation (datum <$> selectAll "text" kids) [] ->
  kids = [].
Proof.
  intros Hp HR%Permutation_nil_r%fmap_nil_inv HT%Permutation_nil_r%fmap_nil_inv.
  destruct kids as [| n kids]; [reflexivity |]. exfalso.
  apply Forall_cons in Hp as [Hn _].
  assert (Hin : n ∈ n :: kids) by (apply elem_of_cons; now left).
  destruct (painted_tag n Hn) as [Ht | Ht].
  - assert (H : n ∈ selectAll "rect" (n :: kids))
      by (apply list_elem_of_filter; auto).
    rewrite HR in H. now apply elem_of_nil in H.
  - assert (H : n ∈ selectAll "text" (n :: kids))
      by (apply list_elem_of_filter; auto).
    rewrite HT in H. now apply elem_of_nil in H.
Qed.

Lemma consistent_primitives (w : world) :
  consistent classColors w -> Forall (painted classColors) (primitives w).
Proof.
  intros [_ _ _ _ _ _ C7]. unfold primitives.
  destruct (svg w ≫= (fun h => overlays w !! h)) as [el |] eqn:E;
    [| constructor].
  destruct (svg w) as [h |]; [| discriminate]. simpl in E.
  rewrite Forall_forall in C7. apply C7.
  apply list_elem_of_fmap. exists el. split; [reflexivity |].
  eapply list_elem_of_lookup_2; eauto.
Qed.

Lemma empty_frame_erases (f : num) (w : world) h c el v :
  consistent classColors w -> drawable w h c el v ->
  frameData f (boundingBoxData w) = [] ->
  primitives (fst (update f w)) = [].
Proof.
  intros C Hdr HD.
  destruct (primitives_bound f w h c el v (nodes_distinct _ _ C) Hdr)
    as [HR HT].
  rewrite HD in HR, HT.
  apply erased; auto.
  apply consistent_primitives. now apply updateBoundingBoxes_consistent.
Qed.

(** X10: from a state the module has reached, the redraw of a frame that
    has no record leaves the layer empty: every box and every label is
    removed. *)
Theorem redraw_of_empty_frame_erases (page : gmap nat (container num))
    (es : list event) (f : num) h c el v :
  let w := run classColors es (initial page) in
  drawable w h c el v ->
  frameData f (boundingBoxData w) = [] ->
  primitives (fst (update f w)) = [].
Proof.
  cbn zeta. intros Hdr HD.
  apply (empty_frame_erases f _ h c el v); auto.
  apply run_consistent, consistent_initial.
Qed.

(** ** Loading *)

(** X11: when a load ends without records (the fetch or the parse failed,
    or the file holds an empty array), the boxes drawn for the previous
    data stay in the layer, and no redraw, whatever its frame, and no
    window resize changes anything until a later load succeeds. *)
Theorem load_without_records_freezes_overlay (fetch : string -> fetched num)
    (dataFile : string) (w : world) :
  (forall d data, fetch dataFile <> Parsed (d :: data)) ->
  let w1 := fst (loadBoundingBoxData fetch dataFile w) in
  boundingBoxData w1 = [] /\
  primitives w1 = primitives w /\
  (forall f, update f w1 = (w1, Returned)) /\
  handleResize classColors w1 = (w1, Returned).
Proof.
  intros Hfail. cbn zeta.
  assert (Hd : boundingBoxData (fst (loadBoundingBoxData fetch dataFile w)) = []).
  { unfold loadBoundingBoxData, try_load.
    destruct (fetch dataFile) as [e | e | [| d data]] eqn:E; try reflexivity.
    now destruct (Hfail d data). }
  assert (Hp : primitives (fst (loadBoundingBoxData fetch dataFile w))
               = primitives w).
  { unfold loadBoundingBoxData, try_load.
    destruct (fetch dataFile); reflexivity. }
  split; [exact Hd |]. split; [exact Hp |].
  split.
  - intros f. apply updateBoundingBoxes_guard. now right.
  - unfold handleResize.
    destruct (svg (fst (loadBoundingBoxData fetch dataFile w))); [| reflexivity].
    apply updateBoundingBoxes_guard. now right.
Qed.

(** ** The observer and the surface *)

(** X12: an observer callback positions the overlay [svg] names when it
    runs, over the video the callback belongs to, whichever container that
    overlay is attached to; every other overlay, the one created together
    with the observer included, stays where it was. *)
Theorem observer_moves_current_surface (videoContainer : nat)
    (newVideoRect containerRect : DOMRect num) (w : world) h el :
  videoContainer ∈ observed w ->
  svg w = Some h -> overlays w !! h = Some el ->
  let w' := fst (step classColors
                   (VideoResized videoContainer newVideoRect containerRect) w) in
  (exists el', overlays w' !! h = Some el' /\
     placed el' = cover newVideoRect containerRect /\
     parentNode el' = parentNode el /\ legend el' = legend el) /\
  (forall h', h' <> h -> overlays w' !! h' = overlays w !! h').
Proof.
  intros Hc Hs Ho. cbn zeta. cbn [step].
  rewrite bool_decide_eq_true_2 by exact Hc.
  unfold resizeObserved. rewrite Hs.
  set (w2 := set_overlays _ w).
  assert (Ho2 : overlays w2 !! h
                = Some (set_placed (cover newVideoRect containerRect) el)).
  { unfold w2. cbn [overlays set_overlays]. rewrite list_lookup_alter.
    destruct (decide (h = h)) as [_ | []]; [| reflexivity]. now rewrite Ho. }
  assert (Hother : forall h', h' <> h -> overlays w2 !! h' = overlays w !! h').
  { intros h' Hh'. unfold w2. cbn [overlays set_overlays].
    apply list_lookup_alter_ne. congruence. }
  destruct (updateBoundingBoxes_frame (currentFrame w) w2)
    as (_ & _ & _ & _ & _ & Hpar & Hpl & Hleg & Hrest).
  split.
  - apply (f_equal (fun l => l !! h)) in Hpar.
    apply (f_equal (fun l => l !! h)) in Hpl.
    apply (f_equal (fun l => l !! h)) in Hleg.
    rewrite !list_lookup_fmap, Ho2 in Hpar.
    rewrite !list_lookup_fmap, Ho2 in Hpl.
    rewrite !list_lookup_fmap, Ho2 in Hleg.
    destruct (overlays (fst (update (currentFrame w) w2)) !! h) as [el' |];
      [| discriminate].
    cbn in Hpar, Hpl, Hleg.
    exists el'. split; [reflexivity |]. repeat split; congruence.
  - intros h' Hh'. rewrite Hrest; [now apply Hother |].
    unfold w2. cbn [svg set_overlays]. congruence.
Qed.

(** ** Initializing again *)

(** X13: from a state the module has reached, [initializeBoundingBoxes] on
    a container that holds a video leaves exactly one overlay attached to
    that container: a new one, placed over the video, with its legend and
    no box, which [svg] names.  The boxes drawn before are gone from the
    page until the next redraw; the records, the current frame and the
    console are as before, and one more observer watches the video. *)
Theorem reinitialize_replaces_overlay (page : gmap nat (container num))
    (es : list event) (videoContainer : nat) (box : container num)
    (v : video num) :
  let w := run classColors es (initial page) in
  containers w !! videoContainer = Some box -> content_video box = Some v ->
  let w' := fst (initialize videoContainer w) in
  exists el,
    svg w' = Some (length (overlays w)) /\
    overlays w' !! length (overlays w) = Some el /\
    attached_to videoContainer (overlays w') = [el] /\
    placed el = cover (video_rect v) (container_rect box) /\
    legend el = make_legend classColors /\
    boxLayer el = [] /\ primitives w' = [] /\
    boundingBoxData w' = boundingBoxData w /\
    currentFrame w' = currentFrame w /\ console w' = console w /\
    observed w' = observed w ++ [videoContainer].
Proof.
  cbn zeta.
  pose proof (run_consistent es (initial page) (consistent_initial page)) as C.
  revert C. generalize (run classColors es (initial page)). intros w C Hc Hv.
  destruct (remove_first_overlay_attached videoContainer (overlays w)
              (attached_once _ _ C)) as [_ Hnot].
  unfold initializeBoundingBoxes, try_initialize.
  cbn [containers set_overlays overlays]. rewrite Hc, Hv. cbn [fst].
  eexists.
  cbn [svg overlays boundingBoxData currentFrame console observed
       set_overlays set_observed set_svg].
  rewrite remove_first_overlay_length.
  assert (Hlook : forall el : overlay,
            (remove_first_overlay videoContainer (overlays w) ++ [el])
              !! length (overlays w) = Some el).
  { intros el. apply list_lookup_middle.
    now rewrite remove_first_overlay_length. }
  split; [reflexivity |]. split; [apply Hlook |].
  split.
  { unfold attached_to. rewrite filter_app.
    fold (attached_to videoContainer
            (remove_first_overlay videoContainer (overlays w))).
    rewrite (attached_to_none _ _ Hnot). rewrite filter_cons.
    cbn [parentNode]. now rewrite decide_True by reflexivity. }
  repeat (split; [reflexivity |]).
  split; [| repeat split; reflexivity].
  unfold primitives. cbn [svg overlays set_overlays set_observed set_svg].
  unfold mbind, option_bind. rewrite Hlook. reflexivity.
Qed.

(** ** Boxes and their labels *)

(** X14: after a redraw, the label of a record starts at the x of the
    record's box and has the color of its stroke. *)
Theorem label_follows_box (f : num) (w : world) h c el v (n t : node) :
  world_ok w -> drawable w h c el v ->
  n ∈ primitives (fst (update f w)) -> tagName n = "rect" ->
  t ∈ primitives (fst (update f w)) -> tagName t = "text" ->
  datum t = datum n ->
  attrs t !! "x" = attrs n !! "x" /\ styles t !! "fill" = styles n !! "stroke".
Proof.
  intros Hok Hdr Hn Hnt Ht Htt Hd. pose proof Hdr as [[_ _ Ho _ _] _].
  rewrite (primitives_redrawn classColors f w h c el v Hdr) in Hn, Ht.
  destruct (redraw_layer classColors _ _ _ _ (boxLayer el) _)
    as [kids fresh'] eqn:E.
  destruct (redraw_layer_spec classColors _ _ _ _ _ _ _ _
              (world_ok_layer w h el Hok Ho) E)
    as (_ & _ & _ & _ & HR & HT).
  cbn [fst] in Hn, Ht.
  destruct (HR n Hn Hnt) as [n0 ->]. destruct (HT t Ht Htt) as [t0 ->].
  rewrite datum_draw_rect, datum_draw_label in Hd.
  destruct (draw_rect_attrs classColors (videoWidth v) (videoHeight v)
              (fit_video (videoWidth v) (videoHeight v) (video_rect v)) n0)
    as (Hx & _ & _ & _ & _ & Hst).
  destruct (draw_label_attrs classColors (videoWidth v) (videoHeight v)
              (fit_video (videoWidth v) (videoHeight v) (video_rect v)) t0)
    as (Hlx & _).
  destruct (draw_label_constants classColors (videoWidth v) (videoHeight v)
              (fit_video (videoWidth v) (videoHeight v) (video_rect v)) t0)
    as (_ & Hfill & _).
  rewrite Hx, Hst, Hlx, Hfill, Hd. split; reflexivity.
Qed.

(** ** A redraw, again *)

Lemma updateBoundingBoxes_again (f : num) (w : world) :
  world_ok w ->
  NoDup (key <$> frameData f (boundingBoxData w)) ->
  update f (fst (update f w)) = update f w.
Proof.
  intros Hok HkD.
  destruct (svg w) as [h |] eqn:Hs.
  2: { rewrite (updateBoundingBoxes_guard classColors f w) by now left.
       simpl. apply updateBoundingBoxes_guard. now left. }
  destruct (boundingBoxData w) as [| d0 data] eqn:Hd.
  { rewrite (updateBoundingBoxes_guard classColors f w) by now right.
    simpl. apply updateBoundingBoxes_guard. now right. }
  rewrite <- Hd in *.
  assert (Hne : boundingBoxData w <> []) by (rewrite Hd; discriminate).
  destruct (overlays w !! h) as [el |] eqn:Ho.
  2: { unfold updateBoundingBoxes at 2 3. rewrite Hs, (loaded_length w Hne).
       simpl. rewrite Ho. simpl.
       unfold updateBoundingBoxes. simpl. rewrite Hs, (loaded_length w Hne).
       simpl. now rewrite Ho. }
  destruct (parentNode el) as [c |] eqn:Hp.
  2: { unfold updateBoundingBoxes at 2 3. rewrite Hs, (loaded_length w Hne).
       simpl. rewrite Ho, Hp. simpl.
       unfold updateBoundingBoxes. simpl. rewrite Hs, (loaded_length w Hne).
       simpl. now rewrite Ho, Hp. }
  destruct (containers w !! c ≫= content_video) as [v |] eqn:Hv.
  2: { unfold updateBoundingBoxes at 2 3. rewrite Hs, (loaded_length w Hne).
       simpl. rewrite Ho, Hp, Hv. simpl.
       unfold updateBoundingBoxes. simpl. rewrite Hs, (loaded_length w Hne).
       simpl. now rewrite Ho, Hp, Hv. }
  destruct (negb (ToBoolean (videoWidth v)) || negb (ToBoolean (videoHeight v))
            || negb (ToBoolean (width (video_rect v)))
            || negb (ToBoolean (height (video_rect v)))) eqn:Hg.
  { unfold updateBoundingBoxes at 2 3. rewrite Hs, (loaded_length w Hne).
    simpl. rewrite Ho, Hp, Hv, Hg. simpl.
    unfold updateBoundingBoxes. simpl. rewrite Hs, (loaded_length w Hne).
    simpl. now rewrite Ho, Hp, Hv, Hg. }
  assert (Hdr : drawable w h c el v).
  { repeat apply orb_false_elim in Hg as [Hg ?].
    split; split; auto; now apply negb_false_iff. }
  destruct (updateBoundingBoxes_drawable classColors f w h c el v Hdr)
    as (el' & Hdr' & Hlayer & Hdata).
  rewrite (updateBoundingBoxes_draws classColors f _ h c el' v Hdr').
  rewrite Hlayer, Hdata, (primitives_redrawn classColors f w h c el v Hdr).
  pose proof Hdr' as [[_ _ Ho' _ _] _].
  rewrite (updateBoundingBoxes_draws classColors f w h c el v Hdr) in *.
  simpl in *.
  destruct (redraw_layer _ _ _ _ _ (boxLayer el) (fresh w))
    as [kids fresh'] eqn:E.
  simpl in *.
  rewrite (redraw_layer_fixed classColors _ _ _ _ _ _ _ _
             (world_ok_layer w h el Hok Ho) HkD E).
  simpl. f_equal.
  rewrite list_lookup_insert_eq in Ho' by (eapply lookup_lt_Some; eauto).
  inversion Ho'; subst el'.
  unfold set_fresh, set_overlays, set_currentFrame. simpl. f_equal.
  now rewrite list_insert_insert_eq.
Qed.

(** X16: a window resize that follows a redraw, with the page unchanged,
    ends as the redraw did and leaves the state the redraw produced: when
    the ids of the frame's records are distinct, no element is created,
    removed or changed. *)
Theorem resize_after_redraw_changes_nothing (f : num) (w : world) :
  world_ok w ->
  NoDup (key <$> frameData f (boundingBoxData w)) ->
  handleResize classColors (fst (update f w)) = update f w.
Proof.
  intros Hok HkD. unfold handleResize.
  destruct (updateBoundingBoxes_frame f w) as (_ & Hs & _).
  rewrite Hs.
  destruct (updateBoundingBoxes_paths f w)
    as [[Hg E] | (h & Hs' & Hne & Hcases)].
  - rewrite E. cbn [fst]. destruct (svg w); [| reflexivity].
    destruct Hg as [Hg | Hg]; [discriminate |].
    apply updateBoundingBoxes_guard. now right.
  - rewrite Hs'.
    assert (Hcf : currentFrame (fst (update f w)) = f).
    { destruct Hcases as [[_ ->] | [(el & _ & _ & ->)
                          | [(el & c & _ & _ & ->) | (el & c & v & Hdr)]]];
        try reflexivity.
      now rewrite (updateBoundingBoxes_draws classColors f w h c el v Hdr). }
    rewrite Hcf. now apply updateBoundingBoxes_again.
Qed.

(** ** The frame a resize redraws *)

Lemma step_ok (e : event) (w : world) :
  world_ok w -> world_ok (fst (step classColors e w)).
Proof.
  intros Hok.
  destruct e as [c | fetch [dataFile |] | f | | c r1 r2 | page | h];
    cbn [step onDataFileChanged fst].
  - now apply initializeBoundingBoxes_ok.
  - unfold loadBoundingBoxData, try_load.
    destruct (fetch _); cbn [fst]; exact Hok.
  - exact Hok.
  - now apply updateBoundingBoxes_ok.
  - unfold handleResize. destruct (svg w); [| exact Hok].
    now apply updateBoundingBoxes_ok.
  - destruct (bool_decide (c ∈ observed w)); [| exact Hok].
    unfold resizeObserved. destruct (svg w) as [h |]; [| exact Hok].
    apply updateBoundingBoxes_ok.
    destruct (placed_same_layers (cover r1 r2) h (overlays w)) as (E1 & _).
    now apply (world_ok_layers w).
  - exact Hok.
  - apply (world_ok_layers w); auto. apply alter_detach_layers.
Qed.

Lemma run_ok (es : list event) (w : world) :
  world_ok w -> world_ok (run classColors es w).
Proof.
  intros Hok. induction es as [| e es IH] using rev_ind; [exact Hok |].
  rewrite run_snoc. now apply step_ok.
Qed.

(** A redraw of the frame [currentFrame] holds leaves it there. *)
Lemma updateBoundingBoxes_currentFrame (w w0 : world) :
  currentFrame w = currentFrame w0 ->
  currentFrame (fst (update (currentFrame w0) w)) = currentFrame w0.
Proof.
  intros Hf.
  destruct (updateBoundingBoxes_paths (currentFrame w0) w)
    as [[_ ->] | (h & Hs & Hne &
         [[_ ->] | [(el & _ & _ & ->) | [(el & c & _ & _ & ->)
                                        | (el & c & v & Hdr)]]])];
    cbn [fst]; try reflexivity; [exact Hf |].
  now rewrite (updateBoundingBoxes_draws classColors _ w h c el v Hdr).
Qed.

Lemma keeps_frame_step (e : event) (w : world) :
  keeps_frame e ->
  currentFrame (fst (step classColors e w)) = currentFrame w /\
  boundingBoxData (fst (step classColors e w)) = boundingBoxData w.
Proof.
  intros He.
  destruct e as [c | fetch [dataFile |] | f | | c r1 r2 | page | h];
    cbn [step onDataFileChanged keeps_frame fst] in *; try contradiction;
    try (split; reflexivity).
  - unfold initializeBoundingBoxes, try_initialize.
    cbn [containers set_overlays overlays].
    destruct (containers w !! c) as [box |]; [| split; reflexivity].
    destruct (content_video box); split; reflexivity.
  - unfold handleResize. destruct (svg w); [| split; reflexivity].
    split; [now apply updateBoundingBoxes_currentFrame |].
    apply (updateBoundingBoxes_frame (currentFrame w) w).
  - destruct (bool_decide (c ∈ observed w)); [| split; reflexivity].
    unfold resizeObserved. destruct (svg w) as [h |]; [| split; reflexivity].
    split.
    + now apply (updateBoundingBoxes_currentFrame _ w).
    + now rewrite (proj1 (updateBoundingBoxes_frame (currentFrame w) _)).
Qed.

Lemma keeps_frame_run (es : list event) (w : world) :
  Forall keeps_frame es ->
  currentFrame (run classColors es w) = currentFrame w /\
  boundingBoxData (run classColors es w) = boundingBoxData w.
Proof.
  induction es as [| e es IH] using rev_ind; intros Hes; [now split |].
  rewrite run_snoc. apply Forall_app in Hes as [Hes He].
  apply Forall_cons in He as [He _].
  destruct (keeps_frame_step e (run classColors es w) He) as [-> ->].
  now apply IH.
Qed.

(** Where a redraw draws, the layer shows the frame asked for. *)
Lemma updateBoundingBoxes_shows (f : num) (w : world) h c el v :
  world_ok w -> drawable w h c el v ->
  snd (update f w) = Returned /\
  shows_frame f (boundingBoxData w) v (fst (update f w)).
Proof.
  intros Hok Hdr.
  destruct (rects_redrawn classColors f w h c el v Hok Hdr) as (Hr & _ & _).
  split; [exact Hr |].
  destruct (primitives_bound f w h c el v Hok Hdr) as [HR HT].
  pose proof Hdr as [[_ _ Ho _ _] _].
  pose proof (primitives_redrawn classColors f w h c el v Hdr) as HP.
  destruct (redraw_layer classColors _ _ _ _ (boxLayer el) _)
    as [kids fresh'] eqn:E.
  destruct (redraw_layer_spec classColors _ _ _ _ _ _ _ _
              (world_ok_layer w h el Hok Ho) E)
    as (_ & _ & _ & _ & HdR & HdT).
  cbn [fst] in HP.
  split; [exact HR |]. split; [exact HT |].
  rewrite HP. split.
  - intros n Hn Ht. destruct (HdR n Hn Ht) as [n0 ->].
    rewrite datum_draw_rect.
    destruct (draw_rect_attrs classColors (videoWidth v) (videoHeight v)
                (fit_video (videoWidth v) (videoHeight v) (video_rect v)) n0)
      as (Hx & Hy & Hw & Hh & _ & _).
    repeat apply conj; assumption.
  - intros n Hn Ht. destruct (HdT n Hn Ht) as [n0 ->].
    rewrite datum_draw_label.
    destruct (draw_label_attrs classColors (videoWidth v) (videoHeight v)
                (fit_video (videoWidth v) (videoHeight v) (video_rect v)) n0)
      as (Hx & Hy & _).
    split; assumption.
Qed.

(** A resize in a state where a redraw draws shows the frame [currentFrame]
    holds. *)
Lemma handleResize_shows (w : world) h c el v :
  world_ok w -> drawable w h c el v ->
  snd (handleResize classColors w) = Returned /\
  shows_frame (currentFrame w) (boundingBoxData w) v
    (fst (handleResize classColors w)).
Proof.
  intros Hok Hdr. pose proof Hdr as [[Hs _ _ _ _] _].
  unfold handleResize. rewrite Hs.
  now apply (updateBoundingBoxes_shows (currentFrame w) w h c el v).
Qed.

(** C10: the two abort paths of a redraw differ in what they do to
    [currentFrame].  When the redraw aborts because no surface exists or
    there are no records, the state is unchanged: [handleResize] then asks
    for the frame stored before, and once the page lets a redraw draw
    (whatever happened in between, short of a request for a frame or a
    load) it draws the boxes and labels of the records of that frame.  When
    the redraw aborts because a video dimension or a display dimension is
    zero or missing, [currentFrame] already holds the requested frame and
    nothing else has changed: [handleResize] then asks for the requested
    frame, and once the page lets a redraw draw it draws the boxes and
    labels of the records of the requested frame. *)
Theorem abort_paths_and_currentFrame (frameNumber : num) (w : world) :
  (svg w = None \/ boundingBoxData w = [] ->
   update frameNumber w = (w, Returned) /\
   handleResize classColors w = update (currentFrame w) w /\
   forall es h c el v,
     let w' := run classColors es (fst (update frameNumber w)) in
     world_ok w -> Forall keeps_frame es -> drawable w' h c el v ->
     currentFrame w' = currentFrame w /\
     snd (handleResize classColors w') = Returned /\
     shows_frame (currentFrame w) (boundingBoxData w) v
       (fst (handleResize classColors w'))) /\
  (forall h c el v,
   shown w h c el v ->
   ToBoolean (videoWidth v) = false \/ ToBoolean (videoHeight v) = false \/
   ToBoolean (width (video_rect v)) = false \/
   ToBoolean (height (video_rect v)) = false ->
   update frameNumber w = (set_currentFrame frameNumber w, Returned) /\
   currentFrame (set_currentFrame frameNumber w) = frameNumber /\
   handleResize classColors (set_currentFrame frameNumber w)
     = update frameNumber (set_currentFrame frameNumber w) /\
   forall es h' c' el' v',
     let w' := run classColors es (fst (update frameNumber w)) in
     world_ok w -> Forall keeps_frame es -> drawable w' h' c' el' v' ->
     currentFrame w' = frameNumber /\
     snd (handleResize classColors w') = Returned /\
     shows_frame frameNumber (boundingBoxData w) v'
       (fst (handleResize classColors w'))).
Proof.
  split.
  - intros Hg.
    pose proof (updateBoundingBoxes_guard classColors frameNumber w Hg) as E.
    split; [exact E |]. split.
    { unfold handleResize. destruct (svg w) eqn:Hs; [reflexivity |].
      symmetry. apply updateBoundingBoxes_guard. now left. }
    intros es h c el v w' Hok Hes Hdr. subst w'. rewrite E in *.
    cbn [fst] in *.
    destruct (keeps_frame_run es w Hes) as [Hf Hd].
    split; [exact Hf |].
    pose proof (handleResize_shows _ h c el v (run_ok es w Hok) Hdr) as H.
    rewrite Hf, Hd in H. exact H.
  - intros h c el v [Hs Hd Ho Hp Hv] Hz.
    assert (E : update frameNumber w = (set_currentFrame frameNumber w, Returned)).
    { unfold updateBoundingBoxes. rewrite Hs, (loaded_length w Hd). simpl.
      rewrite Ho, Hp, Hv.
      destruct Hz as [-> | [-> | [-> | ->]]]; simpl;
        rewrite ?orb_true_r; reflexivity. }
    split; [exact E |]. split; [reflexivity |]. split.
    { unfold handleResize. simpl. now rewrite Hs. }
    intros es h' c' el' v' w' Hok Hes Hdr. subst w'. rewrite E in *.
    cbn [fst] in *.
    destruct (keeps_frame_run es (set_currentFrame frameNumber w) Hes)
      as [Hf Hd'].
    cbn [currentFrame boundingBoxData set_currentFrame] in Hf, Hd'.
    split; [exact Hf |].
    pose proof (handleResize_shows _ h' c' el' v'
                  (run_ok es (set_currentFrame frameNumber w) Hok) Hdr) as H.
    rewrite Hf, Hd' in H. exact H.
Qed.

End Reachable.

(** * Redrawing in place *)

Section InPlace.

Context {num : Type} {JSN : JSNumber num}.
Variable classColors : list (string * string).

Local Abbreviation detection := (detection num).
Local Abbreviation node := (node num).
Local Abbreviation world := (world num).
Local Abbreviation update := (updateBoundingBoxes classColors).

(** A layer whose nodes of the tag carry the data, one node per datum, is
    redrawn in place: nothing exits, nothing enters, no node moves. *)
Lemma keyed_update_in_place (tag : string) (draw : node -> node)
    (D : list detection) (kids : list node) fresh :
  layer_ok kids fresh ->
  NoDup (key <$> D) ->
  datum <$> selectAll tag kids ≡ₚ D ->
  keyed_update tag draw D kids fresh
  = ((fun n => if decide (tagName n = tag) then draw n else n) <$> kids, fresh).
Proof.
  intros [Hnd Hlt] HkD Hdata.
  set (G := selectAll tag kids).
  assert (HkG : NoDup ((fun n => key (datum n)) <$> G)).
  { change (NoDup ((key ∘ datum) <$> G)).
    rewrite (list_fmap_compose datum key). unfold G. now rewrite Hdata. }
  destruct (bindKey_spec G D (selectAll_NoDup _ _ Hnd))
    as (Hfst & Hnu & Hfrom & Hexit & Hexit_in & Hkept).
  specialize (Hkept HkG).
  assert (HinD : forall m, m ∈ G -> datum m ∈ D).
  { intros m Hm. rewrite <- Hdata. now apply list_elem_of_fmap_2. }
  assert (S1 : forall m, m ∈ G -> (datum m, Some (nid m)) ∈ slots (bindKey G D)).
  { intros m Hm.
    destruct (Hkept m Hm) as (d & Hd & Hk & HdD).
    { apply list_elem_of_fmap_2. auto. }
    now rewrite <- (fmap_inj_on key D d (datum m) HkD HdD (HinD m Hm) Hk). }
  assert (S2 : Forall (fun s => is_Some (snd s)) (slots (bindKey G D))).
  { apply Forall_forall. intros [d o] Hs. simpl.
    assert (HdD : d ∈ D).
    { rewrite <- Hfst. now apply (list_elem_of_fmap_2 fst _ (d, o)). }
    rewrite <- Hdata in HdD. apply list_elem_of_fmap in HdD as (m & -> & Hm).
    assert (Heq : (datum m, o) = (datum m, Some (nid m))).
    { apply (fmap_inj_on fst (slots (bindKey G D))); auto.
      rewrite Hfst. now apply (NoDup_fmap_1 key). }
    inversion Heq. eauto. }
  assert (Hupd : forall n, n ∈ kids -> nid n ∈ updated (slots (bindKey G D)) ->
                           n ∈ G).
  { intros n Hn (d & Hd)%elem_of_updated.
    destruct (Hfrom _ _ Hd) as (m & Hm & Hnm & _).
    pose proof Hm as [_ Hm']%selectAll_elem.
    now rewrite <- (nid_inj kids m n Hnd Hm' Hn Hnm). }
  assert (R1 : rebind (slots (bindKey G D)) <$> kids = kids).
  { apply fmap_fixed. intros n Hn.
    destruct (decide (tagName n = tag)) as [Ht | Ht].
    - rewrite (rebind_hit _ n (datum n) Hnu); [apply set_datum_same |].
      apply S1. now apply selectAll_elem.
    - apply rebind_miss. intros Hu. apply Ht.
      now apply (Hupd n Hn) in Hu as [? _]%selectAll_elem. }
  assert (R2 : remove (exit (bindKey G D)) kids = kids).
  { apply filter_all. intros n Hn Hex.
    pose proof (Hexit_in _ Hex) as (m & Hnm & Hm)%list_elem_of_fmap.
    pose proof Hm as [_ Hm']%selectAll_elem.
    assert (n = m) by (eapply nid_inj; eauto). subst m.
    apply (Hexit n Hm) in Hex. apply Hex. apply elem_of_updated. eauto. }
  unfold keyed_update. fold G. rewrite R1, R2.
  destruct (enter_append_none tag _ kids fresh S2) as [E Hsel].
  pose proof (enter_append_spec _ _ _ _ _ _ _ E) as (Hm & _ & _).
  rewrite E, Hm, Hsel. f_equal.
  unfold each. apply list_fmap_ext. intros i n Hi.
  assert (Hn : n ∈ kids) by (eapply list_elem_of_lookup_2; eauto).
  destruct (decide (tagName n = tag)) as [Ht | Ht].
  - rewrite bool_decide_eq_true_2; [reflexivity |].
    apply list_elem_of_fmap_2. apply elem_of_updated. exists (datum n).
    apply S1. now apply selectAll_elem.
  - rewrite bool_decide_eq_false_2; [reflexivity |].
    intros (x & [= <-] & Hx)%list_elem_of_fmap. apply Ht.
    now apply (Hupd n Hn) in Hx as [? _]%selectAll_elem.
Qed.

Lemma redraw_layer_in_place (videoWidth videoHeight : num) (g : fit num)
    (D : list detection) (kids : list node) fresh :
  layer_ok kids fresh ->
  NoDup (key <$> D) ->
  datum <$> selectAll "rect" kids ≡ₚ D ->
  datum <$> selectAll "text" kids ≡ₚ D ->
  redraw_layer classColors videoWidth videoHeight g D kids fresh
  = (repaint classColors videoWidth videoHeight g <$> kids, fresh).
Proof.
  intros Hok HkD HR HT.
  destruct (rect_pass classColors videoWidth videoHeight g D kids fresh)
    as (kA & fA & EA & ->).
  pose proof EA as EA'.
  rewrite (keyed_update_in_place "rect" _ D kids fresh Hok HkD HR) in EA'.
  destruct (keyed_update_ok "rect" _
              (nid_draw_rect classColors videoWidth videoHeight g)
              D kids kA fresh fA Hok EA) as [HokA _].
  pose proof (keyed_update_other "rect" _
                (nid_draw_rect classColors videoWidth videoHeight g)
                (tagName_draw_rect classColors videoWidth videoHeight g)
                D kids kA fresh fA "text" Hok EA) as Hother.
  rewrite (keyed_update_in_place "text" _ D kA fA HokA HkD).
  2: { rewrite Hother by discriminate. exact HT. }
  injection EA' as <- <-. f_equal.
  rewrite <- list_fmap_compose. apply list_fmap_ext. intros i n _.
  unfold repaint. simpl.
  destruct (decide (tagName n = "rect")) as [Hr | Hr].
  - rewrite tagName_draw_rect, Hr.
    destruct (decide ("rect" = "text")) as [E | _]; [discriminate E | reflexivity].
  - reflexivity.
Qed.

(** X20: when the page changes after a redraw of frame [f] (the video is
    resized, say) and the window is resized, [handleResize] keeps every box
    and label of the layer, in the same order, and draws each again under
    the new transform; no element is created or removed, provided the ids
    of the frame's records are distinct. *)
Theorem resize_repaints_in_place (f : num) (w : world) h c el v
    (page : gmap nat (container num)) (v' : video num) :
  world_ok w -> drawable w h c el v ->
  NoDup (key <$> frameData f (boundingBoxData w)) ->
  page !! c ≫= content_video = Some v' -> valid_geometry v' ->
  let w1 := fst (update f w) in
  let w2 := fst (handleResize classColors (set_containers page w1)) in
  primitives w2
  = repaint classColors (videoWidth v') (videoHeight v')
      (fit_video (videoWidth v') (videoHeight v') (video_rect v'))
    <$> primitives w1 /\
  fresh w2 = fresh w1 /\ currentFrame w2 = f.
Proof.
  intros Hok Hdr HkD Hv' Hgeo. cbn zeta.
  destruct (updateBoundingBoxes_drawable classColors f w h c el v Hdr)
    as (el1 & Hdr1 & Hlayer & Hdata).
  pose proof (updateBoundingBoxes_ok classColors f w Hok) as Hok1.
  pose proof Hdr as [[_ _ Ho _ _] _].
  assert (Hcf : currentFrame (fst (update f w)) = f).
  { now rewrite (updateBoundingBoxes_draws classColors f w h c el v Hdr). }
  destruct (primitives_bound classColors f w h c el v Hok Hdr) as [HR HT].
  revert Hdr1 Hlayer Hdata Hok1 Hcf HR HT.
  generalize (fst (update f w)). intros w1 Hdr1 Hlayer Hdata Hok1 Hcf HR HT.
  destruct Hdr1 as [[Hs1 Hne1 Ho1 Hp1 _] _].
  assert (Hdr2 : drawable (set_containers page w1) h c el1 v').
  { split; [split |]; auto. }
  unfold handleResize. cbn [svg set_containers]. rewrite Hs1.
  change (currentFrame (set_containers page w1)) with (currentFrame w1).
  rewrite Hcf.
  rewrite (primitives_redrawn classColors f _ h c el1 v' Hdr2).
  rewrite (updateBoundingBoxes_draws classColors f _ h c el1 v' Hdr2).
  cbn [fst fresh currentFrame set_fresh set_overlays set_currentFrame
       set_containers boundingBoxData].
  rewrite Hlayer, Hdata in *.
  rewrite (redraw_layer_in_place _ _ _ _ (primitives w1) (fresh w1)); auto.
  rewrite <- Hlayer. eapply world_ok_layer; eauto.
Qed.

End InPlace.

(** * Facts of binary64 *)

Lemma SFcompare_swap (x y : spec_float) (c : comparison) :
  SFcompare x y = Some c -> SFcompare y x = Some (CompOpp c).
Proof.
  destruct x as [s | s | | s m e], y as [s' | s' | | s' m' e']; simpl;
    try discriminate; intros [= <-];
    try (destruct s; try destruct s'; reflexivity).
  f_equal. rewrite (Z.compare_antisym e e').
  change (PosDef.Pos.compare_cont Eq m' m) with (Pos.compare m' m).
  change (PosDef.Pos.compare_cont Eq m m') with (Pos.compare m m').
  rewrite (Pos.compare_antisym m m').
  destruct s, s'; try reflexivity;
    destruct (e ?= e')%Z; simpl; try reflexivity;
    destruct (m ?= m')%positive; reflexivity.
Qed.

Lemma not_nan_compare (x y : float) :
  PrimFloat.is_nan x = false -> PrimFloat.is_nan y = false ->
  exists c, SFcompare (Prim2SF x) (Prim2SF y) = Some c.
Proof.
  unfold PrimFloat.is_nan. rewrite !FloatAxioms.eqb_spec. unfold SFeqb.
  intros Hx Hy.
  destruct (Prim2SF x) as [s | s | | s m e]; try discriminate Hx;
    destruct (Prim2SF y) as [s' | s' | | s' m' e']; try discriminate Hy;
    simpl; eauto.
Qed.

Lemma min_1_capped (y : float) :
  PrimFloat.is_nan (IEEE.min 1 y) = true \/
  PrimFloat.leb (IEEE.min 1 y) 1 = true.
Proof.
  unfold IEEE.min.
  change (PrimFloat.is_nan 1) with false. cbn [orb].
  destruct (PrimFloat.is_nan y) eqn:Hnan; [left; reflexivity |].
  right.
  destruct (PrimFloat.ltb 1 y) eqn:H1; [reflexivity |].
  assert (Hle : PrimFloat.leb y 1 = true).
  { destruct (not_nan_compare y 1 Hnan eq_refl) as [c Hc].
    rewrite FloatAxioms.leb_spec. unfold SFleb. rewrite Hc.
    destruct c; try reflexivity.
    apply SFcompare_swap in Hc.
    rewrite FloatAxioms.ltb_spec in H1. unfold SFltb in H1.
    rewrite Hc in H1. discriminate H1. }
  destruct (PrimFloat.ltb y 1); [exact Hle |].
  change (PrimFloat.get_sign 1) with false. exact Hle.
Qed.

(** X17: in binary64, whatever the confidence of a record (out of range,
    infinite or missing), the opacity of its box is never above 1: it is
    NaN, when the confidence is not a number, or at most 1. *)
Theorem opacity_never_above_1 (d : detection float) :
  PrimFloat.is_nan (rect_opacity d) = true \/
  PrimFloat.leb (rect_opacity d) 1 = true.
Proof. unfold rect_opacity. apply min_1_capped. Qed.

Lemma seq_NaN (x : float) : (x === NaN)%js = false.
Proof.
  cbn [js_seq NaN IEEE.binary64]. rewrite FloatAxioms.eqb_spec.
  change (Prim2SF PrimFloat.nan) with S754_nan.
  unfold SFeqb. now destruct (Prim2SF x).
Qed.

Lemma frameData_NaN (data : list (detection float)) : frameData NaN data = [].
Proof.
  unfold frameData. induction data as [| d data IH]; [reflexivity |].
  simpl. now rewrite seq_NaN.
Qed.

(** X18: in binary64, a redraw asked for the frame NaN finds no record,
    since no frame number is [===] NaN: from a state the module has
    reached, it removes every box and label and leaves NaN as the current
    frame, so that the following window resizes draw nothing either. *)
Theorem redraw_at_NaN_erases (classColors : list (string * string))
    (page : gmap nat (container float)) (es : list (event float)) h c el v :
  let w := run classColors es (initial page) in
  drawable w h c el v ->
  let w' := fst (updateBoundingBoxes classColors NaN w) in
  primitives w' = [] /\
  PrimFloat.is_nan (currentFrame w') = true /\
  primitives (fst (handleResize classColors w')) = [].
Proof.
  cbn zeta. intros Hdr.
  pose proof (run_consistent classColors es (initial page)
                (consistent_initial classColors page)) as C.
  revert C Hdr. generalize (run classColors es (initial page)). intros w C Hdr.
  assert (H1 : primitives (fst (updateBoundingBoxes classColors NaN w)) = []).
  { apply (empty_frame_erases classColors NaN w h c el v C Hdr).
    apply frameData_NaN. }
  destruct (updateBoundingBoxes_drawable classColors NaN w h c el v Hdr)
    as (el' & Hdr' & _ & Hdata).
  assert (Hcf : currentFrame (fst (updateBoundingBoxes classColors NaN w)) = NaN).
  { now rewrite (updateBoundingBoxes_draws classColors NaN w h c el v Hdr). }
  split; [exact H1 |]. split; [now rewrite Hcf |].
  unfold handleResize. pose proof Hdr' as [[Hs' _ _ _ _] _]. rewrite Hs', Hcf.
  apply (empty_frame_erases classColors NaN _ h c el' v); auto.
  - now apply updateBoundingBoxes_consistent.
  - apply frameData_NaN.
Qed.


(** ** The transform in exact arithmetic *)

Lemma is_0_positive (q : Qc) : (0 < q)%Qc -> Exact.is_0 q = false.
Proof. intros H. apply exact_positive. now apply Qclt_alt. Qed.

Lemma div_positive (a b : Qc) :
  (0 < b)%Qc -> Exact.div (Exact.Fin a) (Exact.Fin b) = Exact.Fin (a / b).
Proof. intros H. unfold Exact.div. now rewrite (is_0_positive b H). Qed.

Lemma min_Fin (a b : Qc) :
  Exact.min (Exact.Fin a) (Exact.Fin b) = Exact.Fin a /\ (a <= b)%Qc \/
  Exact.min (Exact.Fin a) (Exact.Fin b) = Exact.Fin b /\ (b <= a)%Qc.
Proof.
  unfold Exact.min, Exact.lt. destruct (b ?= a)%Qc eqn:E.
  - left. split; auto. apply Qceq_alt in E. subst. apply Qcle_refl.
  - right. split; auto. apply Qclt_le_weak. now apply Qclt_alt.
  - left. split; auto. apply Qclt_le_weak. now apply Qcgt_alt in E.
Qed.

Lemma mult_div_positive (x y : Qc) : (0 < y)%Qc -> (y * (x / y) = x)%Qc.
Proof.
  intros H. apply Qcmult_div_r. intros ->.
  apply (Qclt_not_le _ _ H), Qcle_refl.
Qed.

Lemma div_le_mult (x y a : Qc) :
  (0 < y)%Qc -> (a <= x / y)%Qc -> (y * a <= x)%Qc.
Proof.
  intros Hy Ha. rewrite <- (mult_div_positive x y Hy).
  rewrite !(Qcmult_comm y). apply Qcmult_le_compat_r; auto.
  now apply Qclt_le_weak.
Qed.

Lemma js_le_Fin (a b : Qc) :
  (a <= b)%Qc -> js_le (Exact.Fin a) (Exact.Fin b) = true.
Proof.
  intros H. unfold js_le. cbn [js_gt js_seq Exact.exact Exact.lt Exact.seq].
  destruct (a ?= b)%Qc eqn:E; auto.
Qed.

Lemma seq_Fin (a : Qc) : Exact.seq (Exact.Fin a) (Exact.Fin a) = true.
Proof. unfold Exact.seq. now rewrite (proj1 (Qceq_alt a a) eq_refl). Qed.

(** C3, as amended: in exact arithmetic, for every native size and display
    rectangle with all four dimensions positive, the fitted picture
    satisfies [actualWidth <= displayRect.width] and
    [actualHeight <= displayRect.height], with equality in at least one of
    the two dimensions. *)
Theorem aspect_fit_exact (nativeWidth nativeHeight w h : Qc)
    (displayRect : DOMRect Exact.xnum) :
  width displayRect = Exact.Fin w -> height displayRect = Exact.Fin h ->
  (0 < nativeWidth)%Qc -> (0 < nativeHeight)%Qc -> (0 < w)%Qc -> (0 < h)%Qc ->
  aspect_fit (Exact.Fin nativeWidth) (Exact.Fin nativeHeight) displayRect /\
  exists aw ah : Qc,
    actualWidth (fit_video (Exact.Fin nativeWidth) (Exact.Fin nativeHeight)
                   displayRect) = Exact.Fin aw /\
    actualHeight (fit_video (Exact.Fin nativeWidth) (Exact.Fin nativeHeight)
                    displayRect) = Exact.Fin ah /\
    (aw <= w)%Qc /\ (ah <= h)%Qc /\ (aw = w \/ ah = h).
Proof.
  intros Hw Hh Hnw Hnh Hpw Hph.
  assert (Hex : exists aw ah : Qc,
    actualWidth (fit_video (Exact.Fin nativeWidth) (Exact.Fin nativeHeight)
                   displayRect) = Exact.Fin aw /\
    actualHeight (fit_video (Exact.Fin nativeWidth) (Exact.Fin nativeHeight)
                    displayRect) = Exact.Fin ah /\
    (aw <= w)%Qc /\ (ah <= h)%Qc /\ (aw = w \/ ah = h)).
  { unfold fit_video. cbn [actualWidth actualHeight]. rewrite Hw, Hh.
    change (@js_div Exact.xnum Exact.exact) with Exact.div.
    change (@js_mul Exact.xnum Exact.exact) with Exact.mul.
    change (@Math_min Exact.xnum Exact.exact) with Exact.min.
    rewrite (div_positive w nativeWidth Hnw), (div_positive h nativeHeight Hnh).
    destruct (min_Fin (w / nativeWidth) (h / nativeHeight))
      as [[-> Hle] | [-> Hle]]; cbn [Exact.mul].
    - exists (nativeWidth * (w / nativeWidth))%Qc,
             (nativeHeight * (w / nativeWidth))%Qc.
      rewrite (mult_div_positive w nativeWidth Hnw).
      repeat apply conj; auto using Qcle_refl, div_le_mult.
    - exists (nativeWidth * (h / nativeHeight))%Qc,
             (nativeHeight * (h / nativeHeight))%Qc.
      rewrite (mult_div_positive h nativeHeight Hnh).
      repeat apply conj; auto using Qcle_refl, div_le_mult. }
  split; [| exact Hex].
  destruct Hex as (aw & ah & Ea & Eh & Hla & Hlh & Heq).
  unfold aspect_fit. cbv zeta. rewrite Ea, Eh, Hw, Hh.
  repeat apply conj; auto using js_le_Fin.
  destruct Heq as [-> | ->]; [left | right]; apply seq_Fin.
Qed.


(** * The transform in exact arithmetic *)

Lemma div_pos (x y : Qc) : (0 < x)%Qc -> (0 < y)%Qc -> (0 < x / y)%Qc.
Proof. intros Hx Hy. apply Qcmult_pos_pos; [exact Hx | now apply Qcinv_pos]. Qed.

Lemma div_mult_cancel (b y s : Qc) :
  (0 < y)%Qc -> (b / y * (y * s) = b * s)%Qc.
Proof.
  intros Hy. rewrite <- (mult_div_positive b y Hy) at 2. ring.
Qed.

(** The fit of a [nativeWidth] x [nativeHeight] video in a [W] x [H]
    rectangle: a positive scale under which the picture is no larger than
    the rectangle, and the offsets that center it. *)
Lemma fit_video_Fin (nativeWidth nativeHeight W H : Qc)
    (displayRect : DOMRect Exact.xnum) :
  width displayRect = Exact.Fin W -> height displayRect = Exact.Fin H ->
  (0 < nativeWidth)%Qc -> (0 < nativeHeight)%Qc -> (0 < W)%Qc -> (0 < H)%Qc ->
  exists s : Qc,
    (0 < s)%Qc /\ (nativeWidth * s <= W)%Qc /\ (nativeHeight * s <= H)%Qc /\
    fit_video (Exact.Fin nativeWidth) (Exact.Fin nativeHeight) displayRect
    = {| scale := Exact.Fin s;
         actualWidth := Exact.Fin (nativeWidth * s);
         actualHeight := Exact.Fin (nativeHeight * s);
         xOffset := Exact.Fin ((W - nativeWidth * s) / Q2Qc 2);
         yOffset := Exact.Fin ((H - nativeHeight * s) / Q2Qc 2) |}.
Proof.
  intros Hw Hh Hnw Hnh HW HH.
  unfold fit_video. rewrite Hw, Hh.
  change (@js_div Exact.xnum Exact.exact) with Exact.div.
  change (@js_mul Exact.xnum Exact.exact) with Exact.mul.
  change (@js_sub Exact.xnum Exact.exact) with Exact.sub.
  change (@Math_min Exact.xnum Exact.exact) with Exact.min.
  change (@lit_2 Exact.xnum Exact.exact) with (Exact.Fin (Q2Qc 2)).
  rewrite (div_positive W nativeWidth Hnw), (div_positive H nativeHeight Hnh).
  assert (H2 : (0 < Q2Qc 2)%Qc) by reflexivity.
  destruct (min_Fin (W / nativeWidth) (H / nativeHeight))
    as [[-> Hle] | [-> Hle]]; cbn [Exact.mul Exact.sub Exact.add Exact.opp];
    rewrite !(div_positive _ _ H2).
  - exists (W / nativeWidth)%Qc.
    split; [now apply div_pos |]. split; [| split; [| reflexivity]].
    + rewrite (mult_div_positive W nativeWidth Hnw). apply Qcle_refl.
    + now apply div_le_mult.
  - exists (H / nativeHeight)%Qc.
    split; [now apply div_pos |]. split; [| split; [| reflexivity]].
    + now apply div_le_mult.
    + rewrite (mult_div_positive H nativeHeight Hnh). apply Qcle_refl.
Qed.

(** One axis: a segment [[b, b']] of [[0, native]] is drawn at
    [offset + b * s] with extent [(b' - b) * s], inside the picture. *)
Lemma axis_inside (native size s b b' : Qc) :
  (0 < native)%Qc -> (0 < s)%Qc -> (native * s <= size)%Qc ->
  (0 <= b)%Qc -> (b <= b')%Qc -> (b' <= native)%Qc ->
  let offset := ((size - native * s) / Q2Qc 2)%Qc in
  let position := (offset + b / native * (native * s))%Qc in
  let extent := ((b' - b) / native * (native * s))%Qc in
  (0 <= offset)%Qc /\ (offset + native * s <= size)%Qc /\
  (offset <= position)%Qc /\ (0 <= extent)%Qc /\
  (position + extent <= offset + native * s)%Qc.
Proof.
  intros Hn Hs Hfit Hb Hbb Hbn. cbn zeta.
  rewrite !(div_mult_cancel _ native s Hn).
  assert (H2 : (0 < Q2Qc 2)%Qc) by reflexivity.
  pose proof (mult_div_positive (size - native * s) (Q2Qc 2) H2) as Ho.
  assert (Hs0 : (0 <= s)%Qc) by now apply Qclt_le_weak.
  pose proof (Qcmult_le_compat_r _ _ s Hb Hs0) as P0.
  pose proof (Qcmult_le_compat_r _ _ s Hbb Hs0) as P1.
  pose proof (Qcmult_le_compat_r _ _ s Hbn Hs0) as P2.
  replace ((b' - b) * s)%Qc with (b' * s - b * s)%Qc by ring.
  revert Ho P0 P1 P2 Hfit.
  generalize ((size - native * s) / Q2Qc 2)%Qc.
  replace (0 * s)%Qc with 0%Qc by ring.
  generalize (b * s)%Qc (b' * s)%Qc (native * s)%Qc.
  clear. intros p p' a o Ho P0 P1 P2 Hfit.
  assert (Ho' : (2 * this o == this size - this a)%Q).
  { transitivity (this (Q2Qc 2 * o)%Qc).
    - unfold Qcmult, Q2Qc. cbn [this]. now rewrite !Qred_correct.
    - rewrite Ho. unfold Qcminus, Qcplus, Qcopp, Q2Qc. cbn [this].
      rewrite !Qred_correct. reflexivity. }
  clear Ho.
  repeat apply conj; unfold Qcminus, Qcopp in *; qc_lra.
Qed.

Lemma extent_Fin (q : Qc) : (0 <= q)%Qc -> extent_or_0 (Exact.Fin q) = Exact.Fin q.
Proof.
  intros Hq. unfold extent_or_0.
  cbn [isFinite js_gt lit_0 Exact.exact Exact.finite Exact.lt Exact.of_Q andb].
  destruct (Q2Qc 0 ?= q)%Qc eqn:E; [| reflexivity |].
  - apply Qceq_alt in E. now rewrite <- E.
  - exfalso. apply Qcgt_alt in E. now apply (Qclt_not_le _ _ E).
Qed.

(** X19: in exact arithmetic, with positive native dimensions and a
    positive display rectangle, the box of a record whose bbox lies within
    the native frame ([0 <= x_min <= x_max <= nativeWidth], and likewise in
    y) is drawn unclamped and inside the fitted picture, which itself lies
    inside the display rectangle. *)
Theorem in_range_box_inside_picture (classColors : list (string * string))
    (f : Exact.xnum) (w : world Exact.xnum) h c el v
    (nativeWidth nativeHeight W H : Qc) :
  world_ok w -> drawable w h c el v ->
  videoWidth v = Exact.Fin nativeWidth ->
  videoHeight v = Exact.Fin nativeHeight ->
  width (video_rect v) = Exact.Fin W -> height (video_rect v) = Exact.Fin H ->
  (0 < nativeWidth)%Qc -> (0 < nativeHeight)%Qc -> (0 < W)%Qc -> (0 < H)%Qc ->
  forall n, n ∈ primitives (fst (updateBoundingBoxes classColors f w)) ->
  tagName n = "rect" ->
  forall x0 y0 x1 y1 : Qc,
  bbox (datum n) = [Exact.Fin x0; Exact.Fin y0; Exact.Fin x1; Exact.Fin y1] ->
  (0 <= x0)%Qc -> (x0 <= x1)%Qc -> (x1 <= nativeWidth)%Qc ->
  (0 <= y0)%Qc -> (y0 <= y1)%Qc -> (y1 <= nativeHeight)%Qc ->
  let T := fit_video (videoWidth v) (videoHeight v) (video_rect v) in
  exists xo yo aw ah x y wd ht : Qc,
    xOffset T = Exact.Fin xo /\ yOffset T = Exact.Fin yo /\
    actualWidth T = Exact.Fin aw /\ actualHeight T = Exact.Fin ah /\
    attrs n !! "x" = Some (ANum (Exact.Fin x)) /\
    attrs n !! "y" = Some (ANum (Exact.Fin y)) /\
    attrs n !! "width" = Some (ANum (Exact.Fin wd)) /\
    attrs n !! "height" = Some (ANum (Exact.Fin ht)) /\
    Exact.Fin x = spec_x (videoWidth v) T (datum n) /\
    Exact.Fin y = spec_y (videoHeight v) T (datum n) /\
    Exact.Fin wd = spec_width (videoWidth v) T (datum n) /\
    Exact.Fin ht = spec_height (videoHeight v) T (datum n) /\
    (0 <= xo)%Qc /\ (xo + aw <= W)%Qc /\
    (xo <= x)%Qc /\ (0 <= wd)%Qc /\ (x + wd <= xo + aw)%Qc /\
    (0 <= yo)%Qc /\ (yo + ah <= H)%Qc /\
    (yo <= y)%Qc /\ (0 <= ht)%Qc /\ (y + ht <= yo + ah)%Qc.
Proof.
  intros Hok Hdr Hvw Hvh Hw Hh Hnw Hnh HW HH n Hn Ht x0 y0 x1 y1 Hbox
         Hx0 Hx01 Hx1 Hy0 Hy01 Hy1.
  destruct (rects_redrawn classColors f w h c el v Hok Hdr) as (_ & _ & Hdrawn).
  destruct (Hdrawn n Hn Ht) as (_ & n0 & ->).
  destruct (draw_rect_attrs classColors (videoWidth v) (videoHeight v)
              (fit_video (videoWidth v) (videoHeight v) (video_rect v)) n0)
    as (Ax & Ay & Aw & Ah & _).
  rewrite datum_draw_rect in *. cbn zeta.
  rewrite Ax, Ay, Aw, Ah. clear Ax Ay Aw Ah Hdrawn Hn Ht.
  rewrite Hvw, Hvh.
  destruct (fit_video_Fin nativeWidth nativeHeight W H (video_rect v)
              Hw Hh Hnw Hnh HW HH) as (s & Hs & Hfw & Hfh & ->).
  destruct (axis_inside nativeWidth W s x0 x1 Hnw Hs Hfw Hx0 Hx01 Hx1)
    as (X1 & X2 & X3 & X4 & X5).
  destruct (axis_inside nativeHeight H s y0 y1 Hnh Hs Hfh Hy0 Hy01 Hy1)
    as (Y1 & Y2 & Y3 & Y4 & Y5).
  assert (Ex : spec_x (Exact.Fin nativeWidth)
                 {| scale := Exact.Fin s;
                    actualWidth := Exact.Fin (nativeWidth * s);
                    actualHeight := Exact.Fin (nativeHeight * s);
                    xOffset := Exact.Fin ((W - nativeWidth * s) / Q2Qc 2);
                    yOffset := Exact.Fin ((H - nativeHeight * s) / Q2Qc 2) |}
                 (datum n0)
               = Exact.Fin ((W - nativeWidth * s) / Q2Qc 2
                            + x0 / nativeWidth * (nativeWidth * s))).
  { unfold spec_x, bbox_at. rewrite Hbox. cbn [nth xOffset actualWidth].
    change (@js_div Exact.xnum Exact.exact) with Exact.div.
    change (@js_mul Exact.xnum Exact.exact) with Exact.mul.
    change (@js_add Exact.xnum Exact.exact) with Exact.add.
    now rewrite (div_positive x0 nativeWidth Hnw). }
  assert (Ey : spec_y (Exact.Fin nativeHeight)
                 {| scale := Exact.Fin s;
                    actualWidth := Exact.Fin (nativeWidth * s);
                    actualHeight := Exact.Fin (nativeHeight * s);
                    xOffset := Exact.Fin ((W - nativeWidth * s) / Q2Qc 2);
                    yOffset := Exact.Fin ((H - nativeHeight * s) / Q2Qc 2) |}
                 (datum n0)
               = Exact.Fin ((H - nativeHeight * s) / Q2Qc 2
                            + y0 / nativeHeight * (nativeHeight * s))).
  { unfold spec_y, bbox_at. rewrite Hbox. cbn [nth yOffset actualHeight].
    change (@js_div Exact.xnum Exact.exact) with Exact.div.
    change (@js_mul Exact.xnum Exact.exact) with Exact.mul.
    change (@js_add Exact.xnum Exact.exact) with Exact.add.
    now rewrite (div_positive y0 nativeHeight Hnh). }
  assert (Ew : spec_width (Exact.Fin nativeWidth)
                 {| scale := Exact.Fin s;
                    actualWidth := Exact.Fin (nativeWidth * s);
                    actualHeight := Exact.Fin (nativeHeight * s);
                    xOffset := Exact.Fin ((W - nativeWidth * s) / Q2Qc 2);
                    yOffset := Exact.Fin ((H - nativeHeight * s) / Q2Qc 2) |}
                 (datum n0)
               = Exact.Fin ((x1 - x0) / nativeWidth * (nativeWidth * s))).
  { unfold spec_width, bbox_at. rewrite Hbox. cbn [nth actualWidth].
    change (@js_div Exact.xnum Exact.exact) with Exact.div.
    change (@js_mul Exact.xnum Exact.exact) with Exact.mul.
    change (@js_sub Exact.xnum Exact.exact) with Exact.sub.
    cbn [Exact.sub Exact.add Exact.opp].
    now rewrite (div_positive _ nativeWidth Hnw). }
  assert (Eh : spec_height (Exact.Fin nativeHeight)
                 {| scale := Exact.Fin s;
                    actualWidth := Exact.Fin (nativeWidth * s);
                    actualHeight := Exact.Fin (nativeHeight * s);
                    xOffset := Exact.Fin ((W - nativeWidth * s) / Q2Qc 2);
                    yOffset := Exact.Fin ((H - nativeHeight * s) / Q2Qc 2) |}
                 (datum n0)
               = Exact.Fin ((y1 - y0) / nativeHeight * (nativeHeight * s))).
  { unfold spec_height, bbox_at. rewrite Hbox. cbn [nth actualHeight].
    change (@js_div Exact.xnum Exact.exact) with Exact.div.
    change (@js_mul Exact.xnum Exact.exact) with Exact.mul.
    change (@js_sub Exact.xnum Exact.exact) with Exact.sub.
    cbn [Exact.sub Exact.add Exact.opp].
    now rewrite (div_positive _ nativeHeight Hnh). }
  change (rect_x ?a ?g ?d) with (finite_or_0 (spec_x a g d)).
  change (rect_y ?a ?g ?d) with (finite_or_0 (spec_y a g d)).
  change (rect_width ?a ?g ?d) with (extent_or_0 (spec_width a g d)).
  change (rect_height ?a ?g ?d) with (extent_or_0 (spec_height a g d)).
  rewrite Ex, Ey, Ew, Eh.
  rewrite (extent_Fin _ X4), (extent_Fin _ Y4).
  cbn [xOffset yOffset actualWidth actualHeight].
  do 8 eexists.
  repeat (split; [reflexivity |]).
  repeat apply conj; assumption.
Qed.

(** ** The page in IEEE-754 arithmetic *)

Lemma loaded_ok : world_ok Scenario.loaded.
Proof.
  apply loadBoundingBoxData_ok, initializeBoundingBoxes_ok, initial_ok.
Qed.

Lemma loaded_shown :
  shown Scenario.loaded 0 0 Scenario.surface0 Scenario.videoElement.
Proof. split; try reflexivity. discriminate. Qed.

Lemma loaded_drawable :
  drawable Scenario.loaded 0 0 Scenario.surface0 Scenario.videoElement.
Proof. split; [exact loaded_shown |]. split; reflexivity. Qed.

Lemma loaded_positive : positive_geometry Scenario.videoElement.
Proof. split; reflexivity. Qed.

Lemma loaded_frame3 :
  frameData 3%float (boundingBoxData Scenario.loaded)
  = [Scenario.car; Scenario.inverted].
Proof. reflexivity. Qed.

Lemma frame3_keys :
  NoDup (key <$> frameData 3%float (boundingBoxData Scenario.loaded)).
Proof.
  rewrite loaded_frame3. apply (bool_decide_unpack _). vm_compute. exact I.
Qed.

Lemma hidden_shown :
  shown Scenario.hidden 0 0 Scenario.surface0 Scenario.hidden_video.
Proof. split; try reflexivity. discriminate. Qed.

(** The scenario of the specification: native 1920x1080 in 800x600. *)
Example scenario_fit :
  fit_video 1920%float 1080%float (video_rect Scenario.videoElement) =
  {| scale := 0x1.aaaaaaaaaaaabp-2%float; actualWidth := 800%float;
     actualHeight := 450%float; xOffset := 0%float; yOffset := 75%float |}.
Proof. reflexivity. Qed.

(** The opacity at confidence 0, 0.7 and 1, as binary64 computes it. *)
Example opacity_samples :
  Math_min 1%float (0 + 0x1.3333333333333p-2)%float = 0x1.3333333333333p-2%float /\
  Math_min 1%float (0x1.6666666666666p-1 + 0x1.3333333333333p-2)%float = 1%float /\
  Math_min 1%float (1 + 0x1.3333333333333p-2)%float = 1%float.
Proof. split; [| split]; reflexivity. Qed.

(** C1, the claim as stated, refuted: in frame 3 of [Scenario.loaded] the
    record [Scenario.inverted] has x_max left of x_min; its box is drawn
    with width 0, not with the negative width the formula gives. *)
Lemma unclamped_width_refuted :
  ~ drawn_unclamped Scenario.classColors 3%float Scenario.loaded
      Scenario.videoElement.
Proof.
  intros H.
  destruct (rects_redrawn Scenario.classColors 3%float Scenario.loaded 0 0
              Scenario.surface0 Scenario.videoElement
              loaded_ok loaded_drawable) as (_ & Hall & Hdrawn).
  destruct (Hall Scenario.inverted) as (n & Hn & Ht & Hd).
  { rewrite loaded_frame3. apply elem_of_cons. right.
    apply elem_of_cons. now left. }
  destruct (H n Hn Ht) as (_ & _ & Hw & _).
  destruct (Hdrawn n Hn Ht) as (_ & n0 & ->).
  destruct (draw_rect_attrs Scenario.classColors
              (videoWidth Scenario.videoElement)
              (videoHeight Scenario.videoElement)
              (fit_video (videoWidth Scenario.videoElement)
                 (videoHeight Scenario.videoElement)
                 (video_rect Scenario.videoElement)) n0)
    as (_ & _ & Hw' & _).
  rewrite datum_draw_rect in *. rewrite Hd in *.
  rewrite Hw' in Hw.
  apply (f_equal (fun o => match o with
                           | Some (ANum x) => Prim2SF x
                           | _ => S754_nan
                           end)) in Hw.
  vm_compute in Hw. discriminate Hw.
Qed.

(** C3, the claim as stated, refuted in binary64: a 1920x1080 video in a
    1000x700 rectangle (all four dimensions positive) gets
    [actualWidth = 1920 * (1000 / 1920)], which rounds to
    1000.0000000000001, above the width of the rectangle. *)
Lemma binary64_breaks_aspect_fit :
  js_gt 1920%float 0%float = true /\ js_gt 1080%float 0%float = true /\
  js_gt (width Scenario.wide) 0%float = true /\
  js_gt (height Scenario.wide) 0%float = true /\
  ~ aspect_fit 1920%float 1080%float Scenario.wide.
Proof.
  split; [reflexivity |]. split; [reflexivity |].
  split; [reflexivity |]. split; [reflexivity |].
  intros [Hw _]. vm_compute in Hw. discriminate Hw.
Qed.

(** C5, the code at the failing input: the surface of [Scenario.loaded] was
    initialized on container 0; the video element then leaves the container
    and [initializeBoundingBoxes] is called again.  It returns and logs the
    error, but [svg] still names the overlay it has just removed from the
    document, so the next redraw stores the frame number and throws. *)
Example stale_surface_after_failed_initialize :
  snd (initializeBoundingBoxes Scenario.classColors 0 Scenario.emptied)
    = Returned /\
  console (fst (initializeBoundingBoxes Scenario.classColors 0 Scenario.emptied))
    = ["Error initializing bounding boxes:"] /\
  svg (fst (initializeBoundingBoxes Scenario.classColors 0 Scenario.emptied))
    = Some 0 /\
  updateBoundingBoxes Scenario.classColors 3%float
    (fst (initializeBoundingBoxes Scenario.classColors 0 Scenario.emptied))
  = (set_currentFrame 3%float
       (fst (initializeBoundingBoxes Scenario.classColors 0 Scenario.emptied)),
     Threw (TypeError "parentNode.querySelector")).
Proof.
  split; [reflexivity |]. split; [reflexivity |]. split; reflexivity.
Qed.

(** C7 at a state with no surface. *)
Lemma redraw_without_surface_or_data_witness :
  updateBoundingBoxes Scenario.classColors 5%float (initial Scenario.page)
  = (initial Scenario.page, Returned).
Proof.
  apply redraw_without_surface_or_data. left. reflexivity.
Defined.

(** C9 on frame 3 of the loaded page. *)
Lemma redraw_idempotent_witness :
  updateBoundingBoxes Scenario.classColors 3%float
    (fst (updateBoundingBoxes Scenario.classColors 3%float Scenario.loaded))
  = updateBoundingBoxes Scenario.classColors 3%float Scenario.loaded.
Proof.
  apply redraw_idempotent; [exact loaded_ok | exact frame3_keys].
Defined.





(** C2 on frames 3 and 4: the box of the record with id 2 of frame 3 is,
    after the redraw of frame 4, the same element, bound to the record with
    id 2 of frame 4 and moved to its position. *)
Lemma redraw_keyed_by_id_witness :
  let w1 := fst (updateBoundingBoxes Scenario.classColors 3%float Scenario.loaded) in
  let w2 := fst (updateBoundingBoxes Scenario.classColors 4%float w1) in
  exists n n',
    n ∈ primitives w1 /\ tagName n = "rect" /\ datum n = Scenario.inverted /\
    n' ∈ primitives w2 /\ nid n' = nid n /\
    datum n' = (Scenario.record 4 2 "truck" 0.5 [10; 10; 20; 20])%float /\
    attrs n' !! "x" = Some (ANum (0 + 10 / 1920 * 800)%float).
Proof.
  cbn zeta.
  destruct (rects_redrawn Scenario.classColors 3%float Scenario.loaded 0 0
              Scenario.surface0 Scenario.videoElement loaded_ok loaded_drawable)
    as (_ & Hall & _).
  destruct (Hall Scenario.inverted) as (n & Hn & Ht & Hd).
  { apply list_elem_of_In. right. left. reflexivity. }
  destruct (redraw_keyed_by_id Scenario.classColors 3%float 4%float Scenario.loaded 0 0
              Scenario.surface0 Scenario.videoElement loaded_ok loaded_drawable
              frame3_keys)
    as (_ & _ & _ & _ & Hkept).
  destruct (Hkept n Hn (or_introl Ht))
    as (n' & d & Hn' & Hid & _ & _ & _ & HdD & Hk & Hd' & Hrect & _).
  { rewrite Hd. apply list_elem_of_In. left. reflexivity. }
  destruct (Hrect Ht) as (_ & Hx & _).
  assert (Ed : d = (Scenario.record 4 2 "truck" 0.5 [10; 10; 20; 20])%float).
  { rewrite Hd in Hk. apply list_elem_of_In in HdD.
    destruct HdD as [<- | [<- | []]]; [reflexivity | discriminate Hk]. }
  exists n, n'. rewrite Hd', Hx, Ed. repeat split; auto.
Defined.

(** C10 on both paths.  Frame 3 is asked for before any initialization,
    with records loaded whose frame 0 holds one record: after the
    initialization a resize draws the box of that record, not a box of
    frame 3.  Frame 3 is asked for while the video is hidden: once the
    video is back a resize draws the two boxes of frame 3. *)
Lemma abort_paths_and_currentFrame_witness :
  Permutation
    (datum <$> selectAll "rect"
       (primitives
          (fst (handleResize Scenario.classColors
                  (run Scenario.classColors [Initialize 0%nat]
                     (fst (updateBoundingBoxes Scenario.classColors 3%float
                             Scenario.uninitialized)))))))
    [Scenario.parked] /\
  Permutation
    (datum <$> selectAll "rect"
       (primitives
          (fst (handleResize Scenario.classColors
                  (run Scenario.classColors [PageChanged Scenario.page]
                     (fst (updateBoundingBoxes Scenario.classColors 3%float
                             Scenario.hidden)))))))
    [Scenario.car; Scenario.inverted].
Proof.
  split.
  - destruct (proj1 (abort_paths_and_currentFrame Scenario.classColors 3%float
                       Scenario.uninitialized))
      as (_ & _ & H); [left; reflexivity |].
    destruct (H [Initialize 0%nat] 0%nat 0%nat Scenario.surface0
                Scenario.videoElement)
      as (_ & _ & HR & _).
    + apply Forall_nil_2.
    + repeat constructor.
    + split; [split; try reflexivity; discriminate | split; reflexivity].
    + exact HR.
  - destruct (proj2 (abort_paths_and_currentFrame Scenario.classColors 3%float
                       Scenario.hidden)
                0%nat 0%nat Scenario.surface0 Scenario.hidden_video hidden_shown)
      as (_ & _ & _ & H).
    { right. right. left. reflexivity. }
    destruct (H [PageChanged Scenario.page] 0%nat 0%nat Scenario.surface0
                Scenario.videoElement)
      as (_ & _ & HR & _).
    + exact loaded_ok.
    + repeat constructor.
    + split; [split; try reflexivity; discriminate | split; reflexivity].
    + exact HR.
Defined.

(** C1, as amended, on frame 3. *)
Lemma drawn_attributes_clamped_witness :
  snd (updateBoundingBoxes Scenario.classColors 3%float Scenario.loaded)
  = Returned.
Proof.
  destruct (drawn_attributes_clamped Scenario.classColors 3%float
              Scenario.loaded 0 0 Scenario.surface0 Scenario.videoElement
              loaded_ok loaded_shown loaded_positive)
    as (_ & _ & _ & _ & _ & H & _).
  exact H.
Defined.

(** ** The page in exact arithmetic *)

Lemma exact_loaded_ok : world_ok ExactScenario.loaded.
Proof.
  apply loadBoundingBoxData_ok, initializeBoundingBoxes_ok, initial_ok.
Qed.

Lemma exact_loaded_drawable :
  drawable ExactScenario.loaded 0 0 ExactScenario.surface0
    ExactScenario.videoElement.
Proof.
  split; split; try reflexivity. discriminate.
Qed.

(** C3, as amended, at native 1920x1080 in 800x600. *)
Lemma aspect_fit_exact_witness :
  aspect_fit (Exact.Fin (Q2Qc 1920)) (Exact.Fin (Q2Qc 1080))
    (video_rect ExactScenario.videoElement).
Proof.
  apply (aspect_fit_exact (Q2Qc 1920) (Q2Qc 1080) (Q2Qc 800) (Q2Qc 600));
    reflexivity.
Defined.


(** A failed first initialization, on a container without a video. *)
Lemma initialize_failure_without_surface_witness :
  svg (fst (initializeBoundingBoxes Scenario.classColors 0
              (initial (containers Scenario.emptied)))) = None.
Proof.
  destruct (initialize_failure_without_surface Scenario.classColors 0
              (initial (containers Scenario.emptied)))
    as (_ & H & _); [reflexivity | reflexivity | exact H].
Defined.


(** ** The events of the page, in IEEE-754 arithmetic *)

Lemma drawn_ok : world_ok Scenario.drawn.
Proof.
  exact (updateBoundingBoxes_ok Scenario.classColors 3%float Scenario.loaded
           loaded_ok).
Qed.

Lemma drawn_drawable :
  drawable Scenario.drawn 0 0 Scenario.drawn_surface Scenario.videoElement.
Proof.
  split; [split | split]; try (vm_compute; reflexivity).
  vm_compute. discriminate.
Qed.

Lemma drawn_layer :
  primitives (fst (updateBoundingBoxes Scenario.classColors 3%float
                     Scenario.loaded))
  = boxLayer Scenario.drawn_surface.
Proof. vm_compute. reflexivity. Qed.

(** X3 at [Scenario.failing]: the redraw that follows the failed
    initialization. *)
Lemma reachable_exceptions_witness :
  exists h el,
    svg (run Scenario.classColors Scenario.failing (initial Scenario.page))
      = Some h /\
    overlays (run Scenario.classColors Scenario.failing (initial Scenario.page))
      !! h = Some el /\
    parentNode el = None.
Proof.
  destruct (reachable_exceptions Scenario.classColors Scenario.page
              Scenario.failing (Update 3%float)
              (TypeError "parentNode.querySelector"))
    as [(fetch & H & _) | (_ & h & el & Hs & Ho & Hp & _)].
  - vm_compute. reflexivity.
  - discriminate H.
  - exists h, el. auto.
Defined.

(** X4: a load, a redraw and a window resize after an initialization; and
    a redraw once the overlay has been taken out. *)
Lemma no_exception_after_initialize_witness :
  snd (step Scenario.classColors WindowResized
         (run Scenario.classColors
            [DataFileChanged Scenario.fetch (Some (Some "detections.json"));
             Update 3%float]
            (fst (initializeBoundingBoxes Scenario.classColors 0
                    (initial Scenario.page)))))
  = Returned /\
  snd (step Scenario.classColors (Update 4%float)
         (fst (step Scenario.classColors (OverlayRemoved 0)
                 (run Scenario.classColors
                    [DataFileChanged Scenario.fetch
                       (Some (Some "detections.json"));
                     Update 3%float]
                    (fst (initializeBoundingBoxes Scenario.classColors 0
                            (initial Scenario.page)))))))
  = Threw (TypeError "parentNode.querySelector").
Proof.
  destruct (no_exception_after_initialize Scenario.classColors 0
              (initial Scenario.page) Scenario.videoElement
              [DataFileChanged Scenario.fetch (Some (Some "detections.json"));
               Update 3%float]
              WindowResized)
    as [H1 H2].
  - reflexivity.
  - repeat constructor.
  - split; [exact (H1 I) |].
    apply (H2 0%nat 4%float); [vm_compute; reflexivity | vm_compute; discriminate].
Defined.

(** X6 at [Scenario.drawn]. *)
Lemma reachable_layers_finite_witness :
  Forall (fun el => Forall finite_geometry (boxLayer el))
    (overlays Scenario.drawn).
Proof.
  exact (reachable_layers_finite Scenario.classColors Scenario.page
           Scenario.session).
Defined.

(** X7: the box of the car of frame 3 and the first legend entry. *)
Lemma legend_matches_boxes_witness :
  exists n,
    n ∈ boxLayer Scenario.drawn_surface /\ datum n = Scenario.car /\
    styles n !! "stroke" = Some (AStr "#ff0000").
Proof.
  destruct (rects_redrawn Scenario.classColors 3%float Scenario.loaded 0 0
              Scenario.surface0 Scenario.videoElement loaded_ok loaded_drawable)
    as (_ & Hall & _).
  destruct (Hall Scenario.car) as (n & Hn & Ht & Hd).
  { apply elem_of_cons. now left. }
  assert (Hin : n ∈ boxLayer Scenario.drawn_surface)
    by (rewrite <- drawn_layer; exact Hn).
  exists n. split; [exact Hin |]. split; [exact Hd |].
  refine (proj1 (legend_matches_boxes Scenario.classColors Scenario.page
                   Scenario.session Scenario.drawn_surface n
                   {| legend_y := 0; legend_fill := Some "#ff0000";
                      legend_label := "car" |} _ Hin _ _) Ht).
  - apply (list_elem_of_lookup_2 _ 0). vm_compute. reflexivity.
  - apply (list_elem_of_lookup_2 _ 0). vm_compute. reflexivity.
  - rewrite Hd. reflexivity.
Defined.

(** X8: the first redraw of frame 3. *)
Lemma first_redraw_creates_witness :
  length (primitives (fst (updateBoundingBoxes Scenario.classColors 3%float
                             Scenario.loaded))) = 4.
Proof.
  rewrite (first_redraw_creates Scenario.classColors 3%float Scenario.loaded
             0 0 Scenario.surface0 Scenario.videoElement loaded_drawable
             eq_refl).
  reflexivity.
Defined.

(** X9 on frame 4, drawn over frame 3. *)
Lemma redraw_binds_each_record_once_witness :
  length (selectAll "rect"
            (primitives (fst (updateBoundingBoxes Scenario.classColors 4%float
                                Scenario.drawn)))) = 2.
Proof.
  destruct (redraw_binds_each_record_once Scenario.classColors 4%float
              Scenario.drawn 0 0 Scenario.drawn_surface Scenario.videoElement
              drawn_ok drawn_drawable) as (_ & _ & H & _).
  exact H.
Defined.

(** X10: frame 7 has no record. *)
Lemma redraw_of_empty_frame_erases_witness :
  primitives (fst (updateBoundingBoxes Scenario.classColors 7%float
                     Scenario.drawn)) = [].
Proof.
  apply (redraw_of_empty_frame_erases Scenario.classColors Scenario.page
           Scenario.session 7%float 0 0 Scenario.drawn_surface
           Scenario.videoElement).
  - exact drawn_drawable.
  - reflexivity.
Defined.

(** X11: a file that is not there, loaded over [Scenario.drawn]. *)
Lemma load_without_records_freezes_overlay_witness :
  primitives (fst (loadBoundingBoxData Scenario.fetch "missing.json"
                     Scenario.drawn))
  = primitives Scenario.drawn.
Proof.
  destruct (load_without_records_freezes_overlay Scenario.classColors
              Scenario.fetch "missing.json" Scenario.drawn) as (_ & H & _).
  - intros d data. discriminate.
  - exact H.
Defined.

(** X12: the observer of container 0 fires while [svg] names the overlay
    of container 1. *)
Lemma observer_moves_current_surface_witness :
  parentNode Scenario.second_surface = Some 1 /\
  exists el',
    overlays (fst (step Scenario.classColors
                     (VideoResized 0 (video_rect Scenario.videoElement)
                        (container_rect Scenario.videoContainer))
                     Scenario.both)) !! 1 = Some el' /\
    placed el' = cover (video_rect Scenario.videoElement)
                   (container_rect Scenario.videoContainer).
Proof.
  split; [reflexivity |].
  destruct (observer_moves_current_surface Scenario.classColors 0
              (video_rect Scenario.videoElement)
              (container_rect Scenario.videoContainer)
              Scenario.both 1 Scenario.second_surface)
    as [(el' & Ho & Hp & _) _].
  - apply (list_elem_of_lookup_2 _ 0). reflexivity.
  - reflexivity.
  - reflexivity.
  - exists el'. auto.
Defined.

(** X13: the container of [Scenario.drawn], initialized again. *)
Lemma reinitialize_replaces_overlay_witness :
  primitives (fst (initializeBoundingBoxes Scenario.classColors 0
                     Scenario.drawn)) = [].
Proof.
  destruct (reinitialize_replaces_overlay Scenario.classColors Scenario.page
              Scenario.session 0 Scenario.videoContainer Scenario.videoElement)
    as (el & _ & _ & _ & _ & _ & _ & H & _).
  - reflexivity.
  - reflexivity.
  - exact H.
Defined.

(** X14: the box and the label of the car of frame 3. *)
Lemma label_follows_box_witness :
  exists n t,
    datum n = Scenario.car /\ datum t = Scenario.car /\
    attrs t !! "x" = attrs n !! "x" /\
    styles t !! "fill" = styles n !! "stroke".
Proof.
  pose proof (primitives_bound Scenario.classColors 3%float Scenario.loaded
                0 0 Scenario.surface0 Scenario.videoElement loaded_ok
                loaded_drawable) as [HR HT].
  destruct (perm_elem_datum "rect" _ _ HR) as [HallR _].
  destruct (perm_elem_datum "text" _ _ HT) as [HallT _].
  destruct (HallR Scenario.car) as (n & Hn & Hnt & Hnd).
  { apply elem_of_cons. now left. }
  destruct (HallT Scenario.car) as (t & Ht & Htt & Htd).
  { apply elem_of_cons. now left. }
  exists n, t. split; [exact Hnd |]. split; [exact Htd |].
  apply (label_follows_box Scenario.classColors 3%float Scenario.loaded 0 0
           Scenario.surface0 Scenario.videoElement n t loaded_ok
           loaded_drawable Hn Hnt Ht Htt).
  now rewrite Hnd, Htd.
Defined.

(** X16: a window resize after the redraw of frame 3. *)
Lemma resize_after_redraw_changes_nothing_witness :
  handleResize Scenario.classColors Scenario.drawn
  = updateBoundingBoxes Scenario.classColors 3%float Scenario.loaded.
Proof.
  exact (resize_after_redraw_changes_nothing Scenario.classColors 3%float
           Scenario.loaded loaded_ok frame3_keys).
Defined.

(** X18: a redraw of the frame NaN over [Scenario.drawn]. *)
Lemma redraw_at_NaN_erases_witness :
  primitives (fst (updateBoundingBoxes Scenario.classColors NaN
                     Scenario.drawn)) = [].
Proof.
  exact (proj1 (redraw_at_NaN_erases Scenario.classColors Scenario.page
                  Scenario.session 0 0 Scenario.drawn_surface
                  Scenario.videoElement drawn_drawable)).
Defined.


(** X20: the video of [Scenario.drawn] resized to 400x300, then the window. *)
Lemma resize_repaints_in_place_witness :
  fresh (fst (handleResize Scenario.classColors
                (set_containers Scenario.smaller
                   (fst (updateBoundingBoxes Scenario.classColors 3%float
                           Scenario.loaded)))))
  = fresh (fst (updateBoundingBoxes Scenario.classColors 3%float
                  Scenario.loaded)).
Proof.
  destruct (resize_repaints_in_place Scenario.classColors 3%float
              Scenario.loaded 0 0 Scenario.surface0 Scenario.videoElement
              Scenario.smaller Scenario.smaller_video
              loaded_ok loaded_drawable frame3_keys) as (_ & H & _).
  - reflexivity.
  - split; reflexivity.
  - exact H.
Defined.

(** ** The events of the page, in exact arithmetic *)

(** X19: the car of frame 3, whose bbox is [100, 100, 300, 200]. *)
Lemma in_range_box_inside_picture_witness :
  exists (n : node Exact.xnum) (x wd : Qc),
    n ∈ primitives (fst (updateBoundingBoxes Scenario.classColors
                           (ExactScenario.px 3) ExactScenario.loaded)) /\
    attrs n !! "x" = Some (ANum (Exact.Fin x)) /\
    attrs n !! "width" = Some (ANum (Exact.Fin wd)) /\
    (0 <= x)%Qc /\ (0 <= wd)%Qc /\ (x + wd <= Q2Qc 800)%Qc.
Proof.
  destruct (rects_redrawn Scenario.classColors (ExactScenario.px 3)
              ExactScenario.loaded 0 0 ExactScenario.surface0
              ExactScenario.videoElement exact_loaded_ok exact_loaded_drawable)
    as (_ & Hall & _).
  destruct (Hall ExactScenario.car) as (n & Hn & Ht & Hd).
  { apply elem_of_cons. now left. }
  destruct (in_range_box_inside_picture Scenario.classColors
              (ExactScenario.px 3) ExactScenario.loaded 0 0
              ExactScenario.surface0 ExactScenario.videoElement
              (Q2Qc 1920) (Q2Qc 1080) (Q2Qc 800) (Q2Qc 600)
              exact_loaded_ok exact_loaded_drawable
              eq_refl eq_refl eq_refl eq_refl eq_refl eq_refl eq_refl eq_refl
              n Hn Ht (Q2Qc 100) (Q2Qc 100) (Q2Qc 300) (Q2Qc 200))
    as (xo & yo & aw & ah & x & y & wd & ht & _ & _ & _ & _ & Ax & _ & Aw & _
        & _ & _ & _ & _ & X1 & X2 & X3 & X4 & X5 & _).
  - rewrite Hd. reflexivity.
  - discriminate.
  - discriminate.
  - discriminate.
  - discriminate.
  - discriminate.
  - discriminate.
  - exists n, x, wd. split; [exact Hn |]. split; [exact Ax |].
    split; [exact Aw |].
    split; [exact (Qcle_trans _ _ _ X1 X3) |]. split; [exact X4 |].
    exact (Qcle_trans _ _ _ X5 X2).
Defined.
